(** * ew: safety gating of the local-first resolution pipeline

  A shallow embedding of the pure parts of the [ew] shell copilot
  (package [safety], [runtime], [memory], [history] and the policy code of
  [cmd/ew]) together with the properties its specification states about
  them.

  Modelling conventions.
  - A Go [string] is a sequence of bytes; it is modelled by [string]
    (a list of [ascii], i.e. of bytes).  The Go library functions that are
    Unicode aware ([strings.TrimSpace], [strings.ToLower],
    [strings.Fields]) are modelled on ASCII text: the white space
    characters are tab, line feed, vertical tab, form feed, carriage
    return and space, and only the letters [A-Z] have a lower case.
    Bytes above 127 are neither white space nor letters.
  - A [float64] that holds a finite value is modelled by the rational
    number it denotes ([Q]); the comparisons of the code are exact on
    finite values, arithmetic is modelled without rounding.
  - [time.Time] is modelled by an integer count of nanoseconds ([Z]).
  - [sort.Slice] is modelled by an insertion sort driven by the same
    [less] function. *)

From Stdlib Require Import Ascii String ZArith QArith Bool List Lia Sorting.Sorted Sorting.Permutation.
From Stdlib Require OrdersEx.
From stdpp Require Import gmap strings.

Local Open Scope nat_scope.

(** ** Go's [strings] package on ASCII text *)

Module GoStrings.

Definition byteOf (n : nat) : ascii := ascii_of_nat n.

Definition HT : ascii := Eval cbv in byteOf 9.
Definition LF : ascii := Eval cbv in byteOf 10.
Definition VT : ascii := Eval cbv in byteOf 11.
Definition FF : ascii := Eval cbv in byteOf 12.
Definition CR : ascii := Eval cbv in byteOf 13.
Definition SP : ascii := Eval cbv in byteOf 32.
Definition NUL : ascii := Eval cbv in byteOf 0.
Definition DQUOTE : ascii := Eval cbv in byteOf 34.
Definition SQUOTE : ascii := Eval cbv in byteOf 39.
Definition BACKSLASH : ascii := Eval cbv in byteOf 92.

Definition ascii_eqb (a b : ascii) : bool := Ascii.eqb a b.

(** [unicode.IsSpace] restricted to ASCII. *)
Definition isSpace (c : ascii) : bool :=
  let n := nat_of_ascii c in
  (9 <=? n) && (n <=? 13) || (n =? 32).

Definition isUpper (c : ascii) : bool :=
  let n := nat_of_ascii c in (65 <=? n) && (n <=? 90).

Definition isLower (c : ascii) : bool :=
  let n := nat_of_ascii c in (97 <=? n) && (n <=? 122).

Definition isDigit (c : ascii) : bool :=
  let n := nat_of_ascii c in (48 <=? n) && (n <=? 57).

Definition isLetter (c : ascii) : bool := isUpper c || isLower c.

Definition toLowerByte (c : ascii) : ascii :=
  if isUpper c then ascii_of_nat (nat_of_ascii c + 32) else c.

(** [strings.ToLower] *)
Fixpoint ToLower (s : string) : string :=
  match s with
  | EmptyString => EmptyString
  | String c s' => String (toLowerByte c) (ToLower s')
  end.

(** [strings.TrimLeftFunc] *)
Fixpoint TrimLeftFunc (s : string) (f : ascii -> bool) : string :=
  match s with
  | EmptyString => EmptyString
  | String c s' => if f c then TrimLeftFunc s' f else s
  end.

(** [strings.TrimRightFunc] *)
Fixpoint TrimRightFunc (s : string) (f : ascii -> bool) : string :=
  match s with
  | EmptyString => EmptyString
  | String c s' =>
      match TrimRightFunc s' f with
      | EmptyString => if f c then EmptyString else String c EmptyString
      | r => String c r
      end
  end.

(** [strings.TrimFunc] *)
Definition TrimFunc (s : string) (f : ascii -> bool) : string :=
  TrimRightFunc (TrimLeftFunc s f) f.

(** [strings.TrimSpace] *)
Definition TrimSpace (s : string) : string := TrimFunc s isSpace.

Fixpoint inCutset (cutset : string) (c : ascii) : bool :=
  match cutset with
  | EmptyString => false
  | String d cutset' => ascii_eqb c d || inCutset cutset' c
  end.

(** [strings.Trim] *)
Definition Trim (s cutset : string) : string := TrimFunc s (inCutset cutset).

(** [strings.HasPrefix] *)
Fixpoint HasPrefix (s prefix : string) : bool :=
  match prefix with
  | EmptyString => true
  | String p prefix' =>
      match s with
      | EmptyString => false
      | String c s' => ascii_eqb c p && HasPrefix s' prefix'
      end
  end.

(** [strings.Contains] *)
Fixpoint Contains (s substr : string) : bool :=
  HasPrefix s substr ||
  match s with
  | EmptyString => false
  | String _ s' => Contains s' substr
  end.

(** [strings.HasSuffix] *)
Fixpoint HasSuffix (s suffix : string) : bool :=
  String.eqb s suffix ||
  match s with
  | EmptyString => false
  | String _ s' => HasSuffix s' suffix
  end.

(** [strings.TrimPrefix] *)
Definition TrimPrefix (s prefix : string) : string :=
  if HasPrefix s prefix
  then String.substring (String.length prefix) (String.length s - String.length prefix) s
  else s.

(** [strings.TrimSuffix] *)
Definition TrimSuffix (s suffix : string) : string :=
  if HasSuffix s suffix
  then String.substring 0 (String.length s - String.length suffix) s
  else s.

(** [strings.ContainsRune] for an ASCII rune. *)
Fixpoint ContainsRune (s : string) (r : ascii) : bool :=
  match s with
  | EmptyString => false
  | String c s' => ascii_eqb c r || ContainsRune s' r
  end.

(** [strings.ContainsAny] *)
Fixpoint ContainsAny (s chars : string) : bool :=
  match s with
  | EmptyString => false
  | String c s' => inCutset chars c || ContainsAny s' chars
  end.

(** [strings.FieldsFunc]: the maximal runs of characters that do not
    satisfy [f]; [cur] is the field being read. *)
Fixpoint fieldsAux (f : ascii -> bool) (s : string) (cur : string) : list string :=
  match s with
  | EmptyString =>
      match cur with EmptyString => [] | _ => [cur] end
  | String c s' =>
      if f c
      then match cur with
           | EmptyString => fieldsAux f s' EmptyString
           | _ => cur :: fieldsAux f s' EmptyString
           end
      else fieldsAux f s' (cur +:+ String c EmptyString)
  end.

Definition FieldsFunc (s : string) (f : ascii -> bool) : list string :=
  fieldsAux f s EmptyString.

(** [strings.Fields] *)
Definition Fields (s : string) : list string := FieldsFunc s isSpace.

(** [strings.Split] with a one-byte separator. *)
Fixpoint splitAux (sep : ascii) (s : string) (cur : string) : list string :=
  match s with
  | EmptyString => [cur]
  | String c s' =>
      if ascii_eqb c sep
      then cur :: splitAux sep s' EmptyString
      else splitAux sep s' (cur +:+ String c EmptyString)
  end.

Definition SplitByte (s : string) (sep : ascii) : list string :=
  splitAux sep s EmptyString.

(** [strings.Join] *)
Fixpoint Join (elems : list string) (sep : string) : string :=
  match elems with
  | [] => EmptyString
  | [e] => e
  | e :: rest => e +:+ sep +:+ Join rest sep
  end.

Definition isEmpty (s : string) : bool :=
  match s with EmptyString => true | _ => false end.

(** Membership in a list of strings, as used for the literal pattern
    tables and for the [map[string]struct{}] literals of the source. *)
Definition inList (s : string) (l : list string) : bool :=
  existsb (String.eqb s) l.

(** The loop [for _, p := range patterns { if strings.Contains(low, p) ... }]. *)
Definition containsAnyOf (low : string) (patterns : list string) : bool :=
  existsb (Contains low) patterns.

Definition hasAnyPrefix (low : string) (prefixes : list string) : bool :=
  existsb (HasPrefix low) prefixes.

End GoStrings.

(** A Go function that returns [(T, error)]. *)
Inductive result (A : Type) : Type :=
| Ok (a : A)
| Err (msg : string).
Arguments Ok {A} a.
Arguments Err {A} msg.

(** ** [internal/runtime] *)

Module Runtime.
Import GoStrings.

Definition highRiskPatterns : list string :=
  [ "rm -rf"; "mkfs"; "dd if="; "shutdown"; "reboot"; "userdel"; "chmod 777 /" ].

Definition HighRisk (command : string) : bool :=
  let low := ToLower (TrimSpace command) in
  containsAnyOf low highRiskPatterns.

Definition fence : string := "```".

Definition dropFirstFence (lines : list string) : list string :=
  match lines with
  | first :: rest => if HasPrefix (TrimSpace first) fence then rest else lines
  | [] => lines
  end.

Definition dropLastFence (lines : list string) : list string :=
  match List.rev lines with
  | last :: front => if String.eqb (TrimSpace last) fence then List.rev front else lines
  | [] => lines
  end.

Definition stripFence (trimmed : string) : string :=
  if HasPrefix trimmed fence
  then
    let lines := SplitByte trimmed LF in
    let lines := dropFirstFence lines in
    let lines := dropLastFence lines in
    TrimSpace (Join lines (String LF EmptyString))
  else trimmed.

Definition stripPrompt (trimmed : string) : string :=
  if HasPrefix trimmed "$ " then TrimSpace (TrimPrefix trimmed "$ ")
  else if HasPrefix trimmed "> " then TrimSpace (TrimPrefix trimmed "> ")
  else trimmed.

Definition NormalizeCommand (command : string) : result string :=
  let trimmed := TrimSpace command in
  if isEmpty trimmed then Err "command cannot be empty"
  else if ContainsRune trimmed NUL then Err "command contains invalid null byte"
  else
    let trimmed := stripFence trimmed in
    let trimmed := stripPrompt trimmed in
    if isEmpty trimmed then Err "command cannot be empty"
    else Ok trimmed.

End Runtime.

(** ** [cmd/ew]: the safety classifier *)

Module Classifier.
Import GoStrings.

Definition destructiveKeywords : list string :=
  [ "delete"; "remove"; "destroy"; "drop"; "purge"; "wipe"; "uninstall";
    "terminate"; "kill"; "prune" ].

Definition explicitPhrases : list string :=
  [ "hard reset"; "reset --hard"; "delete all"; "remove all";
    "clean branch completely" ].

Definition queryAllowsDestructive (query : string) : bool :=
  let low := ToLower (TrimSpace query) in
  containsAnyOf low destructiveKeywords || containsAnyOf low explicitPhrases.

Definition explicitHighRiskPhrases : list string :=
  [ "rm -rf"; "mkfs"; "dd if="; "format disk"; "wipe disk"; "destroy all data";
    "delete everything"; "factory reset"; "chmod 777 /" ].

Definition queryAllowsHighRisk (query : string) : bool :=
  let low := ToLower (TrimSpace query) in
  containsAnyOf low explicitHighRiskPhrases.

Definition destructivePatterns : list string :=
  [ "rm "; "rmdir "; "git clean "; "git reset --hard"; "git checkout --";
    "git worktree remove"; "dropdb "; "kubectl delete "; "terraform destroy";
    "docker system prune" ].

Definition isDestructiveCommand (command : string) : bool :=
  let low := ToLower (TrimSpace command) in
  containsAnyOf low destructivePatterns.

(** [containsAny(low, patterns...)] lower-cases each pattern first. *)
Definition containsAny (low : string) (patterns : list string) : bool :=
  existsb (fun pattern => Contains low (ToLower pattern)) patterns.

Definition mutatingVerbs : list string :=
  [ "set "; "change "; "update "; "write "; "append "; "add "; "create ";
    "edit "; "modify "; "remove "; "delete "; "install "; "enable ";
    "disable "; "export "; "replace "; "fix "; "run "; "execute "; "copy ";
    "move "; "rename "; "clone "; "download "; "upload " ].

Definition readOnlyPhrases : list string :=
  [ "path "; "path to"; "where is"; "where's"; "locate "; "show "; "list ";
    "print "; "display "; "what is"; "check "; "view "; "find " ].

Definition queryPrefersReadOnly (query : string) : bool :=
  let low := ToLower (TrimSpace query) in
  if isEmpty low then false
  else if containsAny low mutatingVerbs then false
  else containsAny low readOnlyPhrases.

(** The scanner of [hasWriteRedirection]: one step per byte, with the
    three flags of the loop as arguments. *)
Fixpoint scanRedirection (command : string) (inSingle inDouble escaped : bool) : bool :=
  match command with
  | EmptyString => false
  | String ch rest =>
      if escaped then scanRedirection rest inSingle inDouble false
      else if ascii_eqb ch BACKSLASH && negb inSingle
           then scanRedirection rest inSingle inDouble true
      else if ascii_eqb ch SQUOTE && negb inDouble
           then scanRedirection rest (negb inSingle) inDouble false
      else if ascii_eqb ch DQUOTE && negb inSingle
           then scanRedirection rest inSingle (negb inDouble) false
      else if inSingle || inDouble
           then scanRedirection rest inSingle inDouble false
      else if negb (ascii_eqb ch ">")
           then scanRedirection rest inSingle inDouble false
      else
        let next := match rest with String n _ => n | EmptyString => NUL end in
        (* fd duplication like 2>&1 is not file mutation. *)
        if ascii_eqb next "&"
        then scanRedirection rest inSingle inDouble false
        else true
  end.

Definition hasWriteRedirection (command : string) : bool :=
  scanRedirection command false false false.

Definition mutatingPatterns : list string :=
  [ "sed -i"; "perl -i"; "truncate "; "rm "; "rmdir "; "mv "; "cp "; "touch ";
    "chmod "; "chown "; "mkdir "; "ln -s "; "ln "; "source "; "export ";
    "alias "; "unalias "; "cd "; "pushd "; "popd "; "git commit"; "git push";
    "git reset"; "git checkout -b"; "git branch -d"; "git branch -D" ].

Definition isMutatingCommand (command : string) : bool :=
  let low := ToLower (TrimSpace command) in
  if isEmpty low then false
  else if HasPrefix low ". " then true
  else if Contains low ">>" || Contains low ">|" || Contains low " > "
          || hasWriteRedirection low then true
  else if HasPrefix low "tee " || Contains low "| tee " || Contains low " tee -a "
       then true
  else containsAnyOf low mutatingPatterns.

Definition commandAllowedForQuery (query command : string) : bool :=
  let trimmed := TrimSpace command in
  if isEmpty trimmed then false
  else if queryPrefersReadOnly query && isMutatingCommand trimmed then false
  else
    let allowDestructive := queryAllowsDestructive query in
    let allowHighRisk := queryAllowsHighRisk query in
    if Runtime.HighRisk trimmed && negb allowHighRisk then false
    else if isDestructiveCommand trimmed && negb allowDestructive then false
    else true.

End Classifier.

(** ** Go's [regexp] package, for the patterns of the source

    Go's regexp chooses, among the matches that begin leftmost, the one a
    backtracking search finds first.  The matcher below is that backtracking
    search, in continuation-passing style.  The repetition operators of the
    source patterns are only ever applied to a character class, so [Star]
    takes a class. *)

Module Regexp.
Import GoStrings.

Inductive re : Type :=
| Eps                              (* the empty pattern *)
| Chr (p : ascii -> bool)          (* one byte of a class *)
| Cat (r1 r2 : re)                 (* r1 r2 *)
| Alt (r1 r2 : re)                 (* r1|r2, r1 preferred *)
| Star (p : ascii -> bool)         (* [class]*, greedy *)
| Group (n : nat) (r : re)         (* capturing group number n *)
| WordBoundary                     (* \b *)
| BeginText                        (* ^ *)
| EndText.                         (* $ *)

(** A position of the matcher: the byte before it, the number of bytes
    consumed since the start of the match, the remaining input and the
    text of the groups closed so far (latest first). *)
Record state : Type := mkState {
  prev : option ascii;
  consumed : nat;
  rest : string;
  caps : list (nat * string)
}.

(** [\w] of RE2: ASCII letters, digits and underscore. *)
Definition isWordByte (c : ascii) : bool :=
  isLetter c || isDigit c || ascii_eqb c "_".

Definition isWordOpt (o : option ascii) : bool :=
  match o with Some c => isWordByte c | None => false end.

Definition peek (s : string) : option ascii :=
  match s with String c _ => Some c | EmptyString => None end.

Fixpoint star {A : Type} (p : ascii -> bool) (k : state -> option A)
    (pv : option ascii) (n : nat) (cs : list (nat * string)) (s : string) : option A :=
  match s with
  | String c s' =>
      if p c
      then match star p k (Some c) (S n) cs s' with
           | Some x => Some x
           | None => k (mkState pv n s cs)
           end
      else k (mkState pv n s cs)
  | EmptyString => k (mkState pv n s cs)
  end.

Fixpoint run {A : Type} (r : re) (k : state -> option A) (st : state) : option A :=
  match r with
  | Eps => k st
  | Chr p =>
      match rest st with
      | String c s' =>
          if p c then k (mkState (Some c) (S (consumed st)) s' (caps st)) else None
      | EmptyString => None
      end
  | Cat r1 r2 => run r1 (fun st' => run r2 k st') st
  | Alt r1 r2 =>
      match run r1 k st with
      | Some x => Some x
      | None => run r2 k st
      end
  | Star p => star p k (prev st) (consumed st) (caps st) (rest st)
  | Group n r1 =>
      run r1 (fun st' =>
        let text := String.substring 0 (consumed st' - consumed st) (rest st) in
        k (mkState (prev st') (consumed st') (rest st') ((n, text) :: caps st'))) st
  | WordBoundary =>
      if xorb (isWordOpt (prev st)) (isWordOpt (peek (rest st))) then k st else None
  | BeginText =>
      match prev st with None => k st | Some _ => None end
  | EndText =>
      if isEmpty (rest st) then k st else None
  end.

(** A match anchored at the current position: the final state of the first
    successful path. *)
Definition matchHere (r : re) (pv : option ascii) (s : string) : option state :=
  run r Some (mkState pv 0 s []).

(** The input cut into unmatched bytes and successive non-overlapping
    matches, as [FindAll] and [ReplaceAll] visit it.  [skip] counts the bytes
    left in the match being passed over; [afterMatch] says that a match ended
    at the current position (an empty match is not accepted there). *)
Inductive piece : Type :=
| Unmatched (c : ascii)
| Matched (text : string) (final : state).

Fixpoint scan (r : re) (pv : option ascii) (s : string) (skip : nat) (afterMatch : bool)
    : list piece :=
  match skip with
  | S skip' =>
      match s with
      | String c s' => scan r (Some c) s' skip' true
      | EmptyString => []
      end
  | O =>
      match matchHere r pv s with
      | Some st =>
          match consumed st with
          | O =>
              (if afterMatch then [] else [Matched EmptyString st]) ++
              match s with
              | String c s' => Unmatched c :: scan r (Some c) s' 0 false
              | EmptyString => []
              end
          | S w' =>
              Matched (String.substring 0 (S w') s) st ::
              match s with
              | String c s' => scan r (Some c) s' w' true
              | EmptyString => []
              end
          end
      | None =>
          match s with
          | String c s' => Unmatched c :: scan r (Some c) s' 0 false
          | EmptyString => []
          end
      end
  end.

Definition allPieces (r : re) (src : string) : list piece := scan r None src 0 false.

(** [Regexp.FindAllString(s, -1)] *)
Definition FindAllString (r : re) (src : string) : list string :=
  flat_map (fun p => match p with Matched text _ => [text] | Unmatched _ => [] end)
           (allPieces r src).

(** A replacement template, already cut at its [$n] references. *)
Inductive titem : Type :=
| TLit (s : string)
| TGroup (n : nat).

Fixpoint lookupCap (n : nat) (cs : list (nat * string)) : string :=
  match cs with
  | [] => EmptyString
  | (i, text) :: cs' => if Nat.eqb i n then text else lookupCap n cs'
  end.

Fixpoint expand (template : list titem) (cs : list (nat * string)) : string :=
  match template with
  | [] => EmptyString
  | TLit s :: t => s +:+ expand t cs
  | TGroup n :: t => lookupCap n cs +:+ expand t cs
  end.

Fixpoint render (template : list titem) (ps : list piece) : string :=
  match ps with
  | [] => EmptyString
  | Unmatched c :: ps' => String c (render template ps')
  | Matched _ st :: ps' => expand template (caps st) +:+ render template ps'
  end.

(** [Regexp.ReplaceAllString(src, repl)] *)
Definition ReplaceAllString (r : re) (src : string) (template : list titem) : string :=
  render template (allPieces r src).

(** Notation helpers for writing the source patterns. *)
Fixpoint seq (rs : list re) : re :=
  match rs with
  | [] => Eps
  | [r] => r
  | r :: rs' => Cat r (seq rs')
  end.

Fixpoint alts (rs : list re) : re :=
  match rs with
  | [] => Chr (fun _ => false)
  | [r] => r
  | r :: rs' => Alt r (alts rs')
  end.

(** A literal byte, and a literal byte under the flag [(?i)]. *)
Definition byte (c : ascii) : re := Chr (fun x => ascii_eqb x c).
Definition byteFold (c : ascii) : re := Chr (fun x => ascii_eqb (toLowerByte x) (toLowerByte c)).

Fixpoint lit (s : string) : re :=
  match s with
  | EmptyString => Eps
  | String c EmptyString => byte c
  | String c s' => Cat (byte c) (lit s')
  end.

Fixpoint litFold (s : string) : re :=
  match s with
  | EmptyString => Eps
  | String c EmptyString => byteFold c
  | String c s' => Cat (byteFold c) (litFold s')
  end.

Definition plus (p : ascii -> bool) : re := Cat (Chr p) (Star p).
Definition opt (r : re) : re := Alt r Eps.

(** [\s] of RE2: tab, line feed, form feed, carriage return, space. *)
Definition reSpace (c : ascii) : bool :=
  ascii_eqb c HT || ascii_eqb c LF || ascii_eqb c FF || ascii_eqb c CR || ascii_eqb c SP.

(** [\d] *)
Definition reDigit (c : ascii) : bool := isDigit c.

End Regexp.

(** ** [internal/safety]: the redactor *)

Module Safety.
Import GoStrings Regexp.

Record redactionRule : Type := mkRule {
  pattern : re;
  replacement : list titem
}.

(** [[a-z0-9_]] under [(?i)] *)
Definition keyByte (c : ascii) : bool := isWordByte c.

(** [[a-z0-9_-]] under [(?i)] *)
Definition flagByte (c : ascii) : bool := isWordByte c || ascii_eqb c "-".

(** [[_-]] *)
Definition joinByte (c : ascii) : bool := ascii_eqb c "_" || ascii_eqb c "-".

(** [(?:token|secret|password|passwd|api[_-]?key|access[_-]?key)] *)
Definition sensitiveWord : re :=
  alts [ litFold "token"; litFold "secret"; litFold "password"; litFold "passwd";
         seq [litFold "api"; opt (Chr joinByte); litFold "key"];
         seq [litFold "access"; opt (Chr joinByte); litFold "key"] ].

(** [(?:token|secret|password|passwd|api[_-]?key|access[_-]?key|authorization)] *)
Definition sensitiveFlagWord : re :=
  alts [ litFold "token"; litFold "secret"; litFold "password"; litFold "passwd";
         seq [litFold "api"; opt (Chr joinByte); litFold "key"];
         seq [litFold "access"; opt (Chr joinByte); litFold "key"];
         litFold "authorization" ].

(** [[^\s'Q]], where Q stands for the double quote character *)
Definition bareByte (c : ascii) : bool :=
  negb (reSpace c || ascii_eqb c DQUOTE || ascii_eqb c SQUOTE).

(** VALUE = [[^\s'Q]+|Q[^Q]*Q|'[^']*'], where Q is the double quote *)
Definition secretValue : re :=
  alts [ plus bareByte;
         seq [byte DQUOTE; Star (fun c => negb (ascii_eqb c DQUOTE)); byte DQUOTE];
         seq [byte SQUOTE; Star (fun c => negb (ascii_eqb c SQUOTE)); byte SQUOTE] ].

Definition redacted : string := "<redacted>".

(** [(-(?:p|k|t|s))] without its group *)
Definition shortFlag : re :=
  seq [byte "-"; alts [byteFold "p"; byteFold "k"; byteFold "t"; byteFold "s"]].

(** (?i)\b(KEY)\s*=\s*(VALUE) with KEY = [a-z0-9_]*(?:...)[a-z0-9_]*  ->  $1=<redacted> *)
Definition assignmentRule : redactionRule :=
  mkRule
    (seq [WordBoundary;
          Group 1 (seq [Star keyByte; sensitiveWord; Star keyByte]);
          Star reSpace; byte "="; Star reSpace;
          Group 2 secretValue])
    [TGroup 1; TLit "="; TLit redacted].

(** (?i)\b(KEY)\s*:\s*(VALUE) with KEY = [a-z0-9_]*(?:...)[a-z0-9_]*  ->  $1=<redacted> *)
Definition colonRule : redactionRule :=
  mkRule
    (seq [WordBoundary;
          Group 1 (seq [Star keyByte; sensitiveWord; Star keyByte]);
          Star reSpace; byte ":"; Star reSpace;
          Group 2 secretValue])
    [TGroup 1; TLit "="; TLit redacted].

(** (?i)\b(authorization\s*:\s*bearer)\s+([^\s'Q]+)  ->  $1 <redacted> *)
Definition bearerRule : redactionRule :=
  mkRule
    (seq [WordBoundary;
          Group 1 (seq [litFold "authorization"; Star reSpace; byte ":"; Star reSpace;
                        litFold "bearer"]);
          plus reSpace;
          Group 2 (plus bareByte)])
    [TGroup 1; TLit " "; TLit redacted].

(** (?i)\b(KEY)\b\s+(VALUE) with KEY = [a-z0-9_-]*(?:...)[a-z0-9_-]*  ->  $1 <redacted> *)
Definition positionalRule : redactionRule :=
  mkRule
    (seq [WordBoundary;
          Group 1 (seq [Star flagByte; sensitiveWord; Star flagByte]);
          WordBoundary; plus reSpace;
          Group 2 secretValue])
    [TGroup 1; TLit " "; TLit redacted].

(** (?i)(FLAG)\s*=\s*(VALUE) with FLAG = --[a-z0-9_-]*(?:...|authorization)[a-z0-9_-]*
    ->  $1=<redacted> *)
Definition longFlagAssignmentRule : redactionRule :=
  mkRule
    (seq [Group 1 (seq [lit "--"; Star flagByte; sensitiveFlagWord; Star flagByte]);
          Star reSpace; byte "="; Star reSpace;
          Group 2 secretValue])
    [TGroup 1; TLit "="; TLit redacted].

(** (?i)(FLAG)\s+(VALUE) with FLAG = --[a-z0-9_-]*(?:...|authorization)[a-z0-9_-]*
    ->  $1 <redacted> *)
Definition longFlagRule : redactionRule :=
  mkRule
    (seq [Group 1 (seq [lit "--"; Star flagByte; sensitiveFlagWord; Star flagByte]);
          plus reSpace;
          Group 2 secretValue])
    [TGroup 1; TLit " "; TLit redacted].

(** (?i)(^|\s)(-(?:p|k|t|s))\s*=\s*(VALUE)  ->  $1$2=<redacted> *)
Definition shortFlagAssignmentRule : redactionRule :=
  mkRule
    (seq [Group 1 (Alt BeginText (Chr reSpace));
          Group 2 shortFlag;
          Star reSpace; byte "="; Star reSpace;
          Group 3 secretValue])
    [TGroup 1; TGroup 2; TLit "="; TLit redacted].

(** (?i)(^|\s)(-(?:p|k|t|s))\s+(VALUE)  ->  $1$2 <redacted> *)
Definition shortFlagRule : redactionRule :=
  mkRule
    (seq [Group 1 (Alt BeginText (Chr reSpace));
          Group 2 shortFlag;
          plus reSpace;
          Group 3 secretValue])
    [TGroup 1; TGroup 2; TLit " "; TLit redacted].

Definition secretRedactionRules : list redactionRule :=
  [ assignmentRule; colonRule; bearerRule; positionalRule;
    longFlagAssignmentRule; longFlagRule; shortFlagAssignmentRule; shortFlagRule ].

Definition applyRule (redacted : string) (rule : redactionRule) : string :=
  ReplaceAllString (pattern rule) redacted (replacement rule).

(** [RedactText] scrubs common secret/token/password patterns from
    free-form text. *)
Definition RedactText (input : string) : string :=
  fold_left applyRule secretRedactionRules input.

End Safety.

(** ** Go's [sort] package *)

Module GoSort.

Fixpoint insertBy {A : Type} (less : A -> A -> bool) (x : A) (l : list A) : list A :=
  match l with
  | [] => [x]
  | y :: l' => if less x y then x :: l else y :: insertBy less x l'
  end.

(** [sort.Slice(s, less)] *)
Definition Slice {A : Type} (less : A -> A -> bool) (s : list A) : list A :=
  fold_right (insertBy less) [] s.

(** [sort.Strings]: byte-wise lexicographic order. *)
Definition Strings (s : list string) : list string := Slice String.ltb s.

End GoSort.

(** Comparisons of [float64] values. *)
Definition Qltb (a b : Q) : bool := negb (Qle_bool b a).
Definition Qgtb (a b : Q) : bool := Qltb b a.
Definition Qleb (a b : Q) : bool := Qle_bool a b.

(** ** [cmd/ew]: compatibility of a query with a remembered query *)

Module MemoryCompat.
Import GoStrings.

(** The loop [for strings.HasSuffix(normalized, `\`) { ... }]; every round
    removes at least one byte, so [String.length] rounds are enough. *)
Fixpoint stripContinuations (fuel : nat) (normalized : string) : string :=
  match fuel with
  | O => normalized
  | S fuel' =>
      if HasSuffix normalized (String BACKSLASH EmptyString)
      then stripContinuations fuel'
             (TrimSpace (TrimSuffix normalized (String BACKSLASH EmptyString)))
      else normalized
  end.

Definition normalizeComparableCommand (command : string) : string :=
  let normalized := TrimSpace (ToLower command) in
  stripContinuations (String.length normalized) normalized.

(** [reDigits = regexp.MustCompile(`\d+`)] *)
Definition reDigits : Regexp.re := Regexp.plus Regexp.reDigit.

Definition numericStep (acc : list string * gset string) (token : string)
    : list string * gset string :=
  let token := TrimSpace token in
  if isEmpty token then acc
  else if bool_decide (token ∈ acc.2) then acc
  else (acc.1 ++ [token], {[token]} ∪ acc.2).

Definition memoryNumericTokens (input : string) : list string :=
  let matches := Regexp.FindAllString reDigits (ToLower (TrimSpace input)) in
  match matches with
  | [] => []
  | _ => GoSort.Strings (fold_left numericStep matches ([], ∅)).1
  end.

Definition sameStringSet (a b : list string) : bool :=
  if negb (Nat.eqb (length a) (length b)) then false
  else if Nat.eqb (length a) 0 then true
  else
    let set : gset string := list_to_set a in
    forallb (fun item => bool_decide (item ∈ set)) b.

Definition stopwords : list string :=
  [ "the"; "for"; "and"; "with"; "from"; "into"; "onto"; "that"; "this";
    "you"; "your"; "can"; "could"; "how"; "what"; "when"; "where"; "why";
    "are"; "is"; "to"; "me"; "my"; "find"; "search"; "show"; "list";
    "please"; "help"; "command"; "commands"; "run"; "execute"; "file"; "files";
    "path"; "paths"; "location"; "locate"; "installed"; "install"; "current";
    "global"; "local"; "all" ].

Definition isSeparator (r : ascii) : bool :=
  ascii_eqb r " " || ascii_eqb r HT || ascii_eqb r LF || ascii_eqb r "-"
  || ascii_eqb r "_" || ascii_eqb r ":" || ascii_eqb r "/".

(** The cutset of [strings.Trim]: a double quote followed by ['.,!?;:()[]{}<>]. *)
Definition punctuation : string := String DQUOTE "'.,!?;:()[]{}<>".

Definition signalStep (acc : list string * gset string) (part : string)
    : list string * gset string :=
  let token := Trim (TrimSpace part) punctuation in
  if String.length token <? 2 then acc
  else if inList token stopwords then acc
  else if bool_decide (token ∈ acc.2) then acc
  else (acc.1 ++ [token], {[token]} ∪ acc.2).

Definition memorySignalTokens (input : string) : list string :=
  let parts := FieldsFunc (ToLower (TrimSpace input)) isSeparator in
  (fold_left signalStep parts ([], ∅)).1.

Definition countShared (queryTokens storedTokens : list string) : nat :=
  let storedSet : gset string := list_to_set storedTokens in
  length (List.filter (fun token => bool_decide (token ∈ storedSet)) queryTokens).

Definition memoryQueryCompatible (query storedQuery : string) : bool :=
  let nq := normalizeComparableCommand query in
  let ns := normalizeComparableCommand storedQuery in
  if isEmpty nq || isEmpty ns then false
  else if String.eqb nq ns then true
  else
    let queryNums := memoryNumericTokens query in
    let storedNums := memoryNumericTokens storedQuery in
    if ((0 <? length queryNums) || (0 <? length storedNums))
       && negb (sameStringSet queryNums storedNums)
    then false
    else
      let queryTokens := memorySignalTokens query in
      let storedTokens := memorySignalTokens storedQuery in
      if Nat.eqb (length queryTokens) 0 || Nat.eqb (length storedTokens) 0 then false
      else
        let shared := countShared queryTokens storedTokens in
        if Nat.eqb shared 0 then false
        else if 2 <=? shared then true
        else if Nat.eqb (length queryTokens) 1 && Nat.eqb (length storedTokens) 1
                && Nat.eqb shared 1 then true
        else Contains ns nq || Contains nq ns.

End MemoryCompat.

(** ** [internal/config], [internal/router], [internal/provider]: the types
    the policy code reads *)

Module Config.

Record IntentConfig : Type := { MinConfidence : Q }.

Record SafetyConfig : Type := {
  BlockHighRisk : bool;
  AllowYoloHighRisk : bool
}.

Record AIConfig : Type := {
  AIMinConfidence : Q;
  AllowSuggestExecution : bool
}.

Record Config : Type := {
  Fix : IntentConfig;
  Find : IntentConfig;
  Safety : SafetyConfig;
  AI : AIConfig
}.

(** [config.Default()], for the fields above. *)
Definition Default : Config :=
  {| Fix := {| MinConfidence := 0.70 |};
     Find := {| MinConfidence := 0.60 |};
     Safety := {| BlockHighRisk := true; AllowYoloHighRisk := false |};
     AI := {| AIMinConfidence := 0.60; AllowSuggestExecution := false |} |}.

End Config.

Module Router.

(** [type Intent string] *)
Definition Intent : Type := string.
Definition IntentFix : Intent := "fix".
Definition IntentFind : Intent := "find".
Definition IntentRun : Intent := "run".
Definition IntentConfigShow : Intent := "config_show".
Definition IntentConfigSet : Intent := "config_set".
Definition IntentDiagnose : Intent := "diagnose".
Definition IntentSetupHooks : Intent := "setup_hooks".

End Router.

Module Provider.

Record Resolution : Type := {
  Action : string;
  Command : string;
  Reason : string;
  Risk : string;
  Confidence : Q;
  NeedsConfirmation : bool
}.

End Provider.

(** ** [cmd/ew]: the policy engine and the risk policy of the driver *)

Module Policy.
Import GoStrings Config Provider.

Record aiExecutionDecision : Type := {
  Allowed : bool;
  DecisionCommand : string;
  DecisionReason : string;
  RiskHint : string;
  ModeOverride : string;
  Message : string
}.

Definition normalizeRiskHint (risk : string) : string :=
  let r := ToLower (TrimSpace risk) in
  if String.eqb r "high" then "high"
  else if String.eqb r "medium" then "medium"
  else "low".

Definition applyExecutionRiskPolicy (cfg : Config) (mode command riskHint : string)
    : string * string :=
  let effectiveMode := ToLower (TrimSpace mode) in
  let effectiveMode := if isEmpty effectiveMode then "confirm" else effectiveMode in
  let risk := normalizeRiskHint riskHint in
  let isHighRiskCommand := Runtime.HighRisk command in
  let isDestructive := Classifier.isDestructiveCommand command in
  let risk :=
    if (isHighRiskCommand || isDestructive) && BlockHighRisk (Safety cfg) then "high"
    else if (isHighRiskCommand || isDestructive) && String.eqb risk "low" then "medium"
    else if Classifier.isMutatingCommand command && String.eqb risk "low" then "medium"
    else risk in
  let effectiveMode :=
    if String.eqb effectiveMode "yolo"
       && negb (AllowYoloHighRisk (Safety cfg))
       && (String.eqb risk "high"
           || (BlockHighRisk (Safety cfg) && (isHighRiskCommand || isDestructive)))
    then "confirm"
    else effectiveMode in
  (effectiveMode, risk).

(** The first lines of [evaluateAIResolution]: the action, lower-cased and
    trimmed, with anything but [run], [suggest] and [ask] turned into [ask]. *)
Definition normalizeAction (raw : string) : string :=
  let action := ToLower (TrimSpace raw) in
  let action :=
    if String.eqb action "run" || String.eqb action "suggest" || String.eqb action "ask"
    then action else "ask" in
  if isEmpty action then "ask" else action.

Definition validThreshold (v : Q) : bool := Qgtb v 0 && Qleb v 1.

Definition confidenceThresholdForIntent (cfg : Config) (intent : Router.Intent) : Q :=
  if String.eqb intent Router.IntentFix && validThreshold (MinConfidence (Fix cfg))
  then MinConfidence (Fix cfg)
  else if (String.eqb intent Router.IntentFind || String.eqb intent Router.IntentRun)
          && validThreshold (MinConfidence (Find cfg))
  then MinConfidence (Find cfg)
  else if validThreshold (AIMinConfidence (AI cfg)) then AIMinConfidence (AI cfg)
  else 0.60.

Definition clampConfidence (v : Q) : Q :=
  if Qltb v 0 then 0
  else if Qgtb v 1 then 1
  else v.

Definition reject (message : string) : aiExecutionDecision :=
  {| Allowed := false; DecisionCommand := EmptyString; DecisionReason := EmptyString;
     RiskHint := EmptyString; ModeOverride := EmptyString; Message := message |}.

Definition rejectWith (command message : string) : aiExecutionDecision :=
  {| Allowed := false; DecisionCommand := command; DecisionReason := EmptyString;
     RiskHint := EmptyString; ModeOverride := EmptyString; Message := message |}.

Section Evaluate.

(** [fmt.Sprintf] with the verb [%.2f]. *)
Variable formatFloat2 : Q -> string.

Definition belowThresholdMessage (confidence minConfidence : Q) : string :=
  "provider confidence " +:+ formatFloat2 confidence +:+
  " is below threshold " +:+ formatFloat2 minConfidence.

Definition evaluateAIResolution (intent : Router.Intent) (cfg : Config)
    (resolution : Resolution) : aiExecutionDecision :=
  let action := normalizeAction (Action resolution) in
  let command := TrimSpace (Command resolution) in
  if String.eqb action "ask" then
    if isEmpty command then
      reject "provider requested confirmation/manual action and did not provide a runnable command"
    else
      match Runtime.NormalizeCommand command with
      | Err err => reject ("provider returned invalid command: " +:+ err)
      | Ok normalized =>
          rejectWith normalized
            "provider requested confirmation instead of an auto-runnable action"
      end
  else if isEmpty command then
    reject "provider did not return a runnable command"
  else
    match Runtime.NormalizeCommand command with
    | Err err => reject ("provider returned invalid command: " +:+ err)
    | Ok normalized =>
        let confidence := clampConfidence (Confidence resolution) in
        let minConfidence := confidenceThresholdForIntent cfg intent in
        if Qltb confidence minConfidence then
          rejectWith normalized (belowThresholdMessage confidence minConfidence)
        else if String.eqb action "suggest" && negb (AllowSuggestExecution (AI cfg)) then
          rejectWith normalized
            "provider returned suggest action and policy blocks suggest execution"
        else
          let reason := TrimSpace (Reason resolution) in
          let reason := if isEmpty reason then "provider suggestion" else reason in
          {| Allowed := true;
             DecisionCommand := normalized;
             DecisionReason := reason;
             RiskHint := normalizeRiskHint (Risk resolution);
             ModeOverride := if NeedsConfirmation resolution then "confirm" else EmptyString;
             Message := EmptyString |}
    end.

End Evaluate.

End Policy.

(** ** [internal/memory] *)

Module Memory.
Import GoStrings.

Record Entry : Type := mkEntry {
  Query : string;
  Command : string;
  Score : Q;
  Uses : Z;
  Successes : Z;
  Failures : Z;
  UpdatedAt : string;
  LastUsedAt : string
}.

Record Store : Type := mkStore { Entries : list Entry }.

Record Match : Type := mkMatch {
  MatchQuery : string;
  MatchCommand : string;
  MatchScore : Q;
  MatchUses : Z;
  Exact : bool
}.

(** [strings.ReplaceAll(s, old, new)] for a non-empty [old]; [skip] counts
    the bytes of the occurrence being passed over. *)
Fixpoint replaceAllFrom (s old new : string) (skip : nat) : string :=
  match s with
  | EmptyString => EmptyString
  | String c s' =>
      match skip with
      | S skip' => replaceAllFrom s' old new skip'
      | O =>
          if HasPrefix s old
          then new +:+ replaceAllFrom s' old new (String.length old - 1)
          else String c (replaceAllFrom s' old new 0)
      end
  end.

Definition ReplaceAll (s old new : string) : string := replaceAllFrom s old new 0.

(** The loop [for strings.Contains(trimmed, "  ") { ... }]; every round
    removes at least one byte. *)
Fixpoint collapseSpaces (fuel : nat) (trimmed : string) : string :=
  match fuel with
  | O => trimmed
  | S fuel' =>
      if Contains trimmed "  "
      then collapseSpaces fuel' (ReplaceAll trimmed "  " " ")
      else trimmed
  end.

Definition normalize (input : string) : string :=
  let trimmed := ToLower (TrimSpace input) in
  collapseSpaces (String.length trimmed) trimmed.

Definition entryKey (entry : Entry) : string :=
  normalize (Query entry) +:+ "|" +:+ normalize (Command entry).

Definition withScore (entry : Entry) (score : Q) : Entry :=
  mkEntry (Query entry) (Command entry) score (Uses entry) (Successes entry)
          (Failures entry) (UpdatedAt entry) (LastUsedAt entry).

Definition trimEntry (entry : Entry) : Entry :=
  mkEntry (TrimSpace (Query entry)) (TrimSpace (Command entry)) (Score entry)
          (Uses entry) (Successes entry) (Failures entry) (UpdatedAt entry)
          (LastUsedAt entry).

(** One round of the loop of [Store.normalize]. *)
Definition normalizeStep (acc : list Entry * gset string) (entry : Entry)
    : list Entry * gset string :=
  let entry := trimEntry entry in
  if isEmpty (Query entry) || isEmpty (Command entry) then acc
  else
    let entry := if Qltb (Score entry) 0 then withScore entry 0%Q else entry in
    let key := entryKey entry in
    if bool_decide (key ∈ acc.2) then acc
    else (acc.1 ++ [entry], {[key]} ∪ acc.2).

(** The [less] function of [Store.normalize]. *)
Definition entryLess (a b : Entry) : bool :=
  if Qeq_bool (Score a) (Score b)
  then String.ltb (UpdatedAt b) (UpdatedAt a)
  else Qgtb (Score a) (Score b).

Definition normalizeStore (s : Store) : Store :=
  let entries := (fold_left normalizeStep (Entries s) ([], ∅)).1 in
  mkStore (GoSort.Slice entryLess entries).

Definition clampScore (score : Q) : Q :=
  if Qltb score 0 then 0%Q
  else if Qgtb score 100 then 100%Q
  else score.

Fixpoint entryIndexFrom (entries : list Entry) (qn cn : string) (idx : nat) : option nat :=
  match entries with
  | [] => None
  | entry :: rest =>
      if String.eqb (normalize (Query entry)) qn && String.eqb (normalize (Command entry)) cn
      then Some idx
      else entryIndexFrom rest qn cn (S idx)
  end.

(** [Store.entryIndex]; [None] stands for the index -1. *)
Definition entryIndex (s : Store) (query command : string) : option nat :=
  entryIndexFrom (Entries s) (normalize query) (normalize command) 0.

Definition removeAt (s : Store) (index : nat) : Store :=
  if length (Entries s) <=? index then s
  else mkStore (firstn index (Entries s) ++ skipn (S index) (Entries s)).

Section Adjust.

(** [time.Now().UTC().Format(time.RFC3339)] *)
Variable now : string.

Definition adjust (s : Store) (query command : string) (delta : Q) (success failure : bool)
    : result Store :=
  let query := TrimSpace query in
  let command := TrimSpace command in
  if isEmpty query || isEmpty command then Err "query and command are required"
  else
    match entryIndex s query command with
    | None =>
        let entry :=
          mkEntry query command (clampScore (12 + delta)%Q) 1%Z
                  (if success then 1 else 0)%Z
                  (if failure then 1 else 0)%Z
                  now
                  (if success then now else EmptyString) in
        Ok (normalizeStore (mkStore (Entries s ++ [entry])))
    | Some idx =>
        match nth_error (Entries s) idx with
        | None => Ok s
        | Some old =>
            let entry :=
              mkEntry (Query old) (Command old) (clampScore (Score old + delta)%Q)
                      (Uses old + 1)%Z
                      (if success then Successes old + 1 else Successes old)%Z
                      (if failure then Failures old + 1 else Failures old)%Z
                      now
                      (if success then now else LastUsedAt old) in
            if Qleb (Score entry) 0
            then Ok (normalizeStore (removeAt s idx))
            else Ok (normalizeStore (mkStore (<[idx := entry]> (Entries s))))
        end
    end.

Definition Remember (s : Store) (query command : string) : result Store :=
  adjust s query command 24 true false.




End Adjust.

(** [Store.ForgetQuery]: the store afterwards and the number removed. *)
Definition ForgetQuery (s : Store) (query : string) : Store * nat :=
  let query := normalize query in
  if isEmpty query then (s, 0)
  else
    let kept := List.filter (fun entry => negb (String.eqb (normalize (Query entry)) query))
                            (Entries s) in
    let removed := length (Entries s) - length kept in
    (normalizeStore (mkStore kept), removed).



Definition tokenStep (acc : list string * gset string) (part : string)
    : list string * gset string :=
  let token := TrimSpace part in
  if String.length token <? 2 then acc
  else if bool_decide (token ∈ acc.2) then acc
  else (acc.1 ++ [token], {[token]} ∪ acc.2).

Definition splitTokens (input : string) : list string :=
  let parts := FieldsFunc input MemoryCompat.isSeparator in
  (fold_left tokenStep parts ([], ∅)).1.



Section Search.

(** [time.Parse(time.RFC3339, s)]: the instant in nanoseconds, or an error. *)
Variable parseRFC3339 : string -> option Z.
(** [time.Now()] in nanoseconds. *)
Variable nowNanos : Z.






End Search.

End Memory.

(** ** [internal/history] *)

Module History.
Import GoStrings.

Record Entry : Type := mkEntry {
  Command : string;
  Timestamp : Z;      (* time.Time, as an instant in nanoseconds *)
  Source : string;
  order : Z;
  approxTS : bool
}.

(** [promptClockSuffix = regexp.MustCompile(`\s{2,}\d{1,2}:\d{2}$`)] *)
Definition promptClockSuffix : Regexp.re :=
  Regexp.seq [ Regexp.Chr Regexp.reSpace; Regexp.plus Regexp.reSpace;
               Regexp.Chr Regexp.reDigit; Regexp.opt (Regexp.Chr Regexp.reDigit);
               Regexp.byte ":";
               Regexp.Chr Regexp.reDigit; Regexp.Chr Regexp.reDigit;
               Regexp.EndText ].

Definition backslash : string := String BACKSLASH EmptyString.

(** The loop [for strings.HasSuffix(cmd, `\`) { ... }]; every round removes
    at least one byte. *)
Fixpoint stripContinuations (fuel : nat) (cmd : string) : string :=
  match fuel with
  | O => cmd
  | S fuel' =>
      if HasSuffix cmd backslash
      then stripContinuations fuel' (TrimSpace (TrimSuffix cmd backslash))
      else cmd
  end.

Definition normalizeHistoryCommand (command : string) : string :=
  let cmd := TrimSpace command in
  if isEmpty cmd then EmptyString
  else
    let cmd := stripContinuations (String.length cmd) cmd in
    TrimSpace (Regexp.ReplaceAllString promptClockSuffix cmd []).

Definition sensitivePatterns : list string :=
  [ "export aws_session_token="; "export aws_secret_access_key=";
    "export aws_access_key_id="; "aws_session_token="; "aws_secret_access_key=";
    "aws_access_key_id="; "password="; "passwd"; "token="; "secret=";
    "private_key"; "authorization: bearer" ].

Definition isSensitiveCommand (command : string) : bool :=
  let low := ToLower (TrimSpace command) in
  containsAnyOf low sensitivePatterns.

(** [unicode.IsLetter(r) || unicode.IsDigit(r)] and the four extra starters,
    for an ASCII rune. *)
Definition isLikelyCommandStarter (r : ascii) : bool :=
  isLetter r || isDigit r || ascii_eqb r "." || ascii_eqb r "/" || ascii_eqb r "_"
  || ascii_eqb r "~".

Fixpoint leadingDigits (s : string) : nat :=
  match s with
  | String c s' => if isDigit c then S (leadingDigits s') else 0
  | EmptyString => 0
  end.

Definition isEnumeratedOutputLine (low : string) : bool :=
  let trimmed := TrimSpace low in
  if isEmpty trimmed then false
  else
    let idx := leadingDigits trimmed in
    if Nat.eqb idx 0 || (String.length trimmed <=? idx + 1) then false
    else
      match String.get idx trimmed, String.get (idx + 1) trimmed with
      | Some c, Some d =>
          if ascii_eqb c "." || ascii_eqb c ")" then ascii_eqb d " " else false
      | _, _ => false
      end.

Definition isLikelyToolName (token : string) : bool :=
  inList token [ "npm"; "pnpm"; "yarn"; "pip"; "poetry"; "go"; "cargo"; "aws";
                 "terraform"; "docker"; "kubectl" ].

Definition commonWords : list string :=
  [ "the"; "this"; "that"; "is"; "are"; "was"; "were"; "for"; "with";
    "from"; "and"; "or"; "to"; "of"; "in"; "on"; "only"; "directly";
    "matches"; "request"; "command"; "candidates"; "operations"; "unrelated" ].

Definition looksLikeNarrativeOutput (trimmed low : string) : bool :=
  let fields := Fields low in
  if length fields <? 7 then false
  else if negb (ContainsAny low ".!?") then false
  else if Contains trimmed " -" then false
  else if ContainsAny trimmed "|&;$<>`" then false
  else if Contains trimmed "/" || Contains trimmed backslash then false
  else
    let commonCount :=
      length (List.filter
                (fun field => inList (Trim field MemoryCompat.punctuation) commonWords)
                fields) in
    2 <=? commonCount.

Definition outputPrefixes : list string :=
  [ "zsh:"; "bash:"; "fish:"; "usage:"; "error:"; "fatal:"; "suggested command:";
    "reason:"; "source:"; "tip:"; "top matches for:";
    "cancelled. command not executed." ].

Definition isLikelyShellOutput (command : string) : bool :=
  let trimmed := TrimSpace command in
  let low := ToLower trimmed in
  match trimmed with
  | EmptyString => true
  | String r _ =>
      (* utf8.DecodeRuneInString: a first byte above 127 starts a rune that is
         either RuneError or beyond unicode.MaxASCII *)
      if 128 <=? nat_of_ascii r then true
      else if negb (isLikelyCommandStarter r) then true
      else if isEnumeratedOutputLine low then true
      else if hasAnyPrefix low outputPrefixes then true
      else if Contains low "command not found" then true
      else if Contains low "[error]" then true
      else if Contains low "do you want to" then true
      else if Contains low "worktree created" || Contains low "created successfully" then true
      else if Contains low "run this command? [y/n]" then true
      else
        let fields := Fields low in
        if match fields with
           | f0 :: f1 :: _ =>
               (String.eqb f1 "error" || String.eqb f1 "warn" || String.eqb f1 "warning")
               && isLikelyToolName f0
           | _ => false
           end
        then true
        else looksLikeNarrativeOutput trimmed low
  end.

Fixpoint lastElement (path : string) (cur : string) : string :=
  match path with
  | EmptyString => cur
  | String c path' =>
      if ascii_eqb c "/" then lastElement path' EmptyString
      else lastElement path' (cur +:+ String c EmptyString)
  end.

(** [filepath.Base] with the separator [/]. *)
Definition Base (path : string) : string :=
  if isEmpty path then "."
  else
    let path := TrimRightFunc path (fun c => ascii_eqb c "/") in
    let path := lastElement path EmptyString in
    if isEmpty path then "/" else path.

Fixpoint indexByte (s : string) (c : ascii) : option nat :=
  match s with
  | EmptyString => None
  | String d s' => if ascii_eqb d c then Some 0 else option_map S (indexByte s' c)
  end.

Definition historyIsEnvAssignmentToken (token : string) : bool :=
  if HasPrefix token "-" then false
  else
    match indexByte token "=" with
    | None => false
    | Some 0 => false
    | Some eq => negb (ContainsAny (String.substring 0 eq token) ("/" +:+ backslash))
    end.

(** The three loops of [historyPrimaryCommandToken]: the outer loop, the
    loop after [env] and the loop after [sudo], [command], ... *)
Inductive tokenLoop : Type := Outer | AfterEnv | AfterWrapper.

Fixpoint primaryTokenFrom (loop : tokenLoop) (fields : list string) : option string :=
  match fields with
  | [] => None
  | field :: rest =>
      let token := TrimSpace field in
      let skipped :=
        match loop with
        | Outer => false
        | AfterEnv => isEmpty token || HasPrefix token "-" || historyIsEnvAssignmentToken token
        | AfterWrapper => isEmpty token || HasPrefix token "-"
        end in
      if skipped then primaryTokenFrom loop rest
      else if isEmpty token then primaryTokenFrom Outer rest
      else if historyIsEnvAssignmentToken token then primaryTokenFrom Outer rest
      else
        let base := ToLower (Base token) in
        if String.eqb base "env" then primaryTokenFrom AfterEnv rest
        else if inList base [ "sudo"; "command"; "time"; "nohup"; "builtin" ]
        then primaryTokenFrom AfterWrapper rest
        else Some token
  end.

Definition historyPrimaryCommandToken (fields : list string) : string :=
  match fields with
  | [] => EmptyString
  | first :: _ =>
      match primaryTokenFrom Outer fields with
      | Some token => token
      | None => first
      end
  end.

Definition isInternalCommand (command : string) : bool :=
  let trimmed := TrimSpace command in
  if isEmpty trimmed then true
  else
    let low := ToLower trimmed in
    if Contains low "go run ./cmd/ew" || Contains low "go run ./cmd/_ew" then true
    else
      let fields := Fields trimmed in
      match fields with
      | [] => true
      | _ =>
          let first := historyPrimaryCommandToken fields in
          let base := ToLower (Base first) in
          String.eqb base "ew" || String.eqb base "_ew"
      end.

Definition withCommand (entry : Entry) (cmd : string) : Entry :=
  mkEntry cmd (Timestamp entry) (Source entry) (order entry) (approxTS entry).

Definition withOrder (entry : Entry) (n : Z) : Entry :=
  mkEntry (Command entry) (Timestamp entry) (Source entry) n (approxTS entry).

(** The test [!ok || entry.Timestamp.After(current.Timestamp) || ...]. *)
Definition newer (entry current : Entry) : bool :=
  (Timestamp current <? Timestamp entry)%Z
  || ((Timestamp entry =? Timestamp current)%Z && (order current <? order entry)%Z).

(** One round of the loop of [dedupeEntries]. *)
Definition dedupeStep (latestByCommand : gmap string Entry) (entry : Entry)
    : gmap string Entry :=
  let cmd := normalizeHistoryCommand (Command entry) in
  if isEmpty cmd then latestByCommand
  else if isSensitiveCommand cmd then latestByCommand
  else if isLikelyShellOutput cmd then latestByCommand
  else if isInternalCommand cmd then latestByCommand
  else
    let key := ToLower cmd in
    let entry := withCommand entry cmd in
    match latestByCommand !! key with
    | None => <[key := entry]> latestByCommand
    | Some current =>
        if newer entry current then <[key := entry]> latestByCommand
        else latestByCommand
    end.

Definition dedupeEntries (entries : list Entry) : list Entry :=
  let latestByCommand := fold_left dedupeStep entries ∅ in
  (map_to_list latestByCommand).*2.

(** The [less] function of [LoadEntries]. *)
Definition entryLess (a b : Entry) : bool :=
  if (Timestamp a =? Timestamp b)%Z
  then (order b <? order a)%Z
  else (Timestamp b <? Timestamp a)%Z.

(** The numbering loop of [LoadEntries]. *)
Definition numberStep (acc : list Entry * Z) (entry : Entry) : list Entry * Z :=
  (acc.1 ++ [withOrder entry acc.2], (acc.2 + 1)%Z).

Definition collectStep (acc : list Entry * Z) (loaded : option (list Entry))
    : list Entry * Z :=
  match loaded with
  | None => acc
  | Some entries => fold_left numberStep entries acc
  end.

Definition collect (files : list (option (list Entry))) : list Entry :=
  (fold_left collectStep files ([], 0%Z)).1.

Definition maxEntries : nat := Z.to_nat 12000.

(** [LoadEntries], given what the loaders of the history files returned, in
    the order zsh, bash, fish; [None] stands for a file that is missing or
    that its loader failed to read. *)
Definition LoadEntries (files : list (option (list Entry))) : list Entry :=
  let entries := collect files in
  match entries with
  | [] => []
  | _ =>
      let entries := dedupeEntries entries in
      let entries := GoSort.Slice entryLess entries in
      firstn maxEntries entries
  end.

End History.

(** ** Vocabulary of the statements about the policy code *)

Module PolicySpec.
Import GoStrings Config Provider.

(** The mode the driver starts from: lower-cased, trimmed, [confirm] when
    blank. *)
Definition startMode (mode : string) : string :=
  if isEmpty (ToLower (TrimSpace mode)) then "confirm" else ToLower (TrimSpace mode).

(** A command that is high-risk or destructive. *)
Definition riskyCommand (command : string) : bool :=
  Runtime.HighRisk command || Classifier.isDestructiveCommand command.

Definition askExample : Resolution :=
  {| Action := "clarify"; Command := "$ git status"; Reason := "";
     Risk := "low"; Confidence := 1; NeedsConfirmation := false |}.


(** A configuration as the repository's tests set it: [find.min_confidence]
    lowered to 0.20. *)
Definition lowFindConfig : Config :=
  {| Fix := Fix Config.Default;
     Find := {| MinConfidence := 0.20 |};
     Safety := Safety Config.Default;
     AI := AI Config.Default |}.

(** The configuration of the low-confidence test: [fix.min_confidence] 0.80. *)
Definition fixStrictConfig : Config :=
  {| Fix := {| MinConfidence := 0.80 |};
     Find := Find Config.Default;
     Safety := Safety Config.Default;
     AI := AI Config.Default |}.

Definition halfSureExample : Resolution :=
  {| Action := "run"; Command := "git status"; Reason := "";
     Risk := "low"; Confidence := 0.50; NeedsConfirmation := false |}.


Definition unsureExample : Resolution :=
  {| Action := "run"; Command := "git status"; Reason := "low confidence";
     Risk := "low"; Confidence := 0.50; NeedsConfirmation := false |}.

End PolicySpec.

(** ** Vocabulary of the statements about memory compatibility *)

Module MemoryCompatSpec.
Import GoStrings MemoryCompat.

(** The set of the numeric tokens of a query. *)
Definition numericSet (input : string) : gset string :=
  list_to_set (memoryNumericTokens input).

(** The number of signal tokens of the query that the stored query has. *)
Definition overlap (query storedQuery : string) : nat :=
  countShared (memorySignalTokens query) (memorySignalTokens storedQuery).

(** Compatibility as the specification words it: identical normalized
    queries, or else equal sets of numeric tokens and one of: an overlap of
    at least two signal tokens, an overlap of exactly one with exactly one
    signal token on both sides, one normalized query containing the other. *)
Definition compatibleAsStated (query storedQuery : string) : bool :=
  let nq := normalizeComparableCommand query in
  let ns := normalizeComparableCommand storedQuery in
  String.eqb nq ns
  || (bool_decide (numericSet query = numericSet storedQuery)
      && ((2 <=? overlap query storedQuery)
          || (Nat.eqb (overlap query storedQuery) 1
              && Nat.eqb (length (memorySignalTokens query)) 1
              && Nat.eqb (length (memorySignalTokens storedQuery)) 1)
          || Contains ns nq || Contains nq ns)).

(** The accumulator of the de-duplicating loops: the tokens collected so
    far, without repetition, and the set of exactly these tokens. *)
Definition collected (acc : list string * gset string) : Prop :=
  NoDup acc.1 /\ acc.2 = list_to_set acc.1.

End MemoryCompatSpec.

(** ** Vocabulary of the statements about the memory store *)

Module MemorySpec.
Import GoStrings Memory.

(** The key of an entry: the normalized query and the normalized command. *)
Definition pairKey (entry : Entry) : string * string :=
  (normalize (Query entry), normalize (Command entry)).

(** [a] may stand before [b]: a higher score, or the same score and an
    [updated_at] that is not earlier (as strings). *)
Definition ranksBefore (a b : Entry) : Prop :=
  (Score b < Score a)%Q
  \/ ((Score a == Score b)%Q /\ String.leb (UpdatedAt b) (UpdatedAt a) = true).

(** What every operation establishes. *)
Definition wellKept (s : Store) : Prop :=
  NoDup (map pairKey (Entries s))
  /\ StronglySorted ranksBefore (Entries s)
  /\ Forall (fun entry => (0 <= Score entry)%Q) (Entries s).


(** What [Store.normalize] makes of an entry it keeps. *)
Definition cleaned (entry : Entry) : Entry :=
  let entry := trimEntry entry in
  if Qltb (Score entry) 0 then withScore entry 0%Q else entry.

(** The invariant of the loop of [Store.normalize] over the entries
    [input]: the kept entries have distinct keys, [seen] holds exactly their
    keys, and each of them is a cleaned entry of the input. *)
Definition kept (input : list Entry) (acc : list Entry * gset string) : Prop :=
  NoDup (map entryKey acc.1)
  /\ acc.2 = list_to_set (map entryKey acc.1)
  /\ Forall (fun e' => exists e, In e input /\ e' = cleaned e) acc.1.


End MemorySpec.

(** ** Vocabulary of the statements about the memory search *)

Module SearchSpec.
Import GoStrings Memory.




End SearchSpec.

(** ** Vocabulary of the statements about the history store *)

Module HistorySpec.
Import GoStrings History.

(** The command of a loaded entry as [dedupeEntries] stores it. *)
Definition stored (entry : Entry) : string := normalizeHistoryCommand (Command entry).

(** The key of the de-duplication: the lower-cased command. *)
Definition commandKey (command : string) : string := ToLower command.

(** A command that passes the four drop rules. *)
Definition acceptable (cmd : string) : Prop :=
  cmd <> EmptyString
  /\ isSensitiveCommand cmd = false
  /\ isLikelyShellOutput cmd = false
  /\ isInternalCommand cmd = false.

(** [a] is not more recent than [b]: an earlier time stamp, or the same time
    stamp and a load ordinal that is not higher. *)
Definition notNewer (a b : Entry) : Prop :=
  (Timestamp a < Timestamp b)%Z
  \/ (Timestamp a = Timestamp b /\ (order a <= order b)%Z).

(** The invariant of the loop of [dedupeEntries] after the entries [seen]:
    every value of the map is an acceptable entry of [seen], stored under
    its key, and no acceptable entry of [seen] is newer than the value
    stored under its key. *)
Definition latestOf (seen : list Entry) (latestByCommand : gmap string Entry) : Prop :=
  (forall key r, latestByCommand !! key = Some r ->
     key = commandKey (Command r) /\ acceptable (Command r)
     /\ exists e, In e seen /\ r = withCommand e (stored e))
  /\ (forall e, In e seen -> acceptable (stored e) ->
        exists r, latestByCommand !! commandKey (stored e) = Some r /\ notNewer e r).

End HistorySpec.

(** ** Vocabulary of the statements about the redactor *)

Module RedactSpec.
Import GoStrings Regexp Safety.

(** Every byte of the string is of the class. *)
Fixpoint allBytes (p : ascii -> bool) (s : string) : bool :=
  match s with
  | EmptyString => true
  | String c s' => p c && allBytes p s'
  end.

(** The sensitive words as they occur in a key made of letters, digits and
    underscores. *)
Definition keyWords : list string :=
  [ "token"; "secret"; "password"; "passwd"; "api_key"; "apikey"; "access_key";
    "accesskey" ].

(** A key of the shape [[a-z0-9_]*(?:...)[a-z0-9_]*] under [(?i)] that is
    made of letters, digits and underscores. *)
Definition sensitiveKey (key : string) : bool :=
  allBytes keyByte key && containsAnyOf (ToLower key) keyWords.

(** A non-empty run of bytes that are neither white space nor quotes. *)
Definition bareValue (value : string) : bool :=
  negb (isEmpty value) && allBytes bareByte value.

(** A run between two quote characters [q] that has no [q] inside. *)
Definition quoted (q : ascii) (body : string) : string :=
  String q (body +:+ String q EmptyString).

Definition quoteFree (q : ascii) (body : string) : bool :=
  allBytes (fun c => negb (ascii_eqb c q)) body.

(** The values the rules match: a bare run, or a balanced double- or
    single-quoted run. *)
Definition valueShape (value : string) : Prop :=
  bareValue value = true
  \/ (exists body, quoteFree DQUOTE body = true /\ value = quoted DQUOTE body)
  \/ (exists body, quoteFree SQUOTE body = true /\ value = quoted SQUOTE body).

(** The last byte read: the last byte of [s], or [pv] when [s] is empty. *)
Fixpoint lastOr (pv : option ascii) (s : string) : option ascii :=
  match s with
  | EmptyString => pv
  | String c s' => lastOr (Some c) s'
  end.

(** An input without a byte of the class [q]. *)
Definition clean (q : ascii -> bool) (s : string) : bool :=
  allBytes (fun c => negb (q c)) s.

Definition allAscii : list ascii := map ascii_of_nat (List.seq 0 256).

(** [needs q r]: every match of [r] reads a byte of the class [q]. *)
Fixpoint needs (q : ascii -> bool) (r : re) : bool :=
  match r with
  | Chr p => forallb (fun c => implb (p c) (q c)) allAscii
  | Cat r1 r2 => needs q r1 || needs q r2
  | Alt r1 r2 => needs q r1 && needs q r2
  | Group _ r1 => needs q r1
  | _ => false
  end.

(** [plain r]: [r] is made of classes that reject [=], concatenation and
    alternation only. *)
Fixpoint plain (r : re) : bool :=
  match r with
  | Eps => true
  | Chr p => negb (p "="%char)
  | Cat r1 r2 => plain r1 && plain r2
  | Alt r1 r2 => plain r1 && plain r2
  | _ => false
  end.

(** [matches r w]: the pattern [r], made of classes, concatenation and
    alternation, can read exactly [w]. *)
Inductive matches : re -> string -> Prop :=
| matches_eps : matches Eps EmptyString
| matches_chr (p : ascii -> bool) (c : ascii) :
    p c = true -> matches (Chr p) (String c EmptyString)
| matches_cat (r1 r2 : re) (w1 w2 : string) :
    matches r1 w1 -> matches r2 w2 -> matches (Cat r1 r2) (w1 +:+ w2)
| matches_alt_l (r1 r2 : re) (w : string) : matches r1 w -> matches (Alt r1 r2) w
| matches_alt_r (r1 r2 : re) (w : string) : matches r2 w -> matches (Alt r1 r2) w.

(** The two parts of the pattern of the first rule. *)
Definition keyPattern : re := seq [Star keyByte; sensitiveWord; Star keyByte].
Definition assignmentTail : re :=
  seq [Star reSpace; byte "="; Star reSpace; Group 2 secretValue].

(** What the rest of the pattern of the first rule does after the key, on
    [=value]. *)
Definition tailReads (value : string) : Prop :=
  forall pv n cs,
    run assignmentTail Some (mkState pv n (String "=" value) cs)
    = Some (mkState (lastOr (Some "="%char) value) (n + S (String.length value))
                    EmptyString ((2, value) :: cs)).

(** The input [key=value], the final state of the match of the first rule
    on it, what follows the key (the end of group 1, then the rest of the
    pattern), and the states of the matcher within the key. *)
Definition assignmentInput (key value : string) : string :=
  key +:+ String "=" value.

Definition assignmentFinal (key value : string) : state :=
  mkState (lastOr (Some "="%char) value)
          (String.length key + S (String.length value))
          EmptyString
          [(2, value); (1, key)].

Definition closeKey (key value : string) (st' : state) : option state :=
  run assignmentTail Some
      (mkState (prev st') (consumed st') (rest st')
               ((1, String.substring 0 (consumed st' - 0) (assignmentInput key value))
                  :: caps st')).

Definition inside (key value : string) (st : state) : Prop :=
  caps st = []
  /\ exists k1 k2, key = k1 +:+ k2
                   /\ consumed st = String.length k1
                   /\ rest st = k2 +:+ String "=" value.

(** A colon, white space or a dash: what the rules after the first need. *)
Definition separatorByte (c : ascii) : bool :=
  ascii_eqb c ":" || reSpace c || ascii_eqb c "-".

End RedactSpec.

(** ** [internal/runtime] and [cmd/ew]: the decision to execute *)

Module Exec.
Import GoStrings Config.

(** What the terminal gives [ShouldExecute]: whether standard input is a
    terminal ([stdinIsInteractive]), and what [reader.ReadString] returns. *)
Record terminal : Type := {
  stdinIsInteractive : bool;
  readLine : result string
}.

(** [runtime.ShouldExecute] *)
Definition ShouldExecute (tty : terminal) (mode : string) (yes : bool) : result bool :=
  let m := ToLower (TrimSpace mode) in
  if String.eqb m "suggest" then Ok false
  else if String.eqb m "yolo" then Ok true
  else if String.eqb m "confirm" || isEmpty m then
    if yes then Ok true
    else if negb (stdinIsInteractive tty)
    then Err "confirm mode requires interactive terminal; rerun with --yes or --mode yolo"
    else
      match readLine tty with
      | Err err => Err err
      | Ok line =>
          let trimmed := ToLower (TrimSpace line) in
          Ok (String.eqb trimmed "y" || String.eqb trimmed "yes")
      end
  else Err ("unknown mode: " +:+ mode).

(** [isConfirmMode] *)
Definition isConfirmMode (mode : string) : bool :=
  let m := ToLower (TrimSpace mode) in
  isEmpty m || String.eqb m "confirm".

(** The fields of [options] that [executeSuggested] reads. *)
Record options : Type := {
  Mode : string;
  DryRun : bool;
  JSON : bool;
  Yes : bool
}.

Record executionOutcome : Type := {
  Command : string;
  Executed : bool;
  Success : bool
}.

(** The payload handed to [printResponse]. *)
Record response : Type := {
  Intent : string;
  Message : string;
  ResponseCommand : string;
  Risk : string;
  ResponseExecuted : bool
}.

(** What lies outside the program: the terminal, whether an interactive
    confirmation dialog can be used ([canUseInteractiveUI] of the effective
    backend), the answer of [ui.ConfirmExecution] for a command and a risk
    (approved, used, and whether it failed), and the error text of
    [runtime.RunCommand], [None] when the command succeeds. *)
Record world : Type := {
  tty : terminal;
  canUseInteractiveUI : bool;
  ConfirmExecution : string -> string -> bool * bool * bool;
  RunCommand : string -> option string
}.

Definition declined (command : string) : executionOutcome :=
  {| Command := command; Executed := false; Success := false |}.

(** The last lines of [executeSuggested]: run the command and report. *)
Definition runAndReport (w : world) (intent reason command risk : string)
    : option response * executionOutcome :=
  match RunCommand w command with
  | Some err =>
      (Some {| Intent := intent; Message := "execution failed: " +:+ err;
               ResponseCommand := command; Risk := risk; ResponseExecuted := true |},
       {| Command := command; Executed := true; Success := false |})
  | None =>
      (Some {| Intent := intent; Message := reason; ResponseCommand := command;
               Risk := risk; ResponseExecuted := true |},
       {| Command := command; Executed := true; Success := true |})
  end.

(** [executeSuggested]: the response it prints through [printResponse]
    ([None] when it prints the cancellation notice instead) and the outcome it
    returns.  [cfgMode] is the field [cfg.Mode]. *)
Definition executeSuggested (w : world) (command reason riskHint : string)
    (cfg : Config) (cfgMode : string) (opts : options) (intent : Router.Intent)
    : option response * executionOutcome :=
  match Runtime.NormalizeCommand command with
  | Err normalizeErr =>
      (Some {| Intent := intent; Message := "command rejected: " +:+ normalizeErr;
               ResponseCommand := TrimSpace command; Risk := "high";
               ResponseExecuted := false |},
       declined (TrimSpace command))
  | Ok command =>
      let mode := if isEmpty (TrimSpace (Mode opts)) then cfgMode
                  else TrimSpace (Mode opts) in
      let '(mode, risk) := Policy.applyExecutionRiskPolicy cfg mode command riskHint in
      let report message :=
        Some {| Intent := intent; Message := message; ResponseCommand := command;
                Risk := risk; ResponseExecuted := false |} in
      if DryRun opts then (report reason, declined command)
      else if JSON opts && isConfirmMode mode && negb (Yes opts) then
        (report "confirmation required; rerun with --yes or --mode yolo", declined command)
      else
        let prompting := isConfirmMode mode && negb (Yes opts) && negb (JSON opts) in
        let dialog :=
          if prompting && canUseInteractiveUI w then
            let '(approved, used, failed) := ConfirmExecution w command risk in
            if negb failed && used then Some approved else None
          else None in
        match dialog with
        | Some false => (None, declined command)
        | Some true => runAndReport w intent reason command risk
        | None =>
            match ShouldExecute (tty w) mode (Yes opts) with
            | Err err => (report err, declined command)
            | Ok false =>
                if prompting then (None, declined command)
                else (report reason, declined command)
            | Ok true => runAndReport w intent reason command risk
            end
        end
  end.

End Exec.

(** ** Vocabulary of the statements about execution *)

Module ExecSpec.
Import GoStrings Config Exec.

(** The mode asked for: the flag when it is not blank, else the configured
    mode. *)
Definition requestedMode (cfgMode : string) (opts : options) : string :=
  if isEmpty (TrimSpace (Mode opts)) then cfgMode else TrimSpace (Mode opts).

(** The user approved the command in the confirmation dialog. *)
Definition approvedInDialog (w : world) (command risk : string) : Prop :=
  canUseInteractiveUI w = true /\ ConfirmExecution w command risk = (true, true, false).

(** The user answered y or yes at the prompt of an interactive terminal. *)
Definition answeredYes (w : world) : Prop :=
  stdinIsInteractive (tty w) = true
  /\ exists line, readLine (tty w) = Ok line
       /\ (ToLower (TrimSpace line) = "y" \/ ToLower (TrimSpace line) = "yes").

Definition silentWorld : world :=
  {| tty := {| stdinIsInteractive := false; readLine := Err "EOF" |};
     canUseInteractiveUI := false;
     ConfirmExecution := fun _ _ => (false, false, false);
     RunCommand := fun _ => None |}.

Definition yoloOptions : options :=
  {| Mode := "yolo"; DryRun := false; JSON := false; Yes := false |}.

Definition yesOptions : options :=
  {| Mode := ""; DryRun := false; JSON := false; Yes := true |}.

End ExecSpec.

(** ** Vocabulary of the statements about [NormalizeCommand] *)

Module RuntimeSpec.
Import GoStrings Runtime.

(** A fenced code block: the fence with a language tag, the body on the
    following lines, and the closing fence on a line of its own. *)
Definition fenced (tag body : string) : string :=
  fence +:+ tag +:+ String LF (body +:+ String LF fence).

End RuntimeSpec.

(** ** [internal/history]: the match type and the tokens of a search *)

Module HistorySearch.
Import GoStrings.

Record Match : Type := mkMatch {
  Command : string;
  Score : Q;
  Source : string;
  Timestamp : string
}.

Definition stopwords : list string :=
  [ "the"; "for"; "and"; "with"; "from"; "into"; "onto"; "that"; "this";
    "you"; "your"; "can"; "could"; "how"; "what"; "when"; "where"; "why";
    "are"; "is"; "to"; "me"; "my"; "find"; "search"; "please"; "help";
    "command"; "commands"; "run"; "execute"; "path"; "paths"; "file"; "files";
    "location" ].

(** One round of the loop of [splitTokens]. *)
Definition tokenStep (acc : list string * gset string) (p : string)
    : list string * gset string :=
  let token := ToLower (Trim (TrimSpace p) MemoryCompat.punctuation) in
  if String.length token <? 3 then acc
  else if inList token stopwords then acc
  else if bool_decide (token ∈ acc.2) then acc
  else (acc.1 ++ [token], {[token]} ∪ acc.2).

Definition splitTokens (query : string) : list string :=
  let parts := FieldsFunc query MemoryCompat.isSeparator in
  (fold_left tokenStep parts ([], ∅)).1.

Definition minimumTokenMatches (tokens : list string) : nat :=
  let count := length (List.filter (fun token => negb (isEmpty (TrimSpace token))) tokens) in
  if count =? 0 then 0
  else if 6 <=? count then 3
  else if 2 <=? count then 2
  else 1.

(** [isTokenChar(rune(b))] for a byte [b]: the letters and digits among the
    first 256 code points. *)
Definition isTokenChar (b : ascii) : bool :=
  let n := nat_of_ascii b in
  isLetter b || isDigit b
  || (n =? 170) || (n =? 181) || (n =? 186)
  || ((192 <=? n) && (n <=? 214))
  || ((216 <=? n) && (n <=? 246))
  || (248 <=? n).

(** [strings.Index]; [None] stands for -1. *)
Fixpoint Index (s substr : string) : option nat :=
  if HasPrefix s substr then Some 0
  else
    match s with
    | EmptyString => None
    | String _ s' => option_map S (Index s' substr)
    end.

(** [s[n:]] *)
Fixpoint sliceFrom (s : string) (n : nat) : string :=
  match n, s with
  | O, _ => s
  | S n', String _ s' => sliceFrom s' n'
  | S _, EmptyString => EmptyString
  end.

(** The loop of [tokenIndex], entered with [start]; [start] grows in every
    round and the loop ends when it passes [len(command)-len(token)]. *)
Fixpoint tokenIndexLoop (fuel : nat) (command token : string) (start : nat) : option nat :=
  match fuel with
  | O => None
  | S fuel' =>
      if (Z.of_nat start <=? Z.of_nat (String.length command) - Z.of_nat (String.length token))%Z
      then
        match Index (sliceFrom command start) token with
        | None => None
        | Some idx =>
            let idx := idx + start in
            let beforeOK :=
              (idx =? 0)
              || match String.get (idx - 1) command with
                 | Some b => negb (isTokenChar b)
                 | None => true
                 end in
            let afterPos := idx + String.length token in
            let afterOK :=
              (String.length command <=? afterPos)
              || match String.get afterPos command with
                 | Some b => negb (isTokenChar b)
                 | None => true
                 end in
            if beforeOK && afterOK then Some idx
            else tokenIndexLoop fuel' command token (idx + 1)
        end
      else None
  end.

(** [tokenIndex]; [None] stands for -1. *)
Definition tokenIndex (command token : string) : option nat :=
  if isEmpty token then None
  else tokenIndexLoop (S (String.length command)) command token 0.

End HistorySearch.

(** ** [cmd/ew]: filtering and choosing what find suggests *)

Module Find.
Import GoStrings.

Definition stopwords : list string :=
  [ "the"; "for"; "and"; "with"; "from"; "into"; "onto"; "that"; "this";
    "you"; "your"; "can"; "could"; "how"; "what"; "when"; "where"; "why";
    "are"; "is"; "to"; "me"; "my"; "find"; "search"; "show"; "list";
    "please"; "help"; "command"; "commands"; "run"; "execute"; "file"; "files";
    "path"; "paths"; "location"; "locate" ].

(** One round of the loop of [queryRelevanceTokens]. *)
Definition relevanceStep (acc : list string * gset string) (part : string)
    : list string * gset string :=
  let token := Trim (TrimSpace part) MemoryCompat.punctuation in
  if String.length token <? 3 then acc
  else if inList token stopwords then acc
  else if bool_decide (token ∈ acc.2) then acc
  else (acc.1 ++ [token], {[token]} ∪ acc.2).

Definition queryRelevanceTokens (query : string) : list string :=
  let parts := FieldsFunc (ToLower (TrimSpace query)) MemoryCompat.isSeparator in
  (fold_left relevanceStep parts ([], ∅)).1.

Definition countSignalTokens (query : string) : nat :=
  length (queryRelevanceTokens query).

Definition minimumHistoryMatchScore (query : string) : Q :=
  let tokenCount := length (queryRelevanceTokens query) in
  if 4 <=? tokenCount then 8.0
  else if 2 <=? tokenCount then 7.0
  else 6.0.

Definition lowSignalFindQuery (query : string) : bool :=
  countSignalTokens query <? 2.

Definition shouldAIRerank (mode : string) (matches : list HistorySearch.Match) : bool :=
  let m := ToLower (TrimSpace mode) in
  if String.eqb m "off" || String.eqb m "false" || String.eqb m "never" then false
  else if String.eqb m "always" || String.eqb m "on" || String.eqb m "true"
  then 0 <? length matches
  else
    match matches with
    | [] => false
    | first :: _ => (1 <? length matches) && Qltb (HistorySearch.Score first) 24
    end.

Definition filterFindMatches (query : string) (matches : list HistorySearch.Match)
    : list HistorySearch.Match :=
  if length matches =? 0 then matches
  else
    let allowDestructive := Classifier.queryAllowsDestructive query in
    let allowHighRisk := Classifier.queryAllowsHighRisk query in
    let readOnly := Classifier.queryPrefersReadOnly query in
    let minScore := minimumHistoryMatchScore query in
    List.filter
      (fun m =>
         let command := TrimSpace (HistorySearch.Command m) in
         if isEmpty command then false
         else if Qltb (HistorySearch.Score m) minScore then false
         else if readOnly && Classifier.isMutatingCommand command then false
         else if Runtime.HighRisk command && negb allowHighRisk then false
         else if Classifier.isDestructiveCommand command && negb allowDestructive then false
         else true)
      matches.

(** [aiSuggestionMatchesTopHistory] *)
Definition aiSuggestionMatchesTopHistory (aiCommand : string)
    (matches : list HistorySearch.Match) : bool :=
  match matches with
  | [] => false
  | first :: _ =>
      if isEmpty (TrimSpace aiCommand) then false
      else
        let top := TrimSpace (HistorySearch.Command first) in
        String.eqb (MemoryCompat.normalizeComparableCommand aiCommand)
                   (MemoryCompat.normalizeComparableCommand top)
  end.

(** [preferredMemoryMatch]; [None] stands for the result [(Match{}, false)]. *)
Fixpoint preferredMemoryMatch (query : string) (matches : list Memory.Match)
    : option Memory.Match :=
  match matches with
  | [] => None
  | candidate :: rest =>
      if isEmpty (TrimSpace (Memory.MatchCommand candidate))
      then preferredMemoryMatch query rest
      else if negb (Classifier.commandAllowedForQuery query (Memory.MatchCommand candidate))
      then preferredMemoryMatch query rest
      else if negb (MemoryCompat.memoryQueryCompatible query (Memory.MatchQuery candidate))
      then preferredMemoryMatch query rest
      else if Memory.Exact candidate
              || Qleb 26 (Memory.MatchScore candidate)
              || ((2 <=? Memory.MatchUses candidate)%Z && Qleb 18 (Memory.MatchScore candidate))
      then Some candidate
      else preferredMemoryMatch query rest
  end.

(** [strings.EqualFold] against a text made of the ASCII letters that have
    no other case variant than their upper case. *)
Definition EqualFold (s t : string) : bool := String.eqb (ToLower s) (ToLower t).

Definition shouldPersistFindSuggestion (query command source risk : string) : bool :=
  let query := TrimSpace query in
  let command := TrimSpace command in
  if isEmpty query || isEmpty command then false
  else if EqualFold (TrimSpace source) "memory" then false
  else if String.eqb (Policy.normalizeRiskHint risk) "high" then false
  else if negb (Classifier.commandAllowedForQuery query command) then false
  else true.

Definition blockedTokens : list string :=
  [ "&&"; "||"; "|"; ";"; String LF EmptyString; String CR EmptyString; "`"; "$(" ].

Definition isCleanInferredCommand (command : string) : bool :=
  let trimmed := TrimSpace command in
  if isEmpty trimmed then false
  else if containsAnyOf trimmed blockedTokens then false
  else if ContainsAny trimmed "<>" then false
  else true.

(** The loop over the separators of [compactReason]: the text up to and
    with the first character of the first separator found early enough. *)
Fixpoint firstSentence (trimmed : string) (max : nat) (separators : list string)
    : option string :=
  match separators with
  | [] => None
  | sep :: rest =>
      match HistorySearch.Index trimmed sep with
      | Some idx =>
          if (0 <? idx) && (idx <? max)
          then Some (TrimSpace (String.substring 0 (idx + 1) trimmed))
          else firstSentence trimmed max rest
      | None => firstSentence trimmed max rest
      end
  end.

Definition compactReason (reason : string) (max : Z) : string :=
  let trimmed := TrimSpace reason in
  if isEmpty trimmed then EmptyString
  else if (max <=? 0)%Z || (Z.of_nat (String.length trimmed) <=? max)%Z then trimmed
  else
    match firstSentence trimmed (Z.to_nat max) [ ". "; "; "; String LF EmptyString ] with
    | Some sentence => sentence
    | None => TrimSpace (String.substring 0 (Z.to_nat max) trimmed) +:+ "..."
    end.

End Find.

(** ** Vocabulary of the statements about find *)

Module FindSpec.
Import GoStrings HistorySearch.

(** A remembered match that is strong enough to be preferred. *)
Definition strong (m : Memory.Match) : Prop :=
  Memory.Exact m = true
  \/ (26 <= Memory.MatchScore m)%Q
  \/ ((2 <= Memory.MatchUses m)%Z /\ (18 <= Memory.MatchScore m)%Q).

(** A remembered match that may answer the query. *)
Definition trusted (query : string) (m : Memory.Match) : Prop :=
  Classifier.commandAllowedForQuery query (Memory.MatchCommand m) = true
  /\ MemoryCompat.memoryQueryCompatible query (Memory.MatchQuery m) = true
  /\ strong m.

(** The token stands in the command at position [i], with no letter or
    digit next to it on either side. *)
Definition standsAt (command token : string) (i : nat) : Prop :=
  String.substring i (String.length token) command = token
  /\ i + String.length token <= String.length command
  /\ (i = 0 \/ exists b, String.get (i - 1) command = Some b /\ isTokenChar b = false)
  /\ (i + String.length token = String.length command
      \/ exists b, String.get (i + String.length token) command = Some b
                   /\ isTokenChar b = false).

Definition statusMatch : Match :=
  mkMatch "git status" 9 "zsh" "2026-01-01T00:00:00Z".

Definition wipeMatch : Match :=
  mkMatch "rm -rf build" 30 "zsh" "2026-01-01T00:00:00Z".

Definition rememberedStatus : Memory.Match :=
  Memory.mkMatch "repo status" "git status" 40 3%Z true.

End FindSpec.

(** ** Vocabulary of the statements about the token loops *)

Module TokenSpec.
Import GoStrings.

(** The shape the de-duplicating token loops of the source share: the
    token [clean part] is dropped when [reject] holds of it or when it has
    been seen, and appended otherwise. *)
Definition pushNew (clean : string -> string) (reject : string -> bool)
    (acc : list string * gset string) (part : string) : list string * gset string :=
  let token := clean part in
  if reject token then acc
  else if bool_decide (token ∈ acc.2) then acc
  else (acc.1 ++ [token], {[token]} ∪ acc.2).

End TokenSpec.

(** ** [internal/memory]: the best entries *)

Module MemoryTop.
Import GoStrings Memory.

(** The match [Top] makes of an entry. *)
Definition toMatch (entry : Entry) : Match :=
  mkMatch (Query entry) (Command entry) (Score entry) (Uses entry) false.

(** The loop of [Top]: append, then stop when [limit] matches are out. *)
Fixpoint topLoop (entries : list Entry) (limit : Z) (out : list Match) : list Match :=
  match entries with
  | [] => out
  | entry :: rest =>
      let out := out ++ [toMatch entry] in
      if (limit <=? Z.of_nat (length out))%Z then out
      else topLoop rest limit out
  end.

Definition Top (s : Store) (limit : Z) : list Match :=
  let limit := if (limit <=? 0)%Z then 8%Z else limit in
  topLoop (Entries s) limit [].

End MemoryTop.

(** ** Vocabulary of the further statements about the memory store *)

Module MemoryMoreSpec.
Import GoStrings Memory.

(** The number of matches asked for: 8 when the limit is not positive. *)
Definition askedFor (limit : Z) : nat :=
  Z.to_nat (if (limit <=? 0)%Z then 8%Z else limit).

(** The entry is remembered for the query. *)
Definition storedFor (query : string) (entry : Entry) : bool :=
  String.eqb (normalize (Query entry)) (normalize query).

(** A store with two entries for one query and one for another. *)
Definition smallStore : Store :=
  mkStore
    [ mkEntry "Repo  Status" "git status" 30 2 2 0 "2026-01-02T00:00:00Z" EmptyString;
      mkEntry "list files" "ls -la" 20 1 1 0 "2026-01-01T00:00:00Z" EmptyString;
      mkEntry "repo status" "git status -sb" 10 1 1 0 "2026-01-01T00:00:00Z" EmptyString ].

End MemoryMoreSpec.

(** ** [internal/history]: the latest dated entry *)

Module HistoryLatest.
Import GoStrings History.

(** The zero [time.Time], January 1 of year 1, counted like every instant
    here in nanoseconds from the Unix epoch. *)
Definition zeroTime : Z := (-62135596800 * 1000000000)%Z.

Definition minDuration : Z := (- 2 ^ 63)%Z.
Definition maxDuration : Z := (2 ^ 63 - 1)%Z.

(** [t.Sub(u)]: the difference, held within the range of a [Duration]. *)
Definition Sub (t u : Z) : Z := Z.max minDuration (Z.min maxDuration (t - u)).

(** The loop of [LatestEntry] over the loaded entries; [now] is
    [time.Now()]. *)
Fixpoint firstDated (now maxAge : Z) (entries : list Entry) : option Entry :=
  match entries with
  | [] => None
  | latest :: rest =>
      if (Timestamp latest =? zeroTime)%Z || approxTS latest
      then firstDated now maxAge rest
      else if (0 <? maxAge)%Z
              && (let age := Sub now (Timestamp latest) in
                  (age <? 0)%Z || (maxAge <? age)%Z)
      then firstDated now maxAge rest
      else Some latest
  end.

(** [LatestEntry], given what the loaders of the history files returned. *)
Definition LatestEntry (now maxAge : Z) (files : list (option (list Entry)))
    : option Entry :=
  firstDated now maxAge (LoadEntries files).

End HistoryLatest.

(** ** Vocabulary of the further statements about the history *)

Module HistoryMoreSpec.
Import GoStrings History HistoryLatest.

(** An entry with a time stamp of its own that is not older than [maxAge],
    when there is a limit, and not in the future. *)
Definition dated (now maxAge : Z) (entry : Entry) : Prop :=
  Timestamp entry <> zeroTime
  /\ approxTS entry = false
  /\ ((0 < maxAge)%Z -> (0 <= Sub now (Timestamp entry) <= maxAge)%Z).

Definition oneFile : list (option (list Entry)) :=
  [ Some [ mkEntry "git status" 1700000000000000000 "zsh" 0 false;
           mkEntry "ls -la" 1700000100000000000 "zsh" 0 true ] ].

(** The entries of [oneFile] as [LoadEntries] numbers them, newest first. *)
Definition newestFirst : list Entry :=
  [ mkEntry "ls -la" 1700000100000000000 "zsh" 1 true;
    mkEntry "git status" 1700000000000000000 "zsh" 0 false ].

End HistoryMoreSpec.

(** ** [internal/history]: reading the history files

    A history file is modelled by the lines its scanner yields. *)

Module HistoryLoaders.
Import GoStrings History HistoryLatest.

Definition second : Z := 1000000000%Z.

(** [time.Unix(sec, 0).UTC()], for seconds in the range in which the seconds
    counted from year 1 fit an [int64]. *)
Definition unixTime (sec : Z) : Z := (sec * second)%Z.

(** [strings.SplitN(s, sep, 2)] for a one-byte separator: the text before
    the first separator and the text after it, or [None] when there is no
    separator and the result has one part. *)
Fixpoint cutAt (sep : ascii) (s before : string) : option (string * string) :=
  match s with
  | EmptyString => None
  | String c s' =>
      if ascii_eqb c sep then Some (before, s')
      else cutAt sep s' (before +:+ String c EmptyString)
  end.

Definition SplitN2 (s : string) (sep : ascii) : option (string * string) :=
  cutAt sep s EmptyString.

Definition withTime (entry : Entry) (timestamp : Z) (approx : bool) : Entry :=
  mkEntry (Command entry) timestamp (Source entry) (order entry) approx.

(** The loop [for i, idx := range untimedIndexes] that the loaders of the
    zsh and bash history end with; [i] is the number of the round. *)
Fixpoint assignUntimed (start : Z) (i : nat) (untimedIndexes : list nat)
    (entries : list Entry) : list Entry :=
  match untimedIndexes with
  | [] => entries
  | idx :: rest =>
      assignUntimed start (S i) rest
        (alter (fun entry => withTime entry (start + Z.of_nat i * second)%Z true) idx entries)
  end.

Section Loaders.

(** [parseUnix]: what [fmt.Sscanf] with the verb [%d] reads from the
    trimmed text, [None] when it fails. *)
Variable parseUnix : string -> option Z.
(** [time.Now().UTC()] *)
Variable now : Z.

(** What the loop of [loadZshHistory] makes of a line that is not blank:
    the command, the time stamp and the approximation flag. *)
Definition zshEntry (line : string) : Entry :=
  let plain := mkEntry line zeroTime "zsh" 0%Z true in
  if HasPrefix line ": " then
    match SplitN2 line ";" with
    | Some (head, command) =>
        let meta := TrimPrefix head ": " in
        let metaParts := SplitByte meta ":" in
        match metaParts with
        | first :: _ =>
            match parseUnix first with
            | Some unixTs => mkEntry command (unixTime unixTs) "zsh" 0%Z false
            | None => mkEntry command zeroTime "zsh" 0%Z true
            end
        | [] => mkEntry command zeroTime "zsh" 0%Z true
        end
    | None => plain
    end
  else plain.

(** One round of the scanning loop: the entries and the indexes of the
    entries without a time stamp. *)
Definition zshStep (acc : list Entry * list nat) (text : string) : list Entry * list nat :=
  let line := TrimSpace text in
  if isEmpty line then acc
  else
    let entry := zshEntry line in
    let entries := acc.1 ++ [entry] in
    if (Timestamp entry =? zeroTime)%Z
    then (entries, acc.2 ++ [length entries - 1])
    else (entries, acc.2).

(** [loadZshHistory]; the entries are far fewer than the 9 * 10^9 at which
    the product with [time.Second] would leave the range of a [Duration]. *)
Definition loadZshHistory (lines : list string) : list Entry :=
  let '(entries, untimedIndexes) := fold_left zshStep lines ([], []) in
  match untimedIndexes with
  | [] => entries
  | _ =>
      let start := (now - Z.of_nat (length untimedIndexes) * second)%Z in
      assignUntimed start 0 untimedIndexes entries
  end.

(** One round of the scanning loop of [loadBashHistory]: the entries, the
    indexes of the entries without a time stamp, and the pending time
    stamp. *)
Definition bashStep (acc : list Entry * list nat * Z) (text : string)
    : list Entry * list nat * Z :=
  let '(entries, untimedIndexes, pendingTimestamp) := acc in
  let line := TrimSpace text in
  if isEmpty line then acc
  else if HasPrefix line "#" then
    match parseUnix (TrimPrefix line "#") with
    | Some unixTs => (entries, untimedIndexes, unixTime unixTs)
    | None => (entries, untimedIndexes, zeroTime)
    end
  else
    let timestamp := pendingTimestamp in
    let entries := entries ++ [mkEntry line timestamp "bash" 0%Z false] in
    if (timestamp =? zeroTime)%Z
    then (alter (fun entry => withTime entry (Timestamp entry) true)
                (length entries - 1) entries,
          untimedIndexes ++ [length entries - 1], zeroTime)
    else (entries, untimedIndexes, zeroTime).

(** The last loop of [loadBashHistory] sets the time stamp only. *)
Fixpoint assignTimes (start : Z) (i : nat) (untimedIndexes : list nat)
    (entries : list Entry) : list Entry :=
  match untimedIndexes with
  | [] => entries
  | idx :: rest =>
      assignTimes start (S i) rest
        (alter (fun entry =>
                  withTime entry (start + Z.of_nat i * second)%Z (approxTS entry))
               idx entries)
  end.

Definition loadBashHistory (lines : list string) : list Entry :=
  let '(entries, untimedIndexes, _) := fold_left bashStep lines ([], [], zeroTime) in
  match untimedIndexes with
  | [] => entries
  | _ =>
      let start := (now - Z.of_nat (length untimedIndexes) * second)%Z in
      assignTimes start 0 untimedIndexes entries
  end.

End Loaders.

End HistoryLoaders.

(** ** Vocabulary of the statements about the loaders *)

Module LoaderSpec.
Import GoStrings History HistoryLatest HistoryLoaders.

(** The lines that are not blank, trimmed. *)
Definition contentLines (lines : list string) : list string :=
  List.filter (fun line => negb (isEmpty line)) (map TrimSpace lines).

Definition untimed (entry : Entry) : bool := (Timestamp entry =? zeroTime)%Z.

(** The entries in file order, where the [k]-th entry without a time stamp
    of its own, counted from [k], is given the time [start] plus [k]
    seconds and is marked approximate. *)
Fixpoint stamped (start : Z) (k : nat) (parsed : list Entry) : list Entry :=
  match parsed with
  | [] => []
  | entry :: rest =>
      if untimed entry
      then withTime entry (start + Z.of_nat k * second)%Z true :: stamped start (S k) rest
      else entry :: stamped start k rest
  end.

(** The indexes, counted from [base], of the entries without a time stamp. *)
Fixpoint untimedFrom (base : nat) (parsed : list Entry) : list nat :=
  match parsed with
  | [] => []
  | entry :: rest =>
      if untimed entry then base :: untimedFrom (S base) rest
      else untimedFrom (S base) rest
  end.

(** What [loadBashHistory] reads, line by line: a comment line sets the
    pending time stamp, or clears it when it is not a number; a command takes
    the pending time stamp and clears it, and is approximate when there is
    none. *)
Fixpoint bashParsed (parseUnix : string -> option Z) (pending : Z) (lines : list string)
    : list Entry :=
  match lines with
  | [] => []
  | text :: rest =>
      let line := TrimSpace text in
      if isEmpty line then bashParsed parseUnix pending rest
      else if HasPrefix line "#" then
        bashParsed parseUnix
          (match parseUnix (TrimPrefix line "#") with
           | Some unixTs => unixTime unixTs
           | None => zeroTime
           end) rest
      else
        mkEntry line pending "bash" 0%Z (pending =? zeroTime)%Z
          :: bashParsed parseUnix zeroTime rest
  end.

(** A reader of decimal seconds for the examples: ten digits. *)
Definition readSeconds (s : string) : option Z :=
  if String.eqb s "1700000000" then Some 1700000000%Z else None.

End LoaderSpec.

(** ** [internal/config]: the text helpers and the normalized thresholds *)

Module ConfigText.
Import GoStrings Config.

(** [parseBool]; [None] stands for the error. *)
Definition parseBool (value : string) : option bool :=
  let v := ToLower (TrimSpace value) in
  if inList v [ "1"; "true"; "yes"; "on" ] then Some true
  else if inList v [ "0"; "false"; "no"; "off" ] then Some false
  else None.

Definition splitCommaList (value : string) : list string :=
  if isEmpty (TrimSpace value) then []
  else
    List.filter (fun item => negb (isEmpty item))
                (map TrimSpace (SplitByte value ",")).

Definition normalizeUIBackend (value fallback : string) : string :=
  let normalized := ToLower (TrimSpace value) in
  if inList normalized [ "auto"; "bubbletea"; "huh"; "tview"; "plain" ] then normalized
  else ToLower (TrimSpace fallback).

(** The assignments of [Config.normalize] to the thresholds; the fields it
    does not touch are kept. *)
Definition normalize (c : Config) : Config :=
  let defaults := Default in
  let fixMin :=
    if Qleb (MinConfidence (Fix c)) 0 || Qgtb (MinConfidence (Fix c)) 1
    then MinConfidence (Fix defaults) else MinConfidence (Fix c) in
  let findMin :=
    if Qleb (MinConfidence (Find c)) 0 || Qgtb (MinConfidence (Find c)) 1
    then MinConfidence (Find defaults) else MinConfidence (Find c) in
  let aiMin :=
    if Qleb (AIMinConfidence (AI c)) 0 || Qgtb (AIMinConfidence (AI c)) 1
    then AIMinConfidence (AI defaults) else AIMinConfidence (AI c) in
  {| Fix := {| MinConfidence := fixMin |};
     Find := {| MinConfidence := findMin |};
     Safety := Safety c;
     AI := {| AIMinConfidence := aiMin;
              AllowSuggestExecution := AllowSuggestExecution (AI c) |} |}.

End ConfigText.

(** ** Vocabulary of the statements about the configuration texts *)

Module ConfigSpec.
Import GoStrings.

(** An item of a comma-separated list as it is stored: not empty, with no
    white space around it and no comma inside. *)
Definition listItem (item : string) : Prop :=
  item <> EmptyString /\ TrimSpace item = item /\ ContainsRune item "," = false.

End ConfigSpec.

(** ** Vocabulary of the further statements about redaction *)

Module RedactMoreSpec.
Import GoStrings Regexp.

(** An assignment sign, a colon or white space: every rule needs one. *)
Definition breakByte (c : ascii) : bool :=
  ascii_eqb c "=" || ascii_eqb c ":" || reSpace c.

End RedactMoreSpec.

(** ** [internal/i18n]: the normal form of a locale *)

Module I18n.
Import GoStrings.

Definition toUpperByte (c : ascii) : ascii :=
  if isLower c then ascii_of_nat (nat_of_ascii c - 32) else c.

(** [strings.ToUpper], on ASCII text like [ToLower]. *)
Fixpoint ToUpper (s : string) : string :=
  match s with
  | EmptyString => EmptyString
  | String c s' => String (toUpperByte c) (ToUpper s')
  end.

(** [strings.Split(s, sep)[0]] *)
Definition firstPart (s : string) (sep : ascii) : string :=
  match SplitByte s sep with
  | first :: _ => first
  | [] => EmptyString
  end.

(** The loop of [isValidLocaleToken]. *)
Fixpoint validRunes (token : string) (lettersOnly : bool) : bool :=
  match token with
  | EmptyString => true
  | String r rest =>
      if isLower r then validRunes rest lettersOnly
      else if negb lettersOnly && isDigit r then validRunes rest lettersOnly
      else false
  end.

Definition isValidLocaleToken (token : string) (lettersOnly : bool) : bool :=
  if (String.length token <? 2) || (8 <? String.length token) then false
  else validRunes token lettersOnly.

Definition NormalizeLocale (raw : string) : string :=
  let trimmed := TrimSpace raw in
  if isEmpty trimmed then EmptyString
  else
    let trimmed := firstPart trimmed "." in
    let trimmed := firstPart trimmed "@" in
    let trimmed := Memory.ReplaceAll trimmed "_" "-" in
    let parts := SplitByte trimmed "-" in
    match parts with
    | [] => EmptyString
    | [only] =>
        let lang := ToLower only in
        if negb (isValidLocaleToken lang true) then EmptyString else lang
    | first :: second :: _ =>
        let lang := ToLower first in
        let region := ToUpper second in
        if negb (isValidLocaleToken lang true) then EmptyString
        else if isEmpty region then lang
        else if negb (isValidLocaleToken (ToLower region) false) then EmptyString
        else lang +:+ "-" +:+ region
    end.

(** [normalizeLocaleSetting] of the configuration. *)
Definition normalizeLocaleSetting (value fallback : string) : string :=
  let trimmed := TrimSpace value in
  let trimmed := if isEmpty trimmed then TrimSpace fallback else trimmed in
  if Find.EqualFold trimmed "auto" then "auto"
  else NormalizeLocale trimmed.

End I18n.

(** ** Vocabulary of the statements about locales *)

Module LocaleSpec.
Import GoStrings I18n.

(** A language: two to eight lower-case letters. *)
Definition language (s : string) : Prop := isValidLocaleToken s true = true.

(** A region: two to eight upper-case letters or digits. *)
Definition region (s : string) : Prop :=
  isValidLocaleToken (ToLower s) false = true /\ ToUpper s = s.

(** A locale in normal form: a language, or a language and a region joined
    with a dash. *)
Definition normalLocale (s : string) : Prop :=
  exists lang, language lang
    /\ (s = lang \/ exists reg, region reg /\ s = lang +:+ "-" +:+ reg).

(** The bytes of a locale in normal form, apart from the dash. *)
Definition localeByte (c : ascii) : bool := isLower c || isUpper c || isDigit c.

End LocaleSpec.

(** * Properties *)

(** ** Facts about the string functions *)

Module GoStringsFacts.
Import GoStrings.

Lemma TrimLeftFunc_head (s : string) (f : ascii -> bool) :
  match TrimLeftFunc s f with
  | EmptyString => True
  | String c _ => f c = false
  end.
Proof.
  induction s as [|c s IH]; simpl; [exact I|].
  destruct (f c) eqn:E; [exact IH|exact E].
Qed.

Lemma TrimRightFunc_idem (s : string) (f : ascii -> bool) :
  TrimRightFunc (TrimRightFunc s f) f = TrimRightFunc s f.
Proof.
  induction s as [|c s IH]; simpl; [reflexivity|].
  destruct (TrimRightFunc s f) as [|d r] eqn:E.
  - destruct (f c) eqn:Ec; simpl; [reflexivity|]. now rewrite Ec.
  - simpl in *. now rewrite IH.
Qed.

Lemma TrimRightFunc_keeps_head (c : ascii) (s : string) (f : ascii -> bool) :
  f c = false -> exists r, TrimRightFunc (String c s) f = String c r.
Proof.
  intros Hc. simpl. destruct (TrimRightFunc s f) as [|d r].
  - rewrite Hc. now exists EmptyString.
  - now exists (String d r).
Qed.

Lemma TrimFunc_idem (s : string) (f : ascii -> bool) :
  TrimFunc (TrimFunc s f) f = TrimFunc s f.
Proof.
  unfold TrimFunc.
  pose proof (TrimLeftFunc_head s f) as Hh.
  destruct (TrimLeftFunc s f) as [|c t] eqn:E; [reflexivity|].
  destruct (TrimRightFunc_keeps_head c t f Hh) as [r Hr].
  rewrite Hr. simpl TrimLeftFunc at 1. rewrite Hh.
  rewrite <- Hr. apply TrimRightFunc_idem.
Qed.

Lemma TrimSpace_idem (s : string) : TrimSpace (TrimSpace s) = TrimSpace s.
Proof. apply TrimFunc_idem. Qed.

Lemma isEmpty_true (s : string) : isEmpty s = true <-> s = EmptyString.
Proof. destruct s; simpl; split; congruence. Qed.

Lemma isEmpty_false (s : string) : isEmpty s = false <-> s <> EmptyString.
Proof. destruct s; simpl; split; congruence. Qed.

End GoStringsFacts.

(** ** Facts about the comparisons of rationals *)

Module QFacts.

Lemma Qltb_lt (a b : Q) : Qltb a b = true <-> (a < b)%Q.
Proof.
  unfold Qltb. rewrite negb_true_iff. split.
  - intros H. apply Qnot_le_lt. intros Hle. apply Qle_bool_iff in Hle. congruence.
  - intros H. destruct (Qle_bool b a) eqn:E; [|reflexivity].
    apply Qle_bool_iff in E. exfalso. exact (Qlt_not_le _ _ H E).
Qed.

Lemma Qltb_ge (a b : Q) : Qltb a b = false <-> (b <= a)%Q.
Proof.
  unfold Qltb. rewrite negb_false_iff. apply Qle_bool_iff.
Qed.

Lemma Qleb_le (a b : Q) : Qleb a b = true <-> (a <= b)%Q.
Proof. apply Qle_bool_iff. Qed.

Lemma Qleb_gt (a b : Q) : Qleb a b = false <-> (b < a)%Q.
Proof.
  unfold Qleb. split.
  - intros H. apply Qnot_le_lt. intros Hle. apply Qle_bool_iff in Hle. congruence.
  - intros H. destruct (Qle_bool a b) eqn:E; [|reflexivity].
    apply Qle_bool_iff in E. exfalso. exact (Qlt_not_le _ _ H E).
Qed.

End QFacts.

(** ** The safety filter *)

Module ClassifierProps.
Import GoStrings GoStringsFacts Classifier.

Lemma isMutatingCommand_trim (c : string) :
  isMutatingCommand (TrimSpace c) = isMutatingCommand c.
Proof. unfold isMutatingCommand. now rewrite TrimSpace_idem. Qed.

Lemma isDestructiveCommand_trim (c : string) :
  isDestructiveCommand (TrimSpace c) = isDestructiveCommand c.
Proof. unfold isDestructiveCommand. now rewrite TrimSpace_idem. Qed.

Lemma HighRisk_trim (c : string) : Runtime.HighRisk (TrimSpace c) = Runtime.HighRisk c.
Proof. unfold Runtime.HighRisk. now rewrite TrimSpace_idem. Qed.

(** C1. The safety filter allows a command for a query exactly when the
    command is not blank, it is not a mutating command for a query that
    prefers read-only answers, it is not a high-risk command unless the query
    explicitly allows high risk, and it is not a destructive command unless
    the query explicitly allows destruction.  In particular a mutating
    command is never allowed for a query that prefers read-only answers. *)
Theorem commandAllowedForQuery_spec (q cmd : string) :
  (commandAllowedForQuery q cmd = true <->
     TrimSpace cmd <> EmptyString
     /\ ~ (queryPrefersReadOnly q = true /\ isMutatingCommand cmd = true)
     /\ ~ (Runtime.HighRisk cmd = true /\ queryAllowsHighRisk q = false)
     /\ ~ (isDestructiveCommand cmd = true /\ queryAllowsDestructive q = false))
  /\ (queryPrefersReadOnly q = true -> isMutatingCommand cmd = true ->
      commandAllowedForQuery q cmd = false).
Proof.
  unfold commandAllowedForQuery.
  rewrite isMutatingCommand_trim, HighRisk_trim, isDestructiveCommand_trim.
  destruct (TrimSpace cmd) as [|c t] eqn:Et; simpl isEmpty; cbv iota.
  - split; [|reflexivity]. split; [discriminate|]. intros [H _]. now contradiction H.
  - destruct (queryPrefersReadOnly q), (isMutatingCommand cmd),
      (Runtime.HighRisk cmd), (queryAllowsHighRisk q),
      (isDestructiveCommand cmd), (queryAllowsDestructive q); simpl;
      (split; [split; [try discriminate; intros _; repeat split; try discriminate;
                       intros [? ?]; discriminate
                      | try reflexivity; intros (_ & H1 & H2 & H3); exfalso;
                        first [apply H1; now split | apply H2; now split | apply H3; now split]]
              | try reflexivity; try discriminate; intros; discriminate ]).
Qed.

Lemma commandAllowedForQuery_spec_witness :
  queryPrefersReadOnly "path to .zshrc" = true
  /\ isMutatingCommand "echo 'x' >> ~/.zshrc" = true
  /\ commandAllowedForQuery "path to .zshrc" "echo 'x' >> ~/.zshrc" = false.
Proof.
  split; [vm_compute; reflexivity|]. split; [vm_compute; reflexivity|].
  apply (proj2 (commandAllowedForQuery_spec "path to .zshrc" "echo 'x' >> ~/.zshrc"));
    vm_compute; reflexivity.
Defined.

End ClassifierProps.

(** ** The policy engine and the risk policy *)

Module PolicyProps.
Import GoStrings GoStringsFacts QFacts Config Provider Policy PolicySpec.

(** C5. The effective risk is high for a high-risk or destructive command
    when [safety.block_high_risk] is set; otherwise such a command, and any
    mutating command, has a low risk hint raised to medium; every other risk
    hint is kept.  In Yolo mode with [safety.allow_yolo_high_risk] unset the
    mode becomes Confirm when the risk is high or when block_high_risk holds
    for a high-risk or destructive command, and the mode is kept otherwise.
    With block_high_risk set (the default) and allow_yolo_high_risk unset,
    mode yolo with the candidate [git reset --hard] gives mode Confirm and
    risk high. *)
Theorem applyExecutionRiskPolicy_spec (cfg : Config) (mode command riskHint : string) :
  let out := applyExecutionRiskPolicy cfg mode command riskHint in
  let hint := normalizeRiskHint riskHint in
  (riskyCommand command = true -> BlockHighRisk (Safety cfg) = true -> out.2 = "high")
  /\ (riskyCommand command = true -> BlockHighRisk (Safety cfg) = false ->
      hint = "low" -> out.2 = "medium")
  /\ (riskyCommand command = true -> BlockHighRisk (Safety cfg) = false ->
      hint <> "low" -> out.2 = hint)
  /\ (riskyCommand command = false -> Classifier.isMutatingCommand command = true ->
      hint = "low" -> out.2 = "medium")
  /\ (riskyCommand command = false ->
      Classifier.isMutatingCommand command = false \/ hint <> "low" -> out.2 = hint)
  /\ (startMode mode = "yolo" -> AllowYoloHighRisk (Safety cfg) = false ->
      out.2 = "high" \/ (BlockHighRisk (Safety cfg) = true /\ riskyCommand command = true) ->
      out.1 = "confirm")
  /\ (startMode mode <> "yolo" \/ AllowYoloHighRisk (Safety cfg) = true
      \/ (out.2 <> "high"
          /\ (BlockHighRisk (Safety cfg) = false \/ riskyCommand command = false)) ->
      out.1 = startMode mode)
  /\ (BlockHighRisk (Safety cfg) = true -> AllowYoloHighRisk (Safety cfg) = false ->
      applyExecutionRiskPolicy cfg "yolo" "git reset --hard" riskHint = ("confirm", "high")).
Proof.
  cbv zeta.
  assert (Hex : riskyCommand "git reset --hard" = true) by (vm_compute; reflexivity).
  assert (Hyolo : startMode "yolo" = "yolo") by (vm_compute; reflexivity).
  assert (Hout : forall mode command,
             applyExecutionRiskPolicy cfg mode command riskHint
             = (let risk :=
                  if riskyCommand command && BlockHighRisk (Safety cfg) then "high"
                  else if riskyCommand command && String.eqb (normalizeRiskHint riskHint) "low"
                       then "medium"
                  else if Classifier.isMutatingCommand command
                          && String.eqb (normalizeRiskHint riskHint) "low"
                       then "medium"
                  else normalizeRiskHint riskHint in
                (if String.eqb (startMode mode) "yolo"
                    && negb (AllowYoloHighRisk (Safety cfg))
                    && (String.eqb risk "high"
                        || (BlockHighRisk (Safety cfg) && riskyCommand command))
                 then "confirm" else startMode mode, risk))) by reflexivity.
  rewrite !Hout. clear Hout. cbv zeta. rewrite Hex, Hyolo. cbn [fst snd].
  set (hr := riskyCommand command). set (h := normalizeRiskHint riskHint).
  set (mut := Classifier.isMutatingCommand command). set (m0 := startMode mode).
  set (B := BlockHighRisk (Safety cfg)). set (A := AllowYoloHighRisk (Safety cfg)).
  clearbody hr h mut m0 B A.
  split; [|split; [|split; [|split; [|split; [|split; [|split]]]]]].
  - intros -> ->. reflexivity.
  - intros -> -> ->. reflexivity.
  - intros -> -> Hl. apply String.eqb_neq in Hl. rewrite Hl.
    destruct mut; reflexivity.
  - intros -> -> ->. destruct B; reflexivity.
  - intros -> Hc. simpl. destruct Hc as [->|Hl]; [reflexivity|].
    apply String.eqb_neq in Hl. rewrite Hl. now rewrite andb_false_r.
  - intros -> -> Hc. simpl. destruct Hc as [->|[-> ->]]; [reflexivity|].
    simpl. rewrite ?orb_true_r. reflexivity.
  - intros [Hm|[->|[Hr Hc]]].
    + apply String.eqb_neq in Hm. now rewrite Hm.
    + now rewrite andb_false_r.
    + apply String.eqb_neq in Hr. rewrite Hr.
      destruct Hc as [-> | ->]; simpl; rewrite ?andb_false_r; reflexivity.
  - intros -> ->. reflexivity.
Qed.

Lemma applyExecutionRiskPolicy_spec_witness :
  applyExecutionRiskPolicy Config.Default "yolo" "git reset --hard" "low"
  = ("confirm", "high").
Proof.
  apply (applyExecutionRiskPolicy_spec Config.Default "yolo" "git status" "low");
    reflexivity.
Defined.

Section WithFormat.

Variable formatFloat2 : Q -> string.

Lemma NormalizeCommand_trim (c : string) :
  Runtime.NormalizeCommand (TrimSpace c) = Runtime.NormalizeCommand c.
Proof. unfold Runtime.NormalizeCommand. now rewrite TrimSpace_idem. Qed.

(** C2. When the action of a resolution normalizes to Ask (which includes an
    empty and an unrecognized action), the decision is never allowed and it
    carries a message; when the command of the resolution normalizes
    successfully, the decision returns the normalized command, still as not
    allowed. *)
Theorem evaluateAIResolution_ask (intent : Router.Intent) (cfg : Config)
    (resolution : Resolution) :
  normalizeAction (Action resolution) = "ask" ->
  let decision := evaluateAIResolution formatFloat2 intent cfg resolution in
  Allowed decision = false
  /\ Message decision <> EmptyString
  /\ (forall normalized,
        Runtime.NormalizeCommand (Command resolution) = Ok normalized ->
        DecisionCommand decision = normalized /\ Allowed decision = false).
Proof.
  intros Hask. cbv zeta. unfold evaluateAIResolution. rewrite Hask. simpl String.eqb.
  cbv iota. rewrite NormalizeCommand_trim.
  destruct (isEmpty (TrimSpace (Command resolution))) eqn:Ee.
  - simpl. split; [reflexivity|]. split; [discriminate|].
    intros normalized Hn. unfold Runtime.NormalizeCommand in Hn.
    rewrite Ee in Hn. discriminate.
  - destruct (Runtime.NormalizeCommand (Command resolution)) as [n|e]; simpl.
    + split; [reflexivity|]. split; [discriminate|].
      intros normalized [= <-]. split; reflexivity.
    + split; [reflexivity|]. split; [discriminate|]. intros normalized [=].
Qed.

Lemma validThreshold_range (v : Q) : validThreshold v = true -> (0 < v /\ v <= 1)%Q.
Proof.
  unfold validThreshold, Qgtb. rewrite andb_true_iff, Qltb_lt, Qleb_le. tauto.
Qed.

Lemma threshold_range (cfg : Config) (intent : Router.Intent) :
  (0 < confidenceThresholdForIntent cfg intent
   /\ confidenceThresholdForIntent cfg intent <= 1)%Q.
Proof.
  unfold confidenceThresholdForIntent.
  repeat match goal with
         | |- context [if ?b && validThreshold ?v then _ else _] =>
             destruct b; simpl andb; cbv iota
         | |- context [if validThreshold ?v then _ else _] =>
             let E := fresh "E" in
             destruct (validThreshold v) eqn:E;
             [exact (validThreshold_range _ E)|]
         end.
  all: split; [reflexivity | discriminate].
Qed.

Lemma clamp_below (v t : Q) : (0 < t)%Q -> (t <= 1)%Q -> (v < t)%Q ->
  Qltb (clampConfidence v) t = true.
Proof.
  intros H0 H1 Hv. unfold clampConfidence, Qgtb.
  destruct (Qltb v 0) eqn:E0; [now apply Qltb_lt|].
  destruct (Qltb 1 v) eqn:E1; [|now apply Qltb_lt].
  apply Qltb_lt in E1. exfalso.
  apply (Qlt_irrefl v). eapply Qlt_le_trans; [exact Hv|].
  eapply Qle_trans; [exact H1|]. now apply Qlt_le_weak.
Qed.

(** C4, amended.  The threshold is [fix.min_confidence] for the Fix intent
    and [find.min_confidence] for the Find and Run intents when that value
    lies in (0,1]; otherwise, and for every other intent, it is
    [ai.min_confidence] when that lies in (0,1], and 0.60 when no configured
    value applies.  The threshold always lies in (0,1] (0.60 is a default,
    not a floor), and a resolution whose confidence is below the threshold
    is never allowed and gets a message. *)
Theorem confidenceThreshold_spec (intent : Router.Intent) (cfg : Config) :
  let threshold := confidenceThresholdForIntent cfg intent in
  (intent = Router.IntentFix -> validThreshold (MinConfidence (Fix cfg)) = true ->
   threshold = MinConfidence (Fix cfg))
  /\ (intent = Router.IntentFind \/ intent = Router.IntentRun ->
      validThreshold (MinConfidence (Find cfg)) = true ->
      threshold = MinConfidence (Find cfg))
  /\ ((intent = Router.IntentFix /\ validThreshold (MinConfidence (Fix cfg)) = false)
      \/ ((intent = Router.IntentFind \/ intent = Router.IntentRun)
          /\ validThreshold (MinConfidence (Find cfg)) = false)
      \/ (intent <> Router.IntentFix /\ intent <> Router.IntentFind
          /\ intent <> Router.IntentRun) ->
      (validThreshold (AIMinConfidence (AI cfg)) = true ->
       threshold = AIMinConfidence (AI cfg))
      /\ (validThreshold (AIMinConfidence (AI cfg)) = false -> threshold = 0.60%Q))
  /\ (0 < threshold /\ threshold <= 1)%Q
  /\ (forall resolution,
        (Confidence resolution < threshold)%Q ->
        Allowed (evaluateAIResolution formatFloat2 intent cfg resolution) = false
        /\ Message (evaluateAIResolution formatFloat2 intent cfg resolution) <> EmptyString).
Proof.
  cbv zeta. split; [|split; [|split; [|split]]].
  - intros -> Hv. unfold confidenceThresholdForIntent. simpl String.eqb. now rewrite Hv.
  - intros Hi Hv. unfold confidenceThresholdForIntent.
    destruct Hi as [-> | ->]; simpl String.eqb; now rewrite Hv.
  - intros H. unfold confidenceThresholdForIntent.
    destruct H as [[-> Hv] | [[[-> | ->] Hv] | (Hf & Hd & Hr)]].
    + simpl String.eqb. rewrite Hv. simpl.
      split; intros Ha; now rewrite Ha.
    + simpl String.eqb. rewrite Hv. simpl.
      split; intros Ha; now rewrite Ha.
    + simpl String.eqb. rewrite Hv. simpl.
      split; intros Ha; now rewrite Ha.
    + apply String.eqb_neq in Hf, Hd, Hr. rewrite Hf, Hd, Hr. simpl.
      split; intros Ha; now rewrite Ha.
  - apply threshold_range.
  - intros resolution Hlt.
    destruct (threshold_range cfg intent) as [H0 H1].
    pose proof (clamp_below _ _ H0 H1 Hlt) as Hc.
    unfold evaluateAIResolution.
    destruct (String.eqb (normalizeAction (Action resolution)) "ask").
    + destruct (isEmpty (TrimSpace (Command resolution)));
        [simpl; split; [reflexivity|discriminate]|].
      destruct (Runtime.NormalizeCommand (TrimSpace (Command resolution)));
        simpl; split; try reflexivity; discriminate.
    + destruct (isEmpty (TrimSpace (Command resolution)));
        [simpl; split; [reflexivity|discriminate]|].
      destruct (Runtime.NormalizeCommand (TrimSpace (Command resolution)));
        [|simpl; split; [reflexivity|discriminate]].
      rewrite Hc. simpl. split; [reflexivity|discriminate].
Qed.



End WithFormat.

Lemma evaluateAIResolution_ask_witness :
  normalizeAction (Action askExample) = "ask"
  /\ DecisionCommand
       (evaluateAIResolution (fun _ => EmptyString) Router.IntentRun Config.Default askExample)
     = "git status"
  /\ Allowed
       (evaluateAIResolution (fun _ => EmptyString) Router.IntentRun Config.Default askExample)
     = false.
Proof.
  split; [vm_compute; reflexivity|].
  apply (evaluateAIResolution_ask (fun _ => EmptyString) Router.IntentRun Config.Default
           askExample); vm_compute; reflexivity.
Defined.

(** C4 as stated fails: a configured threshold below 0.60 is used as it is,
    and a resolution of confidence 0.50 is then allowed. *)
Lemma confidenceThreshold_floor_counterexample :
  (confidenceThresholdForIntent lowFindConfig Router.IntentFind < 0.60)%Q
  /\ Allowed (evaluateAIResolution (fun _ => EmptyString) Router.IntentFind lowFindConfig
                halfSureExample) = true.
Proof. split; vm_compute; reflexivity. Qed.

Lemma confidenceThreshold_spec_witness :
  Allowed (evaluateAIResolution (fun _ => EmptyString) Router.IntentFix fixStrictConfig
             unsureExample) = false
  /\ Message (evaluateAIResolution (fun _ => EmptyString) Router.IntentFix fixStrictConfig
                unsureExample) <> EmptyString.
Proof.
  apply (confidenceThreshold_spec (fun _ => EmptyString) Router.IntentFix fixStrictConfig).
  vm_compute. reflexivity.
Defined.


End PolicyProps.

(** ** Facts about sorting *)

Module GoSortFacts.
Import GoSort.

Section Sorting.

Context {A : Type} (less : A -> A -> bool).

Lemma insertBy_Permutation (x : A) (l : list A) :
  Permutation (insertBy less x l) (x :: l).
Proof.
  induction l as [|y l IH]; simpl; [reflexivity|].
  destruct (less x y); [reflexivity|].
  rewrite IH. apply perm_swap.
Qed.

Lemma Slice_Permutation (l : list A) : Permutation (Slice less l) l.
Proof.
  induction l as [|x l IH]; simpl; [reflexivity|].
  unfold Slice in *. simpl. rewrite insertBy_Permutation. now constructor.
Qed.

(** The order the result is in: no element is [less] than one before it. *)
Definition notAfter (a b : A) : Prop := less b a = false.

Hypothesis less_asym : forall a b, less a b = true -> less b a = false.
Hypothesis less_negtrans :
  forall a b c, less a b = false -> less b c = false -> less a c = false.

Lemma insertBy_sorted (x : A) (l : list A) :
  StronglySorted notAfter l -> StronglySorted notAfter (insertBy less x l).
Proof.
  induction l as [|y l IH]; intros Hs; simpl.
  - constructor; [constructor|constructor].
  - inversion Hs as [|? ? Hs' Hall]; subst.
    destruct (less x y) eqn:E.
    + constructor; [exact Hs|].
      constructor; [now apply less_asym|].
      eapply Forall_impl; [exact Hall|].
      intros z Hz. unfold notAfter in *.
      apply less_negtrans with y; [exact Hz|now apply less_asym].
    + constructor; [now apply IH|].
      assert (Hp : Permutation (insertBy less x l) (x :: l))
        by apply insertBy_Permutation.
      eapply Permutation_Forall; [symmetry; exact Hp|].
      constructor; [exact E|exact Hall].
Qed.

Lemma Slice_sorted (l : list A) : StronglySorted notAfter (Slice less l).
Proof.
  induction l as [|x l IH]; [constructor|].
  unfold Slice in *. simpl. now apply insertBy_sorted.
Qed.

End Sorting.

End GoSortFacts.

(** ** Facts about lists *)

Module ListFacts.

Lemma NoDup_map_coarser {A B C : Type} (f : A -> B) (g : A -> C) (l : list A) :
  (forall x y, g x = g y -> f x = f y) -> NoDup (map f l) -> NoDup (map g l).
Proof.
  intros Hfg. induction l as [|x l IH]; simpl; intros H; [constructor|].
  apply NoDup_cons in H. destruct H as [Hx Hl].
  apply NoDup_cons. split; [|now apply IH].
  intros Hin. apply Hx. apply list_elem_of_fmap in Hin. destruct Hin as (y & Hy & Hyl).
  apply list_elem_of_fmap. exists y. split; [now apply Hfg|exact Hyl].
Qed.

Lemma StronglySorted_weaken {A : Type} (R S : A -> A -> Prop) (l : list A) :
  (forall a b, R a b -> S a b) -> StronglySorted R l -> StronglySorted S l.
Proof.
  intros HRS. induction 1 as [|a l Hs IH Hall]; constructor; [exact IH|].
  eapply Forall_impl; [exact Hall|]. intros b. apply HRS.
Qed.

Lemma NoDup_map_position {A B : Type} (f : A -> B) (l : list A) (i j : nat) (a b : A) :
  NoDup (map f l) -> nth_error l i = Some a -> nth_error l j = Some b ->
  f a = f b -> i = j.
Proof.
  revert i j. induction l as [|x l IH]; intros i j Hnd Hi Hj Hab.
  - destruct i; discriminate.
  - simpl in Hnd. apply NoDup_cons in Hnd. destruct Hnd as [Hx Hnd].
    destruct i as [|i], j as [|j]; simpl in *.
    + reflexivity.
    + exfalso. injection Hi as ->. apply Hx. rewrite Hab.
      apply list_elem_of_fmap. exists b. split; [reflexivity|].
      apply list_elem_of_In. eapply nth_error_In; exact Hj.
    + exfalso. injection Hj as ->. apply Hx. rewrite <- Hab.
      apply list_elem_of_fmap. exists a. split; [reflexivity|].
      apply list_elem_of_In. eapply nth_error_In; exact Hi.
    + f_equal. now apply IH.
Qed.

Lemma StronglySorted_firstn {A : Type} (R : A -> A -> Prop) (n : nat) (l : list A) :
  StronglySorted R l -> StronglySorted R (firstn n l).
Proof.
  intros Hs. revert n. induction Hs as [|a l Hs IH Hall]; intros [|n]; simpl;
    try constructor; [apply IH|].
  apply Forall_forall. intros x Hx. rewrite Forall_forall in Hall. apply Hall.
  apply list_elem_of_In in Hx. apply list_elem_of_In.
  rewrite <- (firstn_skipn n l). apply in_or_app. now left.
Qed.


End ListFacts.

(** ** Compatibility of a query with a remembered query *)

Module MemoryCompatProps.
Import GoStrings GoStringsFacts MemoryCompat MemoryCompatSpec.

Lemma collected_push (acc : list string * gset string) (token : string) :
  collected acc -> token ∉ acc.2 ->
  collected (acc.1 ++ [token], {[token]} ∪ acc.2).
Proof.
  intros [Hnd Hseen] Hnew. split; simpl.
  - apply NoDup_app. split; [exact Hnd|]. split; [|apply NoDup_singleton].
    intros x Hx Hx'. apply list_elem_of_singleton in Hx'. subst x.
    apply Hnew. rewrite Hseen. now apply elem_of_list_to_set.
  - rewrite Hseen, list_to_set_app_L. simpl.
    rewrite union_empty_r_L. apply union_comm_L.
Qed.

Lemma numericStep_collected (acc : list string * gset string) (token : string) :
  collected acc -> collected (numericStep acc token).
Proof.
  intros H. unfold numericStep.
  destruct (isEmpty (TrimSpace token)); [exact H|].
  case_bool_decide; [exact H|]. now apply collected_push.
Qed.

Lemma fold_collected (step : list string * gset string -> string -> list string * gset string)
    (Hstep : forall acc x, collected acc -> collected (step acc x))
    (l : list string) (acc : list string * gset string) :
  collected acc -> collected (fold_left step l acc).
Proof.
  revert acc. induction l as [|x l IH]; intros acc H; simpl; [exact H|].
  apply IH. now apply Hstep.
Qed.

Lemma collected_empty : collected ([], ∅).
Proof. split; simpl; [constructor|reflexivity]. Qed.

Lemma memoryNumericTokens_NoDup (input : string) : NoDup (memoryNumericTokens input).
Proof.
  unfold memoryNumericTokens.
  destruct (Regexp.FindAllString reDigits (ToLower (TrimSpace input))) as [|m ms];
    [constructor|].
  unfold GoSort.Strings.
  rewrite GoSortFacts.Slice_Permutation.
  apply (fold_collected numericStep numericStep_collected). apply collected_empty.
Qed.

Lemma sameStringSet_spec (a b : list string) :
  NoDup a -> NoDup b ->
  sameStringSet a b = true <-> (list_to_set a : gset string) = list_to_set b.
Proof.
  intros Ha Hb. unfold sameStringSet. split.
  - destruct (Nat.eqb_spec (length a) (length b)) as [Hlen|]; [simpl|discriminate].
    destruct (Nat.eqb_spec (length a) 0) as [H0|H0].
    + intros _. destruct a; [|discriminate]. destruct b; [reflexivity|discriminate].
    + intros Hall. rewrite forallb_forall in Hall.
      assert (Hsub : b ⊆+ a).
      { apply NoDup_submseteq; [exact Hb|]. intros x Hx.
        apply list_elem_of_In in Hx. specialize (Hall x Hx).
        apply bool_decide_eq_true in Hall. now apply elem_of_list_to_set in Hall. }
      assert (Hp : b ≡ₚ a).
      { apply submseteq_length_Permutation; [exact Hsub|]. lia. }
      apply set_eq. intros x. rewrite !elem_of_list_to_set. now rewrite Hp.
  - intros Heq.
    assert (Hlen : length a = length b).
    { rewrite <- (size_list_to_set (C := gset string) a) by exact Ha.
      rewrite <- (size_list_to_set (C := gset string) b) by exact Hb.
      now rewrite Heq. }
    rewrite Hlen, Nat.eqb_refl. simpl.
    destruct (Nat.eqb (length b) 0); [reflexivity|].
    apply forallb_forall. intros x Hx. apply bool_decide_eq_true.
    rewrite Heq. apply elem_of_list_to_set. now apply list_elem_of_In.
Qed.

Lemma numericGuard (query storedQuery : string) :
  ((0 <? length (memoryNumericTokens query)) || (0 <? length (memoryNumericTokens storedQuery)))
  && negb (sameStringSet (memoryNumericTokens query) (memoryNumericTokens storedQuery))
  = negb (bool_decide (numericSet query = numericSet storedQuery)).
Proof.
  pose proof (sameStringSet_spec _ _ (memoryNumericTokens_NoDup query)
                (memoryNumericTokens_NoDup storedQuery)) as Hs.
  unfold numericSet.
  destruct (sameStringSet (memoryNumericTokens query) (memoryNumericTokens storedQuery)) eqn:E.
  - rewrite andb_false_r. symmetry. apply negb_false_iff, bool_decide_eq_true.
    now apply Hs.
  - rewrite andb_true_r.
    assert (Hne : (list_to_set (memoryNumericTokens query) : gset string)
                  <> list_to_set (memoryNumericTokens storedQuery)).
    { intros Heq. apply Hs in Heq. congruence. }
    rewrite bool_decide_eq_false_2 by exact Hne. simpl.
    destruct (memoryNumericTokens query) as [|x xs]; [|reflexivity].
    destruct (memoryNumericTokens storedQuery) as [|y ys]; [|reflexivity].
    now contradiction Hne.
Qed.

(** C8, amended.  Two queries are compatible exactly when both normalized
    queries are non-empty and either they are identical, or the sets of
    numeric tokens are equal and the signal tokens overlap in at least two
    tokens, or in exactly one token with, in addition, exactly one signal
    token on both sides or one normalized query containing the other.
    Queries whose normalized forms differ and whose sets of numeric tokens
    differ are never compatible. *)
Theorem memoryQueryCompatible_spec (query storedQuery : string) :
  let nq := normalizeComparableCommand query in
  let ns := normalizeComparableCommand storedQuery in
  let shared := overlap query storedQuery in
  (memoryQueryCompatible query storedQuery = true <->
     nq <> EmptyString /\ ns <> EmptyString
     /\ (nq = ns
         \/ (numericSet query = numericSet storedQuery
             /\ (2 <= shared
                 \/ (shared = 1
                     /\ ((length (memorySignalTokens query) = 1
                          /\ length (memorySignalTokens storedQuery) = 1)
                         \/ Contains ns nq = true \/ Contains nq ns = true))))))
  /\ (nq <> ns -> numericSet query <> numericSet storedQuery ->
      memoryQueryCompatible query storedQuery = false).
Proof.
  cbv zeta. unfold memoryQueryCompatible, overlap.
  rewrite numericGuard.
  set (nq := normalizeComparableCommand query).
  set (ns := normalizeComparableCommand storedQuery).
  set (qt := memorySignalTokens query).
  set (stt := memorySignalTokens storedQuery).
  assert (Hle : countShared qt stt <= length qt).
  { unfold countShared. apply List.filter_length_le. }
  set (shared := countShared qt stt) in *.
  destruct (isEmpty nq) eqn:Eq.
  { apply isEmpty_true in Eq. simpl. split; [|reflexivity].
    split; [discriminate|]. intros [H _]. now contradiction H. }
  destruct (isEmpty ns) eqn:Es.
  { apply isEmpty_true in Es. simpl. split; [|reflexivity].
    split; [discriminate|]. intros (_ & H & _). now contradiction H. }
  apply isEmpty_false in Eq, Es. simpl orb. cbv iota.
  destruct (String.eqb_spec nq ns) as [Hsame|Hdiff].
  { split; [|intros H; now contradiction H].
    split; [|reflexivity]. intros _. repeat split; try assumption. now left. }
  case_bool_decide as Hnum; simpl negb; cbv iota.
  2:{ split; [|reflexivity]. split; [discriminate|].
      intros (_ & _ & [H | [H _]]); congruence. }
  split; [|intros _ H; now contradiction H].
  destruct (Nat.eqb_spec (length qt) 0) as [Hq0|Hq0].
  { simpl. split; [discriminate|]. intros (_ & _ & [H | [_ H]]); [congruence|]. lia. }
  destruct (Nat.eqb_spec (length stt) 0) as [Hs0|Hs0].
  { simpl. split; [discriminate|].
    intros (_ & _ & [H | [_ H]]); [congruence|].
    assert (shared = 0); [|lia].
    unfold shared, countShared. destruct stt; [|discriminate]. simpl.
    clear. induction qt as [|t qt IH]; simpl; [reflexivity|].
    rewrite bool_decide_eq_false_2 by set_solver. exact IH. }
  simpl orb. cbv iota.
  destruct (Nat.eqb_spec shared 0) as [Hz|Hz].
  { split; [discriminate|]. intros (_ & _ & [H | [_ H]]); [congruence|]. lia. }
  destruct (Nat.leb_spec 2 shared) as [H2|H2].
  { split; [|reflexivity]. intros _. repeat split; try assumption. right. split; [assumption|].
    now left. }
  assert (H1 : shared = 1) by lia.
  rewrite H1. simpl (Nat.eqb 1 1). rewrite andb_true_r.
  destruct (Nat.eqb_spec (length qt) 1) as [Hq1|Hq1];
    destruct (Nat.eqb_spec (length stt) 1) as [Hs1|Hs1]; simpl andb; cbv iota.
  1:{ split; [|reflexivity]. intros _. repeat split; try assumption.
      right. split; [assumption|]. right. split; [reflexivity|]. now left. }
  all: rewrite orb_true_iff; split.
  all: try (intros Hc; repeat split; try assumption; right; split; [assumption|];
            right; split; [reflexivity|]; right; exact Hc).
  all: intros (_ & _ & [H | [_ [H | [_ [[? ?] | H]]]]]); try congruence; try lia; exact H.
Qed.

Lemma memoryQueryCompatible_spec_witness :
  memoryQueryCompatible "port 3000" "port 8000" = false.
Proof.
  apply (memoryQueryCompatible_spec "port 3000" "port 8000"); vm_compute; discriminate.
Defined.

(** C8 as stated fails in two ways: containment alone does not make two
    queries compatible when they share no signal token, and two queries that
    differ in one numeric token only are compatible when their sets of
    numeric tokens are equal. *)
Lemma memoryQueryCompatible_counterexample :
  (compatibleAsStated "dock" "docker ps" = true
   /\ memoryQueryCompatible "dock" "docker ps" = false)
  /\ memoryQueryCompatible ("xx 10 " +:+ "10" +:+ " 20") ("xx 10 " +:+ "20" +:+ " 20") = true.
Proof. repeat split; vm_compute; reflexivity. Qed.

End MemoryCompatProps.

(** ** The memory store *)

Module MemoryProps.
Import GoStrings GoStringsFacts QFacts ListFacts Memory MemorySpec.

(** *** The order of strings *)

Lemma compare_OT (a b : string) : String.compare a b = OrdersEx.String_as_OT.compare a b.
Proof.
  revert b. induction a as [|x a IH]; intros [|y b]; simpl; reflexivity.
Qed.

Lemma compare_Lt_trans (a b c : string) :
  String.compare a b = Lt -> String.compare b c = Lt -> String.compare a c = Lt.
Proof.
  rewrite !compare_OT. intros H1 H2.
  exact (StrictOrder_Transitive (R := OrdersEx.String_as_OT.lt) a b c H1 H2).
Qed.

Lemma ltb_asym (a b : string) : String.ltb a b = true -> String.ltb b a = false.
Proof.
  unfold String.ltb. rewrite (String.compare_antisym b a).
  destruct (String.compare a b); simpl; congruence.
Qed.

Lemma ltb_negtrans (a b c : string) :
  String.ltb a b = false -> String.ltb b c = false -> String.ltb a c = false.
Proof.
  unfold String.ltb. intros H1 H2.
  destruct (String.compare a c) eqn:Eac; try reflexivity. exfalso.
  destruct (String.compare a b) eqn:Eab; [|discriminate|].
  - apply String.compare_eq_iff in Eab. subst b. rewrite Eac in H2. discriminate.
  - destruct (String.compare b c) eqn:Ebc; [|discriminate|].
    + apply String.compare_eq_iff in Ebc. subst c. rewrite Eab in Eac. discriminate.
    + assert (Hca : String.compare c a = Gt)
        by (rewrite String.compare_antisym, Eac; reflexivity).
      assert (Hcb : String.compare c b = Lt)
        by (rewrite String.compare_antisym, Ebc; reflexivity).
      assert (Hba : String.compare b a = Lt)
        by (rewrite String.compare_antisym, Eab; reflexivity).
      rewrite (compare_Lt_trans c b a Hcb Hba) in Hca. discriminate.
Qed.

Lemma ltb_false_leb (a b : string) : String.ltb a b = false -> String.leb b a = true.
Proof.
  unfold String.ltb, String.leb. rewrite (String.compare_antisym b a).
  destruct (String.compare a b); simpl; congruence.
Qed.

(** *** The comparison function of [Store.normalize] *)

Lemma Qeq_bool_sym (a b : Q) : Qeq_bool a b = Qeq_bool b a.
Proof.
  destruct (Qeq_bool a b) eqn:E1, (Qeq_bool b a) eqn:E2; try reflexivity.
  - apply Qeq_bool_iff in E1. symmetry in E1. apply Qeq_bool_iff in E1. congruence.
  - apply Qeq_bool_iff in E2. symmetry in E2. apply Qeq_bool_iff in E2. congruence.
Qed.

Lemma entryLess_asym (a b : Entry) : entryLess a b = true -> entryLess b a = false.
Proof.
  unfold entryLess. rewrite (Qeq_bool_sym (Score b) (Score a)).
  destruct (Qeq_bool (Score a) (Score b)) eqn:E.
  - apply ltb_asym.
  - unfold Qgtb. rewrite Qltb_lt, Qltb_ge. apply Qlt_le_weak.
Qed.

Lemma Qeq_bool_dec (a b : Q) :
  (Qeq_bool a b = true /\ (a == b)%Q) \/ (Qeq_bool a b = false /\ ~ (a == b)%Q).
Proof.
  destruct (Qeq_bool a b) eqn:E.
  - left. split; [reflexivity|]. now apply Qeq_bool_iff.
  - right. split; [reflexivity|]. now apply Qeq_bool_neq.
Qed.

Lemma entryLess_negtrans (a b c : Entry) :
  entryLess a b = false -> entryLess b c = false -> entryLess a c = false.
Proof.
  unfold entryLess, Qgtb.
  destruct (Qeq_bool_dec (Score a) (Score b)) as [[-> Eab]|[-> Eab]];
    destruct (Qeq_bool_dec (Score b) (Score c)) as [[-> Ebc]|[-> Ebc]];
    destruct (Qeq_bool_dec (Score a) (Score c)) as [[-> Eac]|[-> Eac]];
    rewrite ?Qltb_ge; intros H1 H2.
  - eapply ltb_negtrans; eassumption.
  - exfalso. apply Eac. now rewrite Eab.
  - exfalso. apply Ebc. now rewrite <- Eab.
  - rewrite Eab. exact H2.
  - exfalso. apply Eab. now rewrite Eac.
  - rewrite <- Ebc. exact H1.
  - exfalso. apply Eab. apply Qle_antisym; [exact H1|]. rewrite Eac. exact H2.
  - eapply Qle_trans; eassumption.
Qed.

Lemma notAfter_ranksBefore (a b : Entry) :
  GoSortFacts.notAfter entryLess a b -> ranksBefore a b.
Proof.
  unfold GoSortFacts.notAfter, entryLess, ranksBefore, Qgtb.
  destruct (Qeq_bool (Score b) (Score a)) eqn:E.
  - apply Qeq_bool_iff in E. intros H. right. split; [now symmetry|].
    now apply ltb_false_leb.
  - apply Qeq_bool_neq in E. rewrite Qltb_ge. intros H. left.
    apply Qle_lt_or_eq in H. destruct H as [H|H]; [exact H|]. now contradiction E.
Qed.

(** *** [Store.normalize] *)

Lemma normalize_trim (x : string) : normalize (TrimSpace x) = normalize x.
Proof. unfold normalize. now rewrite TrimSpace_idem. Qed.

Lemma pairKey_cleaned (e : Entry) : pairKey (cleaned e) = pairKey e.
Proof.
  unfold cleaned, pairKey. destruct (Qltb (Score (trimEntry e)) 0); simpl;
    now rewrite !normalize_trim.
Qed.

Lemma Score_cleaned_nonneg (e : Entry) : (0 <= Score (cleaned e))%Q.
Proof.
  unfold cleaned. destruct (Qltb (Score (trimEntry e)) 0) eqn:E; simpl.
  - apply Qle_refl.
  - now apply Qltb_ge in E.
Qed.

Lemma Score_cleaned_pos (e : Entry) : (0 < Score e)%Q -> Score (cleaned e) = Score e.
Proof.
  intros H. unfold cleaned. simpl.
  destruct (Qltb (Score e) 0) eqn:E; [|reflexivity].
  apply Qltb_lt in E. exfalso. apply (Qlt_irrefl 0). eapply Qlt_trans; eassumption.
Qed.

Section NormalizeLoop.

Variable input : list Entry.

Lemma normalizeStep_kept (acc : list Entry * gset string) (e : Entry) :
  In e input -> kept input acc -> kept input (normalizeStep acc e).
Proof.
  intros Hin (Hnd & Hseen & Hall). unfold normalizeStep.
  destruct (isEmpty (Query (trimEntry e)) || isEmpty (Command (trimEntry e)));
    [now repeat split|].
  fold (cleaned e).
  case_bool_decide as Hk; [now repeat split|].
  split; [|split]; simpl.
  - rewrite map_app. simpl. apply NoDup_app. split; [exact Hnd|].
    split; [|apply NoDup_singleton].
    intros x Hx Hx'. apply list_elem_of_singleton in Hx'. subst x.
    apply Hk. rewrite Hseen. now apply elem_of_list_to_set.
  - rewrite Hseen, map_app, list_to_set_app_L. simpl.
    rewrite union_empty_r_L. apply union_comm_L.
  - apply Forall_app. split; [exact Hall|].
    constructor; [|constructor]. now exists e.
Qed.

Lemma normalizeLoop_kept (l : list Entry) (acc : list Entry * gset string) :
  (forall e, In e l -> In e input) -> kept input acc ->
  kept input (fold_left normalizeStep l acc).
Proof.
  revert acc. induction l as [|e l IH]; intros acc Hsub Hacc; simpl; [exact Hacc|].
  apply IH; [intros x Hx; apply Hsub; now right|].
  apply normalizeStep_kept; [apply Hsub; now left|exact Hacc].
Qed.

End NormalizeLoop.

Lemma normalizeStore_entries (s : Store) :
  exists out,
    Permutation (Entries (normalizeStore s)) out
    /\ NoDup (map entryKey out)
    /\ Forall (fun e' => exists e, In e (Entries s) /\ e' = cleaned e) out.
Proof.
  unfold normalizeStore. simpl.
  destruct (normalizeLoop_kept (Entries s) (Entries s) ([], ∅)) as (Hnd & _ & Hall).
  - auto.
  - split; [constructor|]. split; [reflexivity|constructor].
  - eexists. split; [apply GoSortFacts.Slice_Permutation|]. now split.
Qed.

Lemma normalizeStore_wellKept (s : Store) : wellKept (normalizeStore s).
Proof.
  destruct (normalizeStore_entries s) as (out & Hp & Hnd & Hall).
  split; [|split].
  - rewrite Hp. eapply NoDup_map_coarser; [|exact Hnd].
    intros x y Hxy. unfold pairKey in Hxy. unfold entryKey. now inversion Hxy.
  - unfold normalizeStore. simpl.
    eapply StronglySorted_weaken; [exact notAfter_ranksBefore|].
    apply GoSortFacts.Slice_sorted; [exact entryLess_asym|exact entryLess_negtrans].
  - rewrite Hp. eapply Forall_impl; [exact Hall|].
    intros e' (e & _ & ->). apply Score_cleaned_nonneg.
Qed.

Lemma normalizeStore_from (s : Store) (e' : Entry) :
  In e' (Entries (normalizeStore s)) -> exists e, In e (Entries s) /\ e' = cleaned e.
Proof.
  destruct (normalizeStore_entries s) as (out & Hp & _ & Hall).
  intros Hin. apply list_elem_of_In in Hin. rewrite Hp in Hin.
  rewrite Forall_forall in Hall. now apply Hall.
Qed.


(** *** The adjusting operations *)

Lemma entryIndexFrom_Some (entries : list Entry) (qn cn : string) (start idx : nat) :
  entryIndexFrom entries qn cn start = Some idx ->
  start <= idx
  /\ exists e, nth_error entries (idx - start) = Some e /\ pairKey e = (qn, cn).
Proof.
  revert start. induction entries as [|e entries IH]; intros start; simpl; [discriminate|].
  destruct (String.eqb_spec (normalize (Query e)) qn) as [Hq|Hq];
    destruct (String.eqb_spec (normalize (Command e)) cn) as [Hc|Hc]; simpl.
  1:{ intros [= <-]. split; [lia|]. rewrite Nat.sub_diag. exists e.
      split; [reflexivity|]. unfold pairKey. now rewrite Hq, Hc. }
  all: intros H; apply IH in H; destruct H as (Hle & e' & Hn & Hk);
    (split; [lia|]); exists e'; (split; [|exact Hk]);
    replace (idx - start) with (S (idx - S start)) by lia; exact Hn.
Qed.

Lemma entryIndexFrom_first (entries : list Entry) (qn cn : string) (start : nat) (old : Entry) :
  NoDup (map pairKey entries) -> In old entries -> pairKey old = (qn, cn) ->
  exists idx, entryIndexFrom entries qn cn start = Some idx
              /\ nth_error entries (idx - start) = Some old.
Proof.
  revert start. induction entries as [|e entries IH]; intros start Hnd Hin Hk;
    [contradiction|].
  simpl in Hnd. apply NoDup_cons in Hnd. destruct Hnd as [Hfresh Hnd].
  simpl. destruct Hin as [->|Hin].
  - unfold pairKey in Hk. injection Hk as Hq Hc. rewrite Hq, Hc, !String.eqb_refl. simpl.
    exists start. split; [reflexivity|]. now rewrite Nat.sub_diag.
  - destruct (String.eqb_spec (normalize (Query e)) qn) as [Hq|Hq];
      destruct (String.eqb_spec (normalize (Command e)) cn) as [Hc|Hc]; simpl.
    1:{ exfalso. apply Hfresh. apply list_elem_of_fmap. exists old.
        split; [|now apply list_elem_of_In].
        rewrite Hk. unfold pairKey. now rewrite Hq, Hc. }
    all: destruct (IH (S start) Hnd Hin Hk) as (idx & Hi & Hn); exists idx;
      (split; [exact Hi|]);
      pose proof (entryIndexFrom_Some _ _ _ _ _ Hi) as [Hle _];
      replace (idx - start) with (S (idx - S start)) by lia; exact Hn.
Qed.






Section AdjustFacts.

Variable now : string.




End AdjustFacts.






End MemoryProps.

(** ** The memory search *)

Module SearchProps.
Import GoStrings GoStringsFacts QFacts Memory MemorySpec SearchSpec MemoryCompatSpec.
Import ListFacts MemoryCompatProps MemoryProps.









Section WithClock.

Variable parseRFC3339 : string -> option Z.
Variable nowNanos : Z.



End WithClock.



End SearchProps.

(** ** The history store *)

Module HistoryProps.
Import GoStrings GoStringsFacts History HistorySpec.

Lemma newer_notNewer (e r : Entry) : newer e r = false <-> notNewer e r.
Proof.
  unfold newer, notNewer.
  rewrite orb_false_iff, andb_false_iff, Z.ltb_ge, Z.eqb_neq, Z.ltb_ge. lia.
Qed.

Lemma newer_true (e r : Entry) : newer e r = true -> notNewer r e.
Proof.
  unfold newer, notNewer.
  rewrite orb_true_iff, andb_true_iff, Z.ltb_lt, Z.eqb_eq, Z.ltb_lt. lia.
Qed.

Lemma notNewer_refl (e : Entry) : notNewer e e.
Proof. unfold notNewer. lia. Qed.

Lemma notNewer_trans (a b c : Entry) : notNewer a b -> notNewer b c -> notNewer a c.
Proof. unfold notNewer. lia. Qed.

Lemma notNewer_withCommand (e a : Entry) (cmd : string) :
  notNewer e (withCommand a cmd) <-> notNewer e a.
Proof. reflexivity. Qed.

Lemma dedupeStep_skip (m : gmap string Entry) (e : Entry) :
  ~ acceptable (stored e) -> dedupeStep m e = m.
Proof.
  unfold acceptable, dedupeStep, stored. intros H.
  destruct (isEmpty (normalizeHistoryCommand (Command e))) eqn:E1; [reflexivity|].
  destruct (isSensitiveCommand (normalizeHistoryCommand (Command e))) eqn:E2; [reflexivity|].
  destruct (isLikelyShellOutput (normalizeHistoryCommand (Command e))) eqn:E3; [reflexivity|].
  destruct (isInternalCommand (normalizeHistoryCommand (Command e))) eqn:E4; [reflexivity|].
  exfalso. apply H. apply isEmpty_false in E1. now repeat split.
Qed.

Lemma dedupeStep_keep (m : gmap string Entry) (e : Entry) :
  acceptable (stored e) ->
  dedupeStep m e =
    match m !! commandKey (stored e) with
    | None => <[commandKey (stored e) := withCommand e (stored e)]> m
    | Some current =>
        if newer (withCommand e (stored e)) current
        then <[commandKey (stored e) := withCommand e (stored e)]> m
        else m
    end.
Proof.
  unfold acceptable, dedupeStep, stored, commandKey. intros (H1 & H2 & H3 & H4).
  apply isEmpty_false in H1. now rewrite H1, H2, H3, H4.
Qed.

Lemma acceptable_dec (cmd : string) : acceptable cmd \/ ~ acceptable cmd.
Proof.
  unfold acceptable.
  destruct cmd as [|c cmd]; [right; intros [H _]; now apply H|].
  destruct (isSensitiveCommand (String c cmd)); [right; intros (_ & H & _); discriminate|].
  destruct (isLikelyShellOutput (String c cmd)); [right; intros (_ & _ & H & _); discriminate|].
  destruct (isInternalCommand (String c cmd)); [right; intros (_ & _ & _ & H); discriminate|].
  left. now repeat split.
Qed.

Lemma latestOf_step (seen : list Entry) (m : gmap string Entry) (e : Entry) :
  latestOf seen m -> latestOf (seen ++ [e]) (dedupeStep m e).
Proof.
  intros [Hval Hmax].
  destruct (acceptable_dec (stored e)) as [Hacc|Hrej].
  2:{ rewrite (dedupeStep_skip m e Hrej). split.
      - intros key r Hr. destruct (Hval key r Hr) as (Hk & Ha & e0 & He0 & Hr0).
        split; [exact Hk|]. split; [exact Ha|]. exists e0. split; [|exact Hr0].
        apply in_or_app. now left.
      - intros e0 He0 Ha0. apply in_app_or in He0. destruct He0 as [He0|[<-|[]]].
        + now apply Hmax.
        + now contradiction Hrej. }
  rewrite (dedupeStep_keep m e Hacc).
  set (key := commandKey (stored e)). set (entry := withCommand e (stored e)).
  assert (Hins : (forall r, m !! key = Some r -> notNewer r entry) ->
                 latestOf (seen ++ [e]) (<[key := entry]> m)).
  { intros Hold. split.
    - intros k r Hr. apply lookup_insert_Some in Hr.
      destruct Hr as [[<- <-]|[Hne Hr]].
      + split; [reflexivity|]. split; [exact Hacc|].
        exists e. split; [apply in_or_app; right; now left|reflexivity].
      + destruct (Hval k r Hr) as (Hk & Ha & e0 & He0 & Hr0).
        split; [exact Hk|]. split; [exact Ha|]. exists e0. split; [|exact Hr0].
        apply in_or_app. now left.
    - intros e0 He0 Ha0. apply in_app_or in He0. destruct He0 as [He0|[<-|[]]].
      + destruct (Hmax e0 He0 Ha0) as (r & Hr & Hle).
        destruct (decide (key = commandKey (stored e0))) as [Heq|Hne].
        * exists entry. rewrite <- Heq, lookup_insert_eq. split; [reflexivity|].
          rewrite <- Heq in Hr. eapply notNewer_trans; [exact Hle|now apply Hold].
        * exists r. rewrite lookup_insert_ne by exact Hne. now split.
      + exists entry. fold key. rewrite lookup_insert_eq. split; [reflexivity|].
        exact (notNewer_refl e). }
  destruct (m !! key) as [current|] eqn:Ecur.
  - destruct (newer entry current) eqn:En.
    + apply Hins. intros r [= <-]. now apply newer_true.
    + split.
      * intros k r Hr. destruct (Hval k r Hr) as (Hk & Ha & e0 & He0 & Hr0).
        split; [exact Hk|]. split; [exact Ha|]. exists e0. split; [|exact Hr0].
        apply in_or_app. now left.
      * intros e0 He0 Ha0. apply in_app_or in He0. destruct He0 as [He0|[<-|[]]].
        -- now apply Hmax.
        -- exists current. fold key. split; [exact Ecur|].
           apply newer_notNewer in En. exact En.
  - apply Hins. intros r [=].
Qed.

Lemma latestOf_loop (l seen : list Entry) (m : gmap string Entry) :
  latestOf seen m -> latestOf (seen ++ l) (fold_left dedupeStep l m).
Proof.
  revert seen m. induction l as [|e l IH]; intros seen m H; simpl.
  - now rewrite app_nil_r.
  - replace (seen ++ e :: l) with ((seen ++ [e]) ++ l) by now rewrite <- app_assoc.
    apply IH. now apply latestOf_step.
Qed.

Lemma latestOf_all (entries : list Entry) :
  latestOf entries (fold_left dedupeStep entries ∅).
Proof.
  apply (latestOf_loop entries [] ∅). split.
  - intros key r Hr. rewrite lookup_empty in Hr. discriminate.
  - intros e [].
Qed.

Lemma historyLess_asym (a b : Entry) : entryLess a b = true -> entryLess b a = false.
Proof.
  unfold entryLess.
  destruct (Z.eqb_spec (Timestamp a) (Timestamp b)) as [E|E];
    destruct (Z.eqb_spec (Timestamp b) (Timestamp a)) as [E'|E']; try congruence;
    rewrite Z.ltb_lt, Z.ltb_ge; lia.
Qed.

Lemma historyLess_negtrans (a b c : Entry) :
  entryLess a b = false -> entryLess b c = false -> entryLess a c = false.
Proof.
  unfold entryLess.
  destruct (Z.eqb_spec (Timestamp a) (Timestamp b));
    destruct (Z.eqb_spec (Timestamp b) (Timestamp c));
    destruct (Z.eqb_spec (Timestamp a) (Timestamp c));
    rewrite !Z.ltb_ge; lia.
Qed.

Lemma notAfter_notNewer (a b : Entry) :
  GoSortFacts.notAfter entryLess a b -> notNewer b a.
Proof.
  unfold GoSortFacts.notAfter, entryLess, notNewer.
  destruct (Z.eqb_spec (Timestamp b) (Timestamp a)); rewrite Z.ltb_ge; lia.
Qed.


Lemma numberStep_orders (l : list Entry) (acc : list Entry * Z) :
  acc.2 = Z.of_nat (length acc.1) ->
  map order acc.1 = map Z.of_nat (seq 0 (length acc.1)) ->
  let acc' := fold_left numberStep l acc in
  acc'.2 = Z.of_nat (length acc'.1)
  /\ map order acc'.1 = map Z.of_nat (seq 0 (length acc'.1)).
Proof.
  revert acc. induction l as [|e l IH]; intros acc Hn Ho; simpl; [now split|].
  apply IH; unfold numberStep; simpl.
  - rewrite length_app. simpl. lia.
  - rewrite length_app, map_app. simpl. rewrite Nat.add_1_r, seq_S, map_app. simpl.
    now rewrite Ho, Hn.
Qed.

Lemma collect_orders (files : list (option (list Entry))) :
  map order (collect files) = map Z.of_nat (seq 0 (length (collect files))).
Proof.
  unfold collect.
  assert (H : forall acc,
             acc.2 = Z.of_nat (length acc.1) ->
             map order acc.1 = map Z.of_nat (seq 0 (length acc.1)) ->
             let acc' := fold_left collectStep files acc in
             acc'.2 = Z.of_nat (length acc'.1)
             /\ map order acc'.1 = map Z.of_nat (seq 0 (length acc'.1))).
  { induction files as [|f files IH]; intros acc Hn Ho; simpl; [now split|].
    destruct f as [entries|]; simpl; [|now apply IH].
    destruct (numberStep_orders entries acc Hn Ho) as [Hn' Ho']. now apply IH. }
  apply (H ([], 0%Z)); reflexivity.
Qed.


End HistoryProps.

(** ** Facts about the matcher *)

Module RegexpFacts.
Import GoStrings GoStringsFacts Regexp Safety RedactSpec.

Lemma append_cons (c : ascii) (a b : string) : String c a +:+ b = String c (a +:+ b).
Proof. reflexivity. Qed.

Lemma append_nil_l (b : string) : EmptyString +:+ b = b.
Proof. reflexivity. Qed.

Lemma append_nil_r (s : string) : s +:+ EmptyString = s.
Proof. induction s as [|c s IH]; [reflexivity|]. now rewrite append_cons, IH. Qed.

Lemma append_assoc (a b c : string) : (a +:+ b) +:+ c = a +:+ (b +:+ c).
Proof. induction a as [|x a IH]; [reflexivity|]. now rewrite !append_cons, IH. Qed.

Lemma length_append (a b : string) :
  String.length (a +:+ b) = String.length a + String.length b.
Proof. induction a as [|x a IH]; [reflexivity|]. rewrite append_cons. simpl. now rewrite IH. Qed.

Lemma substring_prefix (a b : string) : String.substring 0 (String.length a) (a +:+ b) = a.
Proof.
  induction a as [|x a IH].
  - destruct b; reflexivity.
  - rewrite append_cons. simpl. now rewrite IH.
Qed.

Lemma allBytes_append (p : ascii -> bool) (a b : string) :
  allBytes p (a +:+ b) = allBytes p a && allBytes p b.
Proof.
  induction a as [|x a IH]; [reflexivity|].
  rewrite append_cons. simpl. now rewrite IH, andb_assoc.
Qed.

Lemma allBytes_impl (p q : ascii -> bool) (s : string) :
  (forall c, p c = true -> q c = true) -> allBytes p s = true -> allBytes q s = true.
Proof.
  intros Hpq. induction s as [|c s IH]; simpl; [reflexivity|].
  rewrite !andb_true_iff. intros [Hc Hs]. split; [now apply Hpq|now apply IH].
Qed.

Lemma lastOr_append (pv : option ascii) (a b : string) :
  lastOr pv (a +:+ b) = lastOr (lastOr pv a) b.
Proof.
  revert pv. induction a as [|x a IH]; intros pv; [reflexivity|].
  rewrite append_cons. simpl. apply IH.
Qed.

(** A greedy star reads a whole run of bytes of its class when what follows
    then succeeds. *)
Lemma star_greedy {A : Type} (p : ascii -> bool) (k : state -> option A)
    (s1 s2 : string) (x : A) :
  allBytes p s1 = true ->
  forall pv n cs,
    k (mkState (lastOr pv s1) (n + String.length s1) s2 cs) = Some x ->
    match s2 with EmptyString => True | String c _ => p c = false end ->
    star p k pv n cs (s1 +:+ s2) = Some x.
Proof.
  induction s1 as [|c s1 IH]; [rewrite append_nil_l|rewrite append_cons]; simpl;
    intros Hall pv n cs Hk Hs2.
  - rewrite Nat.add_0_r in Hk. destruct s2 as [|d s2]; simpl; [exact Hk|].
    now rewrite Hs2.
  - apply andb_true_iff in Hall. destruct Hall as [Hc Hall]. rewrite Hc.
    rewrite (IH Hall (Some c) (S n) cs); [reflexivity| |exact Hs2].
    now replace (S n + String.length s1) with (n + S (String.length s1)) by lia.
Qed.

(** When a star fails, what follows it fails after every run it can read. *)
Lemma star_complete {A : Type} (p : ascii -> bool) (k : state -> option A)
    (a b : string) :
  allBytes p a = true ->
  forall pv n cs,
    star p k pv n cs (a +:+ b) = None ->
    k (mkState (lastOr pv a) (n + String.length a) b cs) = None.
Proof.
  induction a as [|c a IH]; [rewrite append_nil_l|rewrite append_cons]; simpl;
    intros Hall pv n cs Hstar.
  - rewrite Nat.add_0_r. destruct b as [|d b]; simpl in Hstar; [exact Hstar|].
    destruct (p d); [|exact Hstar].
    destruct (star p k (Some d) (S n) cs b); [discriminate|exact Hstar].
  - apply andb_true_iff in Hall. destruct Hall as [Hc Hall]. rewrite Hc in Hstar.
    destruct (star p k (Some c) (S n) cs (a +:+ b)) eqn:E; [discriminate|].
    replace (n + S (String.length a)) with (S n + String.length a) by lia.
    now apply IH.
Qed.

Section Clean.

(** Inputs without a byte of the class [q]. *)
Variable q : ascii -> bool.

Lemma star_none {A : Type} (p : ascii -> bool) (k : state -> option A) :
  (forall st, clean q (rest st) = true -> k st = None) ->
  forall s pv n cs, clean q s = true -> star p k pv n cs s = None.
Proof.
  intros Hk. induction s as [|c s IH]; intros pv n cs Hs; simpl.
  - now apply Hk.
  - assert (Htail : clean q s = true) by (simpl in Hs; now apply andb_true_iff in Hs).
    rewrite (IH (Some c) (S n) cs Htail).
    destruct (p c); now apply Hk.
Qed.

Lemma run_none {A : Type} (r : re) :
  forall k : state -> option A,
    (forall st, clean q (rest st) = true -> k st = None) ->
    forall st, clean q (rest st) = true -> run r k st = None.
Proof.
  induction r as [|p|r1 IH1 r2 IH2|r1 IH1 r2 IH2|p|n r IH| | |]; intros k Hk st Hst; simpl.
  - now apply Hk.
  - destruct (rest st) as [|c s'] eqn:E; [reflexivity|].
    destruct (p c); [|reflexivity]. apply Hk. simpl.
    simpl in Hst. now apply andb_true_iff in Hst.
  - apply IH1; [|exact Hst]. intros st' Hst'. now apply IH2.
  - rewrite (IH1 k Hk st Hst). now apply IH2.
  - now apply star_none.
  - apply IH; [|exact Hst]. intros st' Hst'. now apply Hk.
  - destruct (xorb _ _); [now apply Hk|reflexivity].
  - destruct (prev st); [reflexivity|now apply Hk].
  - destruct (isEmpty (rest st)); [now apply Hk|reflexivity].
Qed.

Lemma allAscii_complete (c : ascii) : In c allAscii.
Proof.
  unfold allAscii. rewrite <- (ascii_nat_embedding c).
  apply in_map, in_seq. pose proof (nat_ascii_bounded c). lia.
Qed.

Lemma needs_sound {A : Type} (r : re) :
  needs q r = true ->
  forall (k : state -> option A) st, clean q (rest st) = true -> run r k st = None.
Proof.
  induction r as [|p|r1 IH1 r2 IH2|r1 IH1 r2 IH2|p|n r IH| | |]; cbn [needs run];
    try discriminate.
  - intros Hp k st Hst.
    destruct (rest st) as [|c s'] eqn:E; [reflexivity|].
    destruct (p c) eqn:Epc; [|reflexivity]. exfalso.
    rewrite forallb_forall in Hp. specialize (Hp c (allAscii_complete c)).
    rewrite Epc in Hp. simpl in Hp. unfold RedactSpec.clean in Hst.
    simpl in Hst. rewrite Hp in Hst. discriminate.
  - intros H k st Hst. apply orb_true_iff in H. destruct H as [H|H].
    + now apply IH1.
    + apply run_none; [|exact Hst]. intros st' Hst'. now apply IH2.
  - intros H k st Hst. apply andb_true_iff in H. destruct H as [H1 H2].
    rewrite (IH1 H1 k st Hst). now apply IH2.
  - intros H k st Hst. now apply IH.
Qed.

(** A pattern that needs a byte of [q] leaves an input without such bytes
    as it is. *)
Lemma scan_clean (r : re) (template : list titem) :
  needs q r = true ->
  forall s pv afterMatch, clean q s = true -> render template (scan r pv s 0 afterMatch) = s.
Proof.
  intros Hr. induction s as [|c s IH]; intros pv afterMatch Hs; simpl.
  - unfold matchHere. now rewrite (needs_sound r Hr).
  - unfold matchHere. rewrite (needs_sound r Hr) by exact Hs. simpl.
    simpl in Hs. apply andb_true_iff in Hs. now rewrite IH.
Qed.

Lemma ReplaceAllString_clean (r : re) (template : list titem) (s : string) :
  needs q r = true -> clean q s = true -> ReplaceAllString r s template = s.
Proof. intros Hr Hs. unfold ReplaceAllString, allPieces. now apply scan_clean. Qed.

End Clean.

(** Passing over a match that ends where the input ends. *)
Lemma scan_skip_all (r : re) (s : string) :
  (forall pv, matchHere r pv EmptyString = None) ->
  forall pv, scan r pv s (String.length s) true = [].
Proof.
  intros Hr. induction s as [|c s IH]; intros pv; simpl.
  - now rewrite Hr.
  - apply IH.
Qed.

(** A match of the whole input is the only piece. *)
Lemma allPieces_whole (r : re) (s : string) (final : state) :
  (forall pv, matchHere r pv EmptyString = None) ->
  matchHere r None s = Some final ->
  consumed final = String.length s ->
  s <> EmptyString ->
  allPieces r s = [Matched s final].
Proof.
  intros Hr Hm Hlen Hne. unfold allPieces.
  destruct s as [|c s]; [now contradiction Hne|].
  simpl scan. rewrite Hm, Hlen. simpl String.length. cbv iota.
  rewrite (scan_skip_all r s Hr). f_equal. f_equal.
  change (String c (String.substring 0 (String.length s) s) = String c s).
  f_equal. pose proof (substring_prefix s EmptyString) as H.
  now rewrite append_nil_r in H.
Qed.

Lemma run_complete {A : Type} (r : re) (w : string) :
  matches r w ->
  forall (k : state -> option A) pv n cs rest',
    k (mkState (lastOr pv w) (n + String.length w) rest' cs) <> None ->
    run r k (mkState pv n (w +:+ rest') cs) <> None.
Proof.
  induction 1 as [|p c Hc|r1 r2 w1 w2 H1 IH1 H2 IH2|r1 r2 w H1 IH1|r1 r2 w H2 IH2];
    intros k pv n cs rest' Hk.
  - simpl in *. now rewrite Nat.add_0_r in Hk.
  - cbn [run rest]. rewrite append_cons, append_nil_l. rewrite Hc. cbn [consumed caps].
    simpl in Hk. now rewrite Nat.add_1_r in Hk.
  - cbn [run]. rewrite append_assoc. apply IH1. apply IH2.
    now rewrite lastOr_append, length_append, Nat.add_assoc in Hk.
  - cbn [run]. specialize (IH1 k pv n cs rest' Hk).
    destruct (run r1 k (mkState pv n (w +:+ rest') cs)); [discriminate|now contradiction IH1].
  - cbn [run]. destruct (run r1 k (mkState pv n (w +:+ rest') cs)); [discriminate|].
    now apply IH2.
Qed.


Lemma ToLower_length (a : string) : String.length (ToLower a) = String.length a.
Proof. induction a as [|c a IH]; simpl; [reflexivity|now rewrite IH]. Qed.

Lemma HasPrefix_split (s p : string) :
  HasPrefix s p = true -> exists b, s = p +:+ b.
Proof.
  revert s. induction p as [|c p IH]; intros s H; simpl in H.
  - now exists s.
  - destruct s as [|d s]; [discriminate|].
    apply andb_true_iff in H. destruct H as [Hc Hp].
    apply Ascii.eqb_eq in Hc. subst d. destruct (IH s Hp) as [b ->]. now exists b.
Qed.

Lemma Contains_unfold (s w : string) :
  Contains s w = HasPrefix s w || match s with
                                  | EmptyString => false
                                  | String _ s' => Contains s' w
                                  end.
Proof. destruct s; reflexivity. Qed.

Lemma Contains_split (s w : string) :
  Contains s w = true -> exists a b, s = a +:+ w +:+ b.
Proof.
  induction s as [|c s IH]; rewrite Contains_unfold; intros H.
  - rewrite orb_false_r in H. apply HasPrefix_split in H. destruct H as [b Hb].
    exists EmptyString, b. exact Hb.
  - apply orb_true_iff in H. destruct H as [H|H].
    + apply HasPrefix_split in H. destruct H as [b Hb]. exists EmptyString, b. exact Hb.
    + destruct (IH H) as (a & b & ->). exists (String c a), b. reflexivity.
Qed.

Lemma append_split_lower (s a b : string) :
  ToLower s = a +:+ b ->
  exists s1 s2, s = s1 +:+ s2 /\ ToLower s1 = a /\ ToLower s2 = b.
Proof.
  revert s. induction a as [|c a IH]; intros s H.
  - exists EmptyString, s. now repeat split.
  - destruct s as [|d s]; [discriminate|]. rewrite append_cons in H. simpl in H.
    injection H as Hd Hs. destruct (IH s Hs) as (s1 & s2 & -> & H1 & H2).
    exists (String d s1), s2. repeat split; [|exact H2]. simpl. now rewrite Hd, H1.
Qed.

Lemma matches_litFold (w W : string) :
  ToLower W = ToLower w -> matches (litFold w) W.
Proof.
  revert W. induction w as [|c w IH]; intros W H.
  - destruct W; [constructor|discriminate].
  - destruct W as [|d W]; [discriminate|]. simpl in H. injection H as Hd HW.
    assert (Hc : ascii_eqb (toLowerByte d) (toLowerByte c) = true)
      by (now apply Ascii.eqb_eq).
    destruct w as [|c' w].
    + destruct W; [|discriminate]. now apply (matches_chr _ d).
    + change (litFold (String c (String c' w)))
        with (Cat (byteFold c) (litFold (String c' w))).
      change (String d W) with (String d EmptyString +:+ W).
      apply matches_cat; [now apply (matches_chr _ d)|now apply IH].
Qed.

Lemma underscore_join (W : string) : ToLower W = "_" -> matches (Chr joinByte) W.
Proof.
  destruct W as [|c W]; [discriminate|]. destruct W; [|discriminate].
  simpl. intros [= H]. apply matches_chr.
  destruct c as [[] [] [] [] [] [] [] []]; try discriminate H; reflexivity.
Qed.

Lemma matches_joined (a b W : string) :
  ToLower W = ToLower a +:+ "_" +:+ ToLower b \/ ToLower W = ToLower a +:+ ToLower b ->
  matches (seq [litFold a; opt (Chr joinByte); litFold b]) W.
Proof.
  change (seq [litFold a; opt (Chr joinByte); litFold b])
    with (Cat (litFold a) (Cat (Alt (Chr joinByte) Eps) (litFold b))).
  intros [H|H].
  - apply append_split_lower in H. destruct H as (W1 & W23 & -> & H1 & H23).
    apply append_split_lower in H23. destruct H23 as (W2 & W3 & -> & H2 & H3).
    apply matches_cat; [now apply matches_litFold|].
    apply matches_cat; [|now apply matches_litFold].
    apply matches_alt_l. now apply underscore_join.
  - apply append_split_lower in H. destruct H as (W1 & W3 & -> & H1 & H3).
    apply matches_cat; [now apply matches_litFold|].
    rewrite <- (append_nil_l W3).
    apply matches_cat; [|now apply matches_litFold].
    apply matches_alt_r. constructor.
Qed.

Lemma matches_sensitiveWord (w W : string) :
  In w keyWords -> ToLower W = w -> matches sensitiveWord W.
Proof.
  unfold sensitiveWord.
  change (alts [litFold "token"; litFold "secret"; litFold "password"; litFold "passwd";
                seq [litFold "api"; opt (Chr joinByte); litFold "key"];
                seq [litFold "access"; opt (Chr joinByte); litFold "key"]])
    with (Alt (litFold "token") (Alt (litFold "secret") (Alt (litFold "password")
          (Alt (litFold "passwd")
               (Alt (seq [litFold "api"; opt (Chr joinByte); litFold "key"])
                    (seq [litFold "access"; opt (Chr joinByte); litFold "key"])))))).
  intros Hin HW. simpl in Hin.
  destruct Hin as [<-|[<-|[<-|[<-|[<-|[<-|[<-|[<-|[]]]]]]]]].
  - apply matches_alt_l. now apply matches_litFold.
  - apply matches_alt_r, matches_alt_l. now apply matches_litFold.
  - apply matches_alt_r, matches_alt_r, matches_alt_l. now apply matches_litFold.
  - apply matches_alt_r, matches_alt_r, matches_alt_r, matches_alt_l.
    now apply matches_litFold.
  - do 4 apply matches_alt_r. apply matches_alt_l. apply matches_joined. now left.
  - do 4 apply matches_alt_r. apply matches_alt_l. apply matches_joined. now right.
  - do 5 apply matches_alt_r. apply matches_joined. now left.
  - do 5 apply matches_alt_r. apply matches_joined. now right.
Qed.

End RegexpFacts.

(** ** The redactor *)

Module SafetyProps.
Import GoStrings GoStringsFacts Regexp Safety RedactSpec RegexpFacts.

Lemma bare_not_space (c : ascii) : bareByte c = true -> reSpace c = false.
Proof.
  unfold bareByte. rewrite negb_true_iff, !orb_false_iff. tauto.
Qed.

Lemma secretValue_alts :
  secretValue
  = Alt (Cat (Chr bareByte) (Star bareByte))
        (Alt (Cat (byte DQUOTE)
                  (Cat (Star (fun c => negb (ascii_eqb c DQUOTE))) (byte DQUOTE)))
             (Cat (byte SQUOTE)
                  (Cat (Star (fun c => negb (ascii_eqb c SQUOTE))) (byte SQUOTE)))).
Proof. reflexivity. Qed.

Lemma assignmentTail_parts :
  assignmentTail
  = Cat (Star reSpace) (Cat (byte "=") (Cat (Star reSpace) (Group 2 secretValue))).
Proof. reflexivity. Qed.

Lemma substring_whole (s : string) : String.substring 0 (String.length s) s = s.
Proof.
  pose proof (substring_prefix s EmptyString) as H. now rewrite append_nil_r in H.
Qed.

(** The rest of the first pattern reads a bare value to its end. *)
Lemma tailReads_bare (value : string) : bareValue value = true -> tailReads value.
Proof.
  unfold bareValue. rewrite andb_true_iff, negb_true_iff.
  intros [Hne Hv] pv n cs.
  destruct value as [|v0 value']; [discriminate Hne|].
  simpl in Hv. apply andb_true_iff in Hv. destruct Hv as [Hv0 Hv'].
  rewrite assignmentTail_parts.
  cbn [run star prev consumed rest caps].
  change (reSpace "=") with false. cbv iota.
  cbn [run byte rest]. change (ascii_eqb "=" "=") with true. cbv iota.
  cbn [run star prev consumed rest caps].
  rewrite (bare_not_space v0 Hv0). rewrite secretValue_alts.
  cbn [run rest prev consumed caps]. rewrite Hv0.
  rewrite <- (append_nil_r value') at 1.
  erewrite star_greedy; [reflexivity|exact Hv'| |exact I].
  cbn [prev consumed rest caps lastOr].
  replace (S (S n) + String.length value' - S n)
    with (String.length (String v0 value')) by (simpl; lia).
  replace (S (S n) + String.length value')
    with (n + S (String.length (String v0 value'))) by (simpl; lia).
  now rewrite substring_whole.
Qed.

Lemma lastOr_quoted (pv : option ascii) (q : ascii) (body : string) :
  lastOr pv (quoted q body) = Some q.
Proof. unfold quoted. simpl. now rewrite lastOr_append. Qed.

Lemma length_quoted (q : ascii) (body : string) :
  String.length (quoted q body) = S (S (String.length body)).
Proof. unfold quoted. simpl. rewrite length_append. simpl. lia. Qed.

(** The rest of the first pattern reads a double-quoted value to its end. *)
Lemma tailReads_double (body : string) :
  quoteFree DQUOTE body = true -> tailReads (quoted DQUOTE body).
Proof.
  intros Hb pv n cs. rewrite lastOr_quoted, length_quoted.
  rewrite assignmentTail_parts. unfold quoted.
  cbn [run star prev consumed rest caps].
  change (reSpace "=") with false. cbv iota.
  cbn [run byte rest]. change (ascii_eqb "=" "=") with true. cbv iota.
  cbn [run star prev consumed rest caps].
  change (reSpace DQUOTE) with false. cbv iota. rewrite secretValue_alts.
  cbn [run rest prev consumed caps byte].
  change (bareByte DQUOTE) with false. cbv iota.
  change (ascii_eqb DQUOTE DQUOTE) with true. cbv iota.
  erewrite star_greedy; [reflexivity|exact Hb| |reflexivity].
  cbn [run rest prev consumed caps].
  change (ascii_eqb DQUOTE DQUOTE) with true. cbv iota. cbn [prev consumed rest caps].
  replace (S (S (S n) + String.length body) - S n)
    with (String.length (quoted DQUOTE body)) by (rewrite length_quoted; lia).
  replace (S (S (S n) + String.length body))
    with (n + S (S (S (String.length body)))) by lia.
  unfold quoted. now rewrite substring_whole.
Qed.

(** The rest of the first pattern reads a single-quoted value to its end. *)
Lemma tailReads_single (body : string) :
  quoteFree SQUOTE body = true -> tailReads (quoted SQUOTE body).
Proof.
  intros Hb pv n cs. rewrite lastOr_quoted, length_quoted.
  rewrite assignmentTail_parts. unfold quoted.
  cbn [run star prev consumed rest caps].
  change (reSpace "=") with false. cbv iota.
  cbn [run byte rest]. change (ascii_eqb "=" "=") with true. cbv iota.
  cbn [run star prev consumed rest caps].
  change (reSpace SQUOTE) with false. cbv iota. rewrite secretValue_alts.
  cbn [run rest prev consumed caps byte].
  change (bareByte SQUOTE) with false. cbv iota.
  change (ascii_eqb SQUOTE DQUOTE) with false. cbv iota.
  change (ascii_eqb SQUOTE SQUOTE) with true. cbv iota.
  erewrite star_greedy; [reflexivity|exact Hb| |reflexivity].
  cbn [run rest prev consumed caps].
  change (ascii_eqb SQUOTE SQUOTE) with true. cbv iota. cbn [prev consumed rest caps].
  replace (S (S (S n) + String.length body) - S n)
    with (String.length (quoted SQUOTE body)) by (rewrite length_quoted; lia).
  replace (S (S (S n) + String.length body))
    with (n + S (S (S (String.length body)))) by lia.
  unfold quoted. now rewrite substring_whole.
Qed.

Lemma valueShape_tailReads (value : string) : valueShape value -> tailReads value.
Proof.
  intros [H|[(body & Hb & ->)|(body & Hb & ->)]].
  - now apply tailReads_bare.
  - now apply tailReads_double.
  - now apply tailReads_single.
Qed.

Section Assignment.

Variables (key value : string).
Hypothesis key_bytes : allBytes keyByte key = true.
Hypothesis key_word : containsAnyOf (ToLower key) keyWords = true.
Hypothesis value_read : tailReads value.

Lemma closeKey_end (pv : option ascii) :
  closeKey key value (mkState pv (String.length key) (String "=" value) [])
  = Some (assignmentFinal key value).
Proof.
  unfold closeKey. cbn [prev consumed rest caps]. rewrite Nat.sub_0_r.
  unfold assignmentInput. rewrite substring_prefix. apply value_read.
Qed.

Lemma inside_tail (st : state) (k1 k2 : string) :
  key = k1 +:+ k2 -> allBytes keyByte k2 = true.
Proof.
  intros E. pose proof key_bytes as H. rewrite E, allBytes_append in H.
  now apply andb_true_iff in H.
Qed.

Lemma afterWord (st : state) :
  inside key value st -> run (Star keyByte) (closeKey key value) st = Some (assignmentFinal key value).
Proof.
  intros (Hc & k1 & k2 & Hk & Hn & Hr). cbn [run]. rewrite Hc, Hn, Hr.
  apply star_greedy; [exact (inside_tail st k1 k2 Hk)| |reflexivity].
  rewrite <- length_append, <- Hk. apply closeKey_end.
Qed.

Lemma inside_step (st : state) (c : ascii) (s' : string) (k1 k2 : string) :
  caps st = [] -> key = k1 +:+ String c k2 -> consumed st = String.length k1 ->
  inside key value (mkState (Some c) (S (consumed st)) (k2 +:+ String "=" value) (caps st)).
Proof.
  intros Hc Hk Hn. split; [exact Hc|].
  exists (k1 +:+ String c EmptyString), k2. cbn [consumed rest].
  split; [now rewrite append_assoc|]. split; [|reflexivity].
  rewrite length_append, Hn. simpl. lia.
Qed.

Lemma plain_agree (r : re) :
  plain r = true ->
  forall k : state -> option state,
    (forall st, inside key value st ->
                k st = None \/ k st = Some (assignmentFinal key value)) ->
    forall st, inside key value st ->
               run r k st = None \/ run r k st = Some (assignmentFinal key value).
Proof.
  induction r as [|p|r1 IH1 r2 IH2|r1 IH1 r2 IH2|p|n r IH| | |]; cbn [plain run];
    try discriminate; intros Hp k Hk st Hst.
  - now apply Hk.
  - destruct Hst as (Hc & k1 & k2 & Hkey & Hn & Hr). rewrite Hr.
    destruct k2 as [|c k2].
    + rewrite append_nil_l. apply negb_true_iff in Hp. rewrite Hp. now left.
    + rewrite append_cons. destruct (p c); [|now left].
      apply Hk. now apply (inside_step st c k2 k1 k2).
  - apply andb_true_iff in Hp. destruct Hp as [Hp1 Hp2].
    apply IH1; [exact Hp1| |exact Hst]. intros st' Hst'. now apply IH2.
  - apply andb_true_iff in Hp. destruct Hp as [Hp1 Hp2].
    destruct (IH1 Hp1 k Hk st Hst) as [E|E]; rewrite E; [now apply IH2|now right].
Qed.

Lemma star_agree (k : state -> option state) :
  (forall st, inside key value st ->
              k st = None \/ k st = Some (assignmentFinal key value)) ->
  forall k2 k1 pv,
    key = k1 +:+ k2 ->
    let result := star keyByte k pv (String.length k1) [] (k2 +:+ String "=" value) in
    result = None \/ result = Some (assignmentFinal key value).
Proof.
  intros Hk. induction k2 as [|c k2 IH]; intros k1 pv Hkey; cbv zeta.
  - rewrite append_nil_l. cbn [star]. change (keyByte "=") with false. cbv iota.
    apply Hk. split; [reflexivity|]. exists k1, EmptyString. now repeat split.
  - rewrite append_cons. cbn [star].
    assert (Hhere : inside key value
                      (mkState pv (String.length k1) (String c (k2 +:+ String "=" value)) [])).
    { split; [reflexivity|]. exists k1, (String c k2). now repeat split. }
    destruct (keyByte c); [|now apply Hk].
    specialize (IH (k1 +:+ String c EmptyString) (Some c)).
    rewrite length_append in IH. simpl in IH. rewrite Nat.add_1_r in IH.
    destruct IH as [E|E]; [now rewrite append_assoc|rewrite E; now apply Hk|rewrite E; now right].
Qed.

Lemma key_split :
  exists k1 w k2, key = k1 +:+ w +:+ k2 /\ matches sensitiveWord w.
Proof.
  pose proof key_word as H. unfold containsAnyOf in H. apply existsb_exists in H.
  destruct H as (word & Hin & Hc). apply Contains_split in Hc.
  destruct Hc as (a & b & Hab).
  apply append_split_lower in Hab. destruct Hab as (k1 & k23 & Hk & _ & H23).
  apply append_split_lower in H23. destruct H23 as (w & k2 & -> & Hw & _).
  exists k1, w, k2. split; [exact Hk|]. now apply (matches_sensitiveWord word).
Qed.

Lemma keyPattern_run :
  run keyPattern (closeKey key value) (mkState None 0 (assignmentInput key value) [])
  = Some (assignmentFinal key value).
Proof.
  change keyPattern with (Cat (Star keyByte) (Cat sensitiveWord (Star keyByte))).
  cbn [run prev consumed rest caps].
  set (k1 := fun st1 : state =>
               run sensitiveWord (fun st2 => run (Star keyByte) (closeKey key value) st2) st1).
  assert (Hk1 : forall st, inside key value st ->
                           k1 st = None \/ k1 st = Some (assignmentFinal key value)).
  { intros st Hst. unfold k1. apply plain_agree; [reflexivity| |exact Hst].
    intros st' Hst'. right. now apply afterWord. }
  destruct (star_agree k1 Hk1 key EmptyString None eq_refl) as [E|E]; [|exact E].
  exfalso. destruct key_split as (a & w & b & Hkey & Hw).
  assert (Ha : allBytes keyByte a = true).
  { pose proof key_bytes as H. rewrite Hkey, allBytes_append in H.
    now apply andb_true_iff in H. }
  cbv zeta in E. simpl String.length in E. rewrite Hkey in E at 1.
  rewrite append_assoc in E.
  apply (star_complete keyByte k1 a _ Ha) in E.
  revert E. unfold k1. rewrite append_assoc. apply run_complete; [exact Hw|].
  rewrite afterWord; [discriminate|].
  split; [reflexivity|]. exists (a +:+ w), b. cbn [consumed rest].
  split; [now rewrite append_assoc|]. split; [|reflexivity].
  now rewrite length_append.
Qed.

Lemma key_head : exists c k', key = String c k' /\ isWordByte c = true.
Proof.
  pose proof key_word as Hw. pose proof key_bytes as Hb.
  destruct key as [|c k']; [discriminate Hw|].
  exists c, k'. split; [reflexivity|].
  simpl in Hb. now apply andb_true_iff in Hb.
Qed.

Lemma assignmentRule_empty (pv : option ascii) :
  matchHere (pattern assignmentRule) pv EmptyString = None.
Proof. destruct pv as [c|]; [destruct (isWordByte c) eqn:E|]; unfold matchHere;
  cbn; rewrite ?E; reflexivity. Qed.

Lemma assignmentRule_match :
  matchHere (pattern assignmentRule) None (assignmentInput key value)
  = Some (assignmentFinal key value).
Proof.
  unfold matchHere.
  change (pattern assignmentRule)
    with (Cat WordBoundary (Cat (Group 1 keyPattern) assignmentTail)).
  cbn [run prev rest consumed caps].
  destruct key_head as (c & k' & Hkey & Hc).
  unfold assignmentInput at 1. rewrite Hkey at 1. rewrite append_cons.
  cbn [peek isWordOpt]. rewrite Hc. cbn [xorb].
  exact keyPattern_run.
Qed.

Lemma assignmentRule_replace :
  applyRule (assignmentInput key value) assignmentRule = key +:+ "=<redacted>".
Proof.
  unfold applyRule, ReplaceAllString.
  rewrite (allPieces_whole _ _ (assignmentFinal key value)).
  - cbn. now rewrite !append_nil_r.
  - exact assignmentRule_empty.
  - exact assignmentRule_match.
  - unfold assignmentFinal, assignmentInput. cbn [consumed].
    now rewrite length_append.
  - unfold assignmentInput. destruct key; discriminate.
Qed.

End Assignment.

Lemma key_no_separator (c : ascii) : keyByte c = true -> negb (separatorByte c) = true.
Proof.
  destruct c as [[] [] [] [] [] [] [] []]; intros H; try discriminate H; reflexivity.
Qed.

Lemma redacted_clean (key : string) :
  allBytes keyByte key = true -> clean separatorByte (key +:+ "=<redacted>") = true.
Proof.
  intros H. unfold clean. rewrite allBytes_append. apply andb_true_iff. split.
  - eapply allBytes_impl; [exact key_no_separator|exact H].
  - reflexivity.
Qed.

Lemma later_rule_keeps (rule : redactionRule) (key : string) :
  needs separatorByte (pattern rule) = true ->
  allBytes keyByte key = true ->
  applyRule (key +:+ "=<redacted>") rule = key +:+ "=<redacted>".
Proof.
  intros Hr Hk. unfold applyRule.
  apply (ReplaceAllString_clean separatorByte); [exact Hr|now apply redacted_clean].
Qed.




End SafetyProps.

(** * Further properties of the code *)

(** ** Facts about the string functions *)

Module StringFacts.
Import GoStrings GoStringsFacts RegexpFacts.

Lemma toLowerByte_idem (c : ascii) : toLowerByte (toLowerByte c) = toLowerByte c.
Proof. destruct c as [[] [] [] [] [] [] [] []]; reflexivity. Qed.

Lemma isSpace_toLowerByte (c : ascii) : isSpace (toLowerByte c) = isSpace c.
Proof. destruct c as [[] [] [] [] [] [] [] []]; reflexivity. Qed.

Lemma ToLower_idem (s : string) : ToLower (ToLower s) = ToLower s.
Proof. induction s as [|c s IH]; simpl; [reflexivity|]. now rewrite toLowerByte_idem, IH. Qed.

Lemma TrimLeftFunc_ToLower (s : string) :
  TrimLeftFunc (ToLower s) isSpace = ToLower (TrimLeftFunc s isSpace).
Proof.
  induction s as [|c s IH]; simpl; [reflexivity|].
  rewrite isSpace_toLowerByte. now destruct (isSpace c).
Qed.

Lemma TrimRightFunc_ToLower (s : string) :
  TrimRightFunc (ToLower s) isSpace = ToLower (TrimRightFunc s isSpace).
Proof.
  induction s as [|c s IH]; simpl; [reflexivity|].
  rewrite IH, isSpace_toLowerByte.
  destruct (TrimRightFunc s isSpace); simpl; [now destruct (isSpace c)|reflexivity].
Qed.

Lemma TrimSpace_ToLower (s : string) : TrimSpace (ToLower s) = ToLower (TrimSpace s).
Proof. unfold TrimSpace, TrimFunc. now rewrite TrimLeftFunc_ToLower, TrimRightFunc_ToLower. Qed.

(** Lower-casing and trimming is idempotent. *)
Lemma lower_trim_idem (s : string) :
  ToLower (TrimSpace (ToLower (TrimSpace s))) = ToLower (TrimSpace s).
Proof. now rewrite TrimSpace_ToLower, TrimSpace_idem, ToLower_idem. Qed.

Lemma TrimLeftFunc_length (s : string) (f : ascii -> bool) :
  String.length (TrimLeftFunc s f) <= String.length s.
Proof.
  induction s as [|c s IH]; simpl; [lia|]. destruct (f c); simpl; lia.
Qed.

Lemma TrimRightFunc_length (s : string) (f : ascii -> bool) :
  String.length (TrimRightFunc s f) <= String.length s.
Proof.
  induction s as [|c s IH]; simpl; [lia|].
  destruct (TrimRightFunc s f); [destruct (f c)|]; simpl in *; lia.
Qed.

Lemma TrimSpace_length (s : string) : String.length (TrimSpace s) <= String.length s.
Proof.
  unfold TrimSpace, TrimFunc.
  pose proof (TrimRightFunc_length (TrimLeftFunc s isSpace) isSpace).
  pose proof (TrimLeftFunc_length s isSpace). lia.
Qed.

Lemma substring_length (n : nat) (s : string) :
  String.length (String.substring 0 n s) <= n.
Proof.
  revert s. induction n as [|n IH]; intros [|c s]; simpl; try lia.
  specialize (IH s). lia.
Qed.

Lemma HasSuffix_length (s suffix : string) :
  HasSuffix s suffix = true -> String.length suffix <= String.length s.
Proof.
  induction s as [|c s IH]; cbn [HasSuffix]; intros H; apply orb_true_iff in H.
  - destruct H as [H|H]; [|discriminate]. apply String.eqb_eq in H. now subst.
  - destruct H as [H|H].
    + apply String.eqb_eq in H. subst suffix. simpl. lia.
    + specialize (IH H). simpl. lia.
Qed.

Lemma ContainsRune_append (a b : string) (r : ascii) :
  ContainsRune (a +:+ b) r = ContainsRune a r || ContainsRune b r.
Proof.
  induction a as [|c a IH]; [reflexivity|].
  rewrite append_cons. cbn [ContainsRune]. now rewrite IH, orb_assoc.
Qed.

Lemma TrimLeftFunc_suffix (s : string) (f : ascii -> bool) :
  exists a, s = a +:+ TrimLeftFunc s f.
Proof.
  induction s as [|c s [a IH]]; [now exists EmptyString|].
  cbn [TrimLeftFunc]. destruct (f c).
  - exists (String c a). rewrite append_cons. now rewrite <- IH.
  - now exists EmptyString.
Qed.

Lemma TrimRightFunc_prefix (s : string) (f : ascii -> bool) :
  exists b, s = TrimRightFunc s f +:+ b.
Proof.
  induction s as [|c s [b IH]]; [now exists EmptyString|].
  cbn [TrimRightFunc]. destruct (TrimRightFunc s f) as [|d t] eqn:E.
  - destruct (f c).
    + exists (String c s). reflexivity.
    + exists s. rewrite append_cons, append_nil_l. reflexivity.
  - exists b. rewrite append_cons. now rewrite <- IH.
Qed.

(** What [TrimSpace] returns is a segment of its argument. *)
Lemma TrimSpace_segment (s : string) : exists a b, s = a +:+ TrimSpace s +:+ b.
Proof.
  unfold TrimSpace, TrimFunc.
  destruct (TrimLeftFunc_suffix s isSpace) as [a Ha].
  destruct (TrimRightFunc_prefix (TrimLeftFunc s isSpace) isSpace) as [b Hb].
  exists a, b. now rewrite <- Hb.
Qed.

Lemma ContainsRune_TrimSpace (s : string) (r : ascii) :
  ContainsRune s r = false -> ContainsRune (TrimSpace s) r = false.
Proof.
  intros H. destruct (TrimSpace_segment s) as (a & b & E). rewrite E in H.
  rewrite !ContainsRune_append in H.
  apply orb_false_iff in H as [_ H]. now apply orb_false_iff in H as [H _].
Qed.

Lemma substring_all (s : string) : String.substring 0 (String.length s) s = s.
Proof. induction s as [|c s IH]; [reflexivity|]. cbn. now rewrite IH. Qed.

Lemma substring_drop (a b : string) :
  String.substring (String.length a) (String.length (a +:+ b) - String.length a) (a +:+ b) = b.
Proof.
  induction a as [|c a IH].
  - rewrite append_nil_l. cbn [String.length]. rewrite Nat.sub_0_r.
    apply substring_all.
  - rewrite append_cons. cbn [String.length String.substring Nat.sub]. exact IH.
Qed.

Lemma HasPrefix_append (s p : string) : HasPrefix s p = true -> exists t, s = p +:+ t.
Proof.
  revert s. induction p as [|c p IH]; intros s H; [now exists s|].
  destruct s as [|d s]; [discriminate|]. cbn [HasPrefix] in H.
  apply andb_true_iff in H as [Hc Hp]. apply Ascii.eqb_eq in Hc. subst d.
  destruct (IH s Hp) as [t ->]. exists t. now rewrite append_cons.
Qed.

Lemma HasPrefix_app (p t : string) : HasPrefix (p +:+ t) p = true.
Proof.
  induction p as [|c p IH]; [now destruct t|]. rewrite append_cons. cbn [HasPrefix].
  unfold ascii_eqb. now rewrite Ascii.eqb_refl, IH.
Qed.

Lemma TrimPrefix_append (p t : string) : TrimPrefix (p +:+ t) p = t.
Proof. unfold TrimPrefix. rewrite HasPrefix_app. apply substring_drop. Qed.

Lemma ContainsRune_TrimPrefix (s p : string) (r : ascii) :
  ContainsRune s r = false -> ContainsRune (TrimPrefix s p) r = false.
Proof.
  intros H. destruct (HasPrefix s p) eqn:E.
  - destruct (HasPrefix_append s p E) as [t ->]. rewrite TrimPrefix_append.
    rewrite ContainsRune_append in H. now apply orb_false_iff in H as [_ H].
  - unfold TrimPrefix. now rewrite E.
Qed.

Lemma splitAux_ContainsRune (sep r : ascii) (s cur : string) :
  ContainsRune s r = false -> ContainsRune cur r = false ->
  Forall (fun line => ContainsRune line r = false) (splitAux sep s cur).
Proof.
  revert cur. induction s as [|c s IH]; intros cur Hs Hcur; cbn [splitAux].
  - now constructor.
  - cbn [ContainsRune] in Hs. apply orb_false_iff in Hs as [Hc Hs].
    destruct (ascii_eqb c sep).
    + constructor; [exact Hcur|]. now apply IH.
    + apply IH; [exact Hs|]. rewrite ContainsRune_append. cbn [ContainsRune].
      now rewrite Hcur, Hc.
Qed.

Lemma Join_ContainsRune (r : ascii) (sep : string) (lines : list string) :
  ContainsRune sep r = false ->
  Forall (fun line => ContainsRune line r = false) lines ->
  ContainsRune (Join lines sep) r = false.
Proof.
  intros Hsep. induction 1 as [|line lines Hl Hrest IH]; [reflexivity|].
  cbn [Join]. destruct lines as [|l2 lines]; [exact Hl|].
  rewrite !ContainsRune_append, Hl, Hsep. exact IH.
Qed.

Lemma Forall_rev_tail {A : Type} (P : A -> Prop) (l : list A) (last : A) (front : list A) :
  Forall P l -> List.rev l = last :: front -> Forall P (List.rev front).
Proof.
  intros H E. apply Forall_rev in H. rewrite E in H. inversion H; subst.
  now apply Forall_rev.
Qed.

Lemma ContainsRune_TrimLeft (s : string) (r : ascii) :
  isSpace r = false -> ContainsRune (TrimLeftFunc s isSpace) r = ContainsRune s r.
Proof.
  intros Hr. induction s as [|c s IH]; [reflexivity|].
  cbn [TrimLeftFunc]. destruct (isSpace c) eqn:Ec; [|reflexivity].
  cbn [ContainsRune]. rewrite IH.
  destruct (Ascii.eqb_spec c r) as [->|_]; [congruence|].
  unfold ascii_eqb. destruct (Ascii.eqb_spec c r); [congruence|reflexivity].
Qed.

Lemma ContainsRune_TrimRight (s : string) (r : ascii) :
  isSpace r = false -> ContainsRune (TrimRightFunc s isSpace) r = ContainsRune s r.
Proof.
  intros Hr. induction s as [|c s IH]; [reflexivity|].
  cbn [TrimRightFunc ContainsRune]. rewrite <- IH.
  destruct (TrimRightFunc s isSpace); [|reflexivity].
  destruct (isSpace c) eqn:Ec; cbn [ContainsRune]; [|reflexivity].
  unfold ascii_eqb. destruct (Ascii.eqb_spec c r); [congruence|reflexivity].
Qed.

Lemma ContainsRune_trim (s : string) (r : ascii) :
  isSpace r = false -> ContainsRune (TrimSpace s) r = ContainsRune s r.
Proof.
  intros Hr. unfold TrimSpace, TrimFunc.
  now rewrite ContainsRune_TrimRight, ContainsRune_TrimLeft.
Qed.

Lemma splitAux_cur (sep : ascii) (s cur : string) :
  exists first rest,
    splitAux sep s EmptyString = first :: rest
    /\ splitAux sep s cur = (cur +:+ first) :: rest.
Proof.
  revert cur. induction s as [|c s IH]; intros cur; cbn [splitAux].
  - exists EmptyString, []. now rewrite append_nil_r.
  - destruct (ascii_eqb c sep).
    + exists EmptyString, (splitAux sep s EmptyString). now rewrite append_nil_r.
    + destruct (IH (String c EmptyString)) as (f1 & r1 & E1 & E1').
      destruct (IH (cur +:+ String c EmptyString)) as (f2 & r2 & E2 & E2').
      rewrite E1 in E2. injection E2 as <- <-.
      rewrite append_nil_l, E1', E2'.
      exists (String c EmptyString +:+ f1), r1. now rewrite append_assoc.
Qed.

(** Splitting at a separator and joining with it gives the string back. *)
Lemma Join_SplitByte (s : string) (sep : ascii) :
  Join (SplitByte s sep) (String sep EmptyString) = s.
Proof.
  unfold SplitByte. induction s as [|c s IH]; [reflexivity|].
  cbn [splitAux]. destruct (Ascii.eqb_spec c sep) as [->|Hc]; unfold ascii_eqb.
  - rewrite Ascii.eqb_refl.
    destruct (splitAux sep s EmptyString) as [|f r] eqn:E.
    + destruct (splitAux_cur sep s EmptyString) as (? & ? & E' & _). congruence.
    + change (Join (EmptyString :: f :: r) (String sep EmptyString))
        with (EmptyString +:+ String sep EmptyString +:+ Join (f :: r) (String sep EmptyString)).
      rewrite append_nil_l, IH. reflexivity.
  - destruct (Ascii.eqb c sep) eqn:Ec; [apply Ascii.eqb_eq in Ec; contradiction|].
    rewrite append_nil_l.
    destruct (splitAux_cur sep s (String c EmptyString)) as (f & r & E & E').
    rewrite E'. rewrite E in IH. rewrite append_cons, append_nil_l.
    destruct r as [|r1 r].
    + cbn [Join] in *. now rewrite IH.
    + change (Join (String c f :: r1 :: r) (String sep EmptyString))
        with (String c f +:+ String sep EmptyString +:+ Join (r1 :: r) (String sep EmptyString)).
      change (Join (f :: r1 :: r) (String sep EmptyString))
        with (f +:+ String sep EmptyString +:+ Join (r1 :: r) (String sep EmptyString)) in IH.
      rewrite append_cons. now rewrite IH.
Qed.

(** The lines of two texts put on consecutive lines are the lines of the
    first followed by the lines of the second. *)
Lemma splitAux_append (a b cur : string) (sep : ascii) :
  splitAux sep (a +:+ String sep b) cur = splitAux sep a cur ++ splitAux sep b EmptyString.
Proof.
  revert cur. induction a as [|c a IH]; intros cur.
  - rewrite append_nil_l. cbn [splitAux]. unfold ascii_eqb. now rewrite Ascii.eqb_refl.
  - rewrite append_cons. cbn [splitAux]. destruct (ascii_eqb c sep).
    + cbn [app]. f_equal. apply IH.
    + apply IH.
Qed.

Lemma SplitByte_append (a b : string) (sep : ascii) :
  SplitByte (a +:+ String sep b) sep = SplitByte a sep ++ SplitByte b sep.
Proof. apply splitAux_append. Qed.

Lemma splitAux_line (a cur : string) (sep : ascii) :
  ContainsRune a sep = false -> splitAux sep a cur = [cur +:+ a].
Proof.
  revert cur. induction a as [|c a IH]; intros cur H.
  - now rewrite append_nil_r.
  - cbn [ContainsRune] in H. apply orb_false_iff in H as [Hc Ha].
    cbn [splitAux]. rewrite Hc, IH by exact Ha.
    now rewrite append_assoc, append_cons, append_nil_l.
Qed.

Lemma SplitByte_line (a : string) (sep : ascii) :
  ContainsRune a sep = false -> SplitByte a sep = [a].
Proof. intros H. unfold SplitByte. now rewrite splitAux_line, append_nil_l. Qed.

Lemma TrimRightFunc_head (c : ascii) (s : string) (f : ascii -> bool) :
  f c = false -> exists t, TrimRightFunc (String c s) f = String c t.
Proof.
  intros Hc. cbn [TrimRightFunc]. destruct (TrimRightFunc s f); rewrite ?Hc; eauto.
Qed.

(** A text that begins and ends with a character that is not white space
    is trimmed. *)
Lemma TrimRightFunc_last (s : string) (c : ascii) (f : ascii -> bool) :
  f c = false -> TrimRightFunc (s +:+ String c EmptyString) f = s +:+ String c EmptyString.
Proof.
  intros Hc. induction s as [|d s IH].
  - rewrite append_nil_l. cbn. now rewrite Hc.
  - rewrite append_cons. cbn [TrimRightFunc]. rewrite IH.
    destruct s; reflexivity.
Qed.

Lemma HasPrefix_single (s : string) (ch : ascii) :
  HasPrefix s (String ch EmptyString)
  = match s with String c _ => ascii_eqb c ch | EmptyString => false end.
Proof. destruct s as [|c [|d s]]; cbn; [reflexivity| |]; now rewrite andb_true_r. Qed.

Lemma Contains_single (s : string) (ch : ascii) :
  Contains s (String ch EmptyString) = ContainsRune s ch.
Proof.
  induction s as [|c s IH]; [reflexivity|].
  rewrite Contains_unfold, HasPrefix_single. cbn [ContainsRune]. now rewrite IH.
Qed.

Lemma ContainsAny_false (s chars : string) (ch : ascii) :
  ContainsAny s chars = false -> inCutset chars ch = true -> ContainsRune s ch = false.
Proof.
  intros H Hch. induction s as [|c s IH]; [reflexivity|].
  cbn [ContainsAny] in H. apply orb_false_iff in H as [Hc Hs].
  cbn [ContainsRune]. rewrite (IH Hs), orb_false_r.
  unfold ascii_eqb. destruct (Ascii.eqb_spec c ch) as [->|_]; [congruence|reflexivity].
Qed.

(** A trimmed text that is not empty begins with a character that is not
    white space. *)
Lemma TrimSpace_head (s : string) (c : ascii) (t : string) :
  TrimSpace s = String c t -> isSpace c = false.
Proof.
  unfold TrimSpace, TrimFunc. intros E.
  destruct (TrimLeftFunc s isSpace) as [|c' t'] eqn:El; [discriminate|].
  pose proof (TrimLeftFunc_head s isSpace) as Hh. rewrite El in Hh.
  destruct (TrimRightFunc_head c' t' isSpace Hh) as [t1 E1].
  rewrite E1 in E. now injection E as <- _.
Qed.

Lemma TrimSpace_cons (c : ascii) (u : string) :
  isSpace c = false -> TrimSpace (String c u) <> EmptyString.
Proof.
  intros Hc. unfold TrimSpace, TrimFunc. cbn [TrimLeftFunc]. rewrite Hc.
  destruct (TrimRightFunc_head c u isSpace Hc) as [t1 ->]. discriminate.
Qed.

Lemma append_nonempty (a b : string) : b <> EmptyString -> a +:+ b <> EmptyString.
Proof.
  intros Hb E. apply (f_equal String.length) in E. rewrite length_append in E.
  destruct b; [contradiction|]. simpl in E. lia.
Qed.

End StringFacts.

(** ** [internal/runtime]: normalizing a command *)

Module RuntimeProps.
Import GoStrings GoStringsFacts StringFacts Runtime RuntimeSpec RegexpFacts.

Lemma stripFence_ContainsRune (s : string) :
  ContainsRune s NUL = false -> ContainsRune (stripFence s) NUL = false.
Proof.
  intros H. unfold stripFence. destruct (HasPrefix s fence); [|exact H].
  apply ContainsRune_TrimSpace, Join_ContainsRune; [reflexivity|].
  pose proof (splitAux_ContainsRune LF NUL s EmptyString H eq_refl) as Hall.
  fold (SplitByte s LF) in Hall.
  assert (Hfirst : Forall (fun line => ContainsRune line NUL = false)
                     (dropFirstFence (SplitByte s LF))).
  { unfold dropFirstFence. destruct (SplitByte s LF) as [|first rest]; [constructor|].
    destruct (HasPrefix _ _); [now inversion Hall|exact Hall]. }
  unfold dropLastFence.
  destruct (List.rev (dropFirstFence (SplitByte s LF))) as [|last front] eqn:E; [exact Hfirst|].
  destruct (String.eqb _ _); [|exact Hfirst].
  now apply (Forall_rev_tail _ _ last front Hfirst).
Qed.

Lemma stripFence_trimmed (s : string) :
  TrimSpace s = s -> TrimSpace (stripFence s) = stripFence s.
Proof.
  intros H. unfold stripFence. destruct (HasPrefix s fence); [|exact H].
  apply TrimSpace_idem.
Qed.

Lemma stripPrompt_trimmed (s : string) :
  TrimSpace s = s -> TrimSpace (stripPrompt s) = stripPrompt s.
Proof.
  intros H. unfold stripPrompt.
  destruct (HasPrefix s "$ "); [apply TrimSpace_idem|].
  destruct (HasPrefix s "> "); [apply TrimSpace_idem|exact H].
Qed.

Lemma stripPrompt_ContainsRune (s : string) (r : ascii) :
  ContainsRune s r = false -> ContainsRune (stripPrompt s) r = false.
Proof.
  intros H. unfold stripPrompt.
  destruct (HasPrefix s "$ "); [now apply ContainsRune_TrimSpace, ContainsRune_TrimPrefix|].
  destruct (HasPrefix s "> "); [now apply ContainsRune_TrimSpace, ContainsRune_TrimPrefix|].
  exact H.
Qed.

(** X1. A command that NormalizeCommand accepts is returned non-empty, with
    no white space around it and without a null byte. *)
Theorem NormalizeCommand_ok (command normalized : string) :
  NormalizeCommand command = Ok normalized ->
  normalized <> EmptyString
  /\ TrimSpace normalized = normalized
  /\ ContainsRune normalized NUL = false.
Proof.
  unfold NormalizeCommand.
  destruct (isEmpty (TrimSpace command)); [discriminate|].
  destruct (ContainsRune (TrimSpace command) NUL) eqn:Enul; [discriminate|].
  destruct (isEmpty (stripPrompt (stripFence (TrimSpace command)))) eqn:Eempty;
    [discriminate|].
  intros H. injection H as <-.
  split; [now apply isEmpty_false|].
  split.
  - apply stripPrompt_trimmed, stripFence_trimmed, TrimSpace_idem.
  - now apply stripPrompt_ContainsRune, stripFence_ContainsRune.
Qed.

(** X2. NormalizeCommand rejects a blank command as empty, and a command
    that is not blank and contains a null byte as invalid. *)
Theorem NormalizeCommand_rejects (command : string) :
  (TrimSpace command = EmptyString -> NormalizeCommand command = Err "command cannot be empty")
  /\ (TrimSpace command <> EmptyString -> ContainsRune command NUL = true ->
      NormalizeCommand command = Err "command contains invalid null byte").
Proof.
  unfold NormalizeCommand. split.
  - intros ->. reflexivity.
  - intros Hne Hnul. apply isEmpty_false in Hne. rewrite Hne.
    now rewrite ContainsRune_trim, Hnul.
Qed.


Lemma fenced_trimmed (tag body : string) : TrimSpace (fenced tag body) = fenced tag body.
Proof.
  unfold TrimSpace, TrimFunc, fenced, fence.
  rewrite !append_cons, append_nil_l. cbn [TrimLeftFunc].
  change (isSpace "`") with false. cbv iota.
  assert (E : exists s, String "`" (String "`" (String "`" (tag +:+ String LF (body +:+ String LF "```"))))
              = s +:+ String "`" EmptyString).
  { exists (String "`" (String "`" (String "`" (tag +:+ String LF (body +:+ String LF "``"))))).
    rewrite !append_cons. do 3 f_equal. rewrite append_assoc. f_equal.
    rewrite append_cons. f_equal. rewrite append_assoc. reflexivity. }
  destruct E as [s ->]. now apply TrimRightFunc_last.
Qed.

Lemma fenced_lines (tag body : string) :
  ContainsRune tag LF = false ->
  SplitByte (fenced tag body) LF = (fence +:+ tag) :: SplitByte body LF ++ [fence].
Proof.
  intros Htag. unfold fenced.
  rewrite <- append_assoc, SplitByte_append, SplitByte_append.
  rewrite (SplitByte_line (fence +:+ tag)), (SplitByte_line fence); [reflexivity|reflexivity|].
  rewrite ContainsRune_append, Htag. reflexivity.
Qed.

(** X3. A command wrapped in a fenced code block, with any language tag on
    the opening line, normalizes exactly as the command alone does. *)
Theorem NormalizeCommand_fenced (tag body : string) :
  ContainsRune tag LF = false ->
  ContainsRune tag NUL = false ->
  HasPrefix (TrimSpace body) fence = false ->
  NormalizeCommand (fenced tag body) = NormalizeCommand body.
Proof.
  intros Htag Hnul Hplain. unfold NormalizeCommand at 1.
  rewrite fenced_trimmed.
  assert (Hne : isEmpty (fenced tag body) = false) by reflexivity.
  rewrite Hne.
  assert (Hrune : ContainsRune (fenced tag body) NUL = ContainsRune body NUL).
  { unfold fenced. rewrite !ContainsRune_append. cbn [ContainsRune].
    rewrite ContainsRune_append, Hnul. cbn.
    now rewrite orb_false_r. }
  rewrite Hrune.
  assert (Hstrip : stripFence (fenced tag body) = TrimSpace body).
  { unfold stripFence.
    assert (Hp : HasPrefix (fenced tag body) fence = true).
    { unfold fenced. rewrite <- append_assoc, append_assoc. apply HasPrefix_app. }
    rewrite Hp.
    rewrite fenced_lines by exact Htag.
    assert (Hfirst : HasPrefix (TrimSpace (fence +:+ tag)) fence = true).
    { unfold TrimSpace, TrimFunc, fence. rewrite !append_cons, append_nil_l.
      cbn [TrimLeftFunc]. change (isSpace "`") with false. cbv iota.
      destruct (TrimRightFunc_head "`" tag isSpace eq_refl) as [t1 E1].
      cbn [TrimRightFunc]. cbn [TrimRightFunc] in E1. rewrite E1.
      now destruct t1. }
    unfold dropFirstFence. rewrite Hfirst. unfold dropLastFence.
    rewrite rev_app_distr. cbn [List.rev app].
    change (String.eqb (TrimSpace fence) fence) with true. cbv iota.
    rewrite rev_involutive, Join_SplitByte. reflexivity. }
  rewrite Hstrip. unfold NormalizeCommand.
  rewrite ContainsRune_trim by reflexivity.
  assert (Hsame : stripFence (TrimSpace body) = TrimSpace body)
    by (unfold stripFence; now rewrite Hplain).
  rewrite Hsame.
  destruct (isEmpty (TrimSpace body)) eqn:Eb.
  - apply isEmpty_true in Eb. rewrite Eb.
    assert (Hb : ContainsRune body NUL = false).
    { rewrite <- (ContainsRune_trim body NUL eq_refl), Eb. reflexivity. }
    rewrite Hb. reflexivity.
  - reflexivity.
Qed.


Lemma NormalizeCommand_ok_witness :
  "git status" <> EmptyString
  /\ TrimSpace "git status" = "git status"
  /\ ContainsRune "git status" NUL = false.
Proof. apply (NormalizeCommand_ok "  > git status "). vm_compute. reflexivity. Defined.

Lemma NormalizeCommand_rejects_witness :
  NormalizeCommand "   " = Err "command cannot be empty"
  /\ NormalizeCommand ("echo hi" +:+ String NUL EmptyString)
     = Err "command contains invalid null byte".
Proof.
  split.
  - apply (proj1 (NormalizeCommand_rejects "   ")). reflexivity.
  - apply (proj2 (NormalizeCommand_rejects ("echo hi" +:+ String NUL EmptyString)));
      [discriminate|reflexivity].
Defined.

Lemma NormalizeCommand_fenced_witness :
  NormalizeCommand (fenced "bash" "$ git status") = Ok "git status".
Proof.
  eapply eq_trans; [apply (NormalizeCommand_fenced "bash" "$ git status"); reflexivity|].
  reflexivity.
Defined.

End RuntimeProps.

(** ** [cmd/ew]: the policy decision and the execution of a command *)

Module PolicyMoreProps.
Import GoStrings Config Provider Policy PolicySpec StringFacts QFacts.

Lemma normalizeRiskHint_cases (risk : string) :
  normalizeRiskHint risk = "low" \/ normalizeRiskHint risk = "medium"
  \/ normalizeRiskHint risk = "high".
Proof.
  unfold normalizeRiskHint.
  destruct (String.eqb _ "high"); [auto|]. destruct (String.eqb _ "medium"); auto.
Qed.

Lemma normalizeRiskHint_idem (risk : string) :
  normalizeRiskHint (normalizeRiskHint risk) = normalizeRiskHint risk.
Proof.
  destruct (normalizeRiskHint_cases risk) as [->|[->| ->]]; reflexivity.
Qed.

Lemma startMode_normal (mode : string) :
  ToLower (TrimSpace (startMode mode)) = startMode mode
  /\ isEmpty (startMode mode) = false.
Proof.
  unfold startMode. destruct (isEmpty (ToLower (TrimSpace mode))) eqn:E.
  - split; reflexivity.
  - split; [apply lower_trim_idem|exact E].
Qed.

Lemma startMode_idem (mode : string) : startMode (startMode mode) = startMode mode.
Proof.
  destruct (startMode_normal mode) as [H1 H2].
  unfold startMode at 1. now rewrite H1, H2.
Qed.

Lemma applyExecutionRiskPolicy_unfold (cfg : Config) (mode command riskHint : string) :
  applyExecutionRiskPolicy cfg mode command riskHint
  = (let risk :=
       if riskyCommand command && BlockHighRisk (Safety cfg) then "high"
       else if riskyCommand command && String.eqb (normalizeRiskHint riskHint) "low"
            then "medium"
       else if Classifier.isMutatingCommand command
               && String.eqb (normalizeRiskHint riskHint) "low"
            then "medium"
       else normalizeRiskHint riskHint in
     (if String.eqb (startMode mode) "yolo"
         && negb (AllowYoloHighRisk (Safety cfg))
         && (String.eqb risk "high"
             || (BlockHighRisk (Safety cfg) && riskyCommand command))
      then "confirm" else startMode mode, risk)).
Proof. reflexivity. Qed.

(** X5. The risk policy returns a risk that is low, medium or high and a
    mode that is lower-cased, trimmed and not empty, and applying the policy
    to its own result changes nothing. *)
Theorem applyExecutionRiskPolicy_idem (cfg : Config) (mode command riskHint : string) :
  let out := applyExecutionRiskPolicy cfg mode command riskHint in
  applyExecutionRiskPolicy cfg out.1 command out.2 = out
  /\ (out.2 = "low" \/ out.2 = "medium" \/ out.2 = "high")
  /\ ToLower (TrimSpace out.1) = out.1
  /\ out.1 <> EmptyString.
Proof.
  cbv zeta. rewrite !applyExecutionRiskPolicy_unfold. cbv zeta. cbn [fst snd].
  pose proof (startMode_idem mode) as Hidem.
  pose proof (startMode_normal mode) as [Hnorm Hne].
  set (m := startMode mode) in *.
  assert (Hc : startMode "confirm" = "confirm") by reflexivity.
  destruct (riskyCommand command), (BlockHighRisk (Safety cfg)),
    (AllowYoloHighRisk (Safety cfg)), (Classifier.isMutatingCommand command),
    (normalizeRiskHint_cases riskHint) as [-> |[-> | ->]],
    (String.eqb_spec m "yolo") as [Ey|Ey];
    cbn; rewrite ?Hidem, ?Hc; try rewrite Ey; cbn;
    try (destruct (String.eqb_spec m "yolo") as [Ey'|Ey']; [congruence|]); cbn;
    (split; [reflexivity|]); (split; [auto|]);
    try (split; [reflexivity|discriminate]);
    (split; [exact Hnorm|]); intros E; rewrite E in Hne; discriminate.
Qed.

Section WithFormat.

Variable formatFloat2 : Q -> string.

Lemma NormalizeCommand_trimmed (c : string) :
  Runtime.NormalizeCommand (TrimSpace c) = Runtime.NormalizeCommand c.
Proof. unfold Runtime.NormalizeCommand. now rewrite GoStringsFacts.TrimSpace_idem. Qed.

Lemma NormalizeCommand_blank (c : string) :
  TrimSpace c = EmptyString -> exists err, Runtime.NormalizeCommand c = Err err.
Proof. intros H. unfold Runtime.NormalizeCommand. rewrite H. cbn. eauto. Qed.

(** X4. A resolution with a finite confidence is allowed exactly when its
    command normalizes, its action is run, or suggest with suggest execution
    enabled, and its clamped confidence reaches the threshold; the decision
    then carries the normalized command, no message, a reason, the normalized
    risk, and the confirm override exactly when the provider asked for
    confirmation. *)
Theorem evaluateAIResolution_allowed (intent : Router.Intent) (cfg : Config)
    (resolution : Resolution) :
  let decision := evaluateAIResolution formatFloat2 intent cfg resolution in
  let action := normalizeAction (Action resolution) in
  (Allowed decision = true <->
   exists normalized,
     Runtime.NormalizeCommand (Command resolution) = Ok normalized
     /\ (action = "run" \/ (action = "suggest" /\ AllowSuggestExecution (AI cfg) = true))
     /\ (confidenceThresholdForIntent cfg intent <= clampConfidence (Confidence resolution))%Q)
  /\ (Allowed decision = true ->
      Runtime.NormalizeCommand (Command resolution) = Ok (DecisionCommand decision)
      /\ Message decision = EmptyString
      /\ DecisionReason decision <> EmptyString
      /\ RiskHint decision = normalizeRiskHint (Risk resolution)
      /\ (ModeOverride decision = "confirm" <-> NeedsConfirmation resolution = true)).
Proof.
  cbv zeta. unfold evaluateAIResolution. cbv zeta.
  assert (Hact : normalizeAction (Action resolution) = "ask"
                 \/ normalizeAction (Action resolution) = "run"
                 \/ normalizeAction (Action resolution) = "suggest").
  { unfold normalizeAction.
    destruct (String.eqb_spec (ToLower (TrimSpace (Action resolution))) "run") as [->|_];
      [cbn; auto|].
    destruct (String.eqb_spec (ToLower (TrimSpace (Action resolution))) "suggest") as [->|_];
      [cbn; auto|].
    destruct (String.eqb_spec (ToLower (TrimSpace (Action resolution))) "ask") as [->|_];
      cbn; auto. }
  rewrite NormalizeCommand_trimmed.
  destruct Hact as [-> |Hact].
  - cbn [String.eqb Ascii.eqb Bool.eqb andb].
    split.
    + split.
      * destruct (isEmpty _); [discriminate|].
        destruct (Runtime.NormalizeCommand _); discriminate.
      * intros (n & _ & [H|[H _]] & _); discriminate.
    + destruct (isEmpty _); [discriminate|].
      destruct (Runtime.NormalizeCommand _); discriminate.
  - assert (Hask : String.eqb (normalizeAction (Action resolution)) "ask" = false)
      by (destruct Hact as [-> | ->]; reflexivity).
    rewrite Hask.
    destruct (isEmpty (TrimSpace (Command resolution))) eqn:Eempty.
    { apply GoStringsFacts.isEmpty_true in Eempty.
      destruct (NormalizeCommand_blank _ Eempty) as [err Herr]. rewrite Herr.
      split; [split; [discriminate|intros (n & H & _); discriminate]|discriminate]. }
    destruct (Runtime.NormalizeCommand (Command resolution)) as [normalized|err];
      [|split; [split; [discriminate|intros (n & H & _); discriminate]|discriminate]].
    destruct (Qltb (clampConfidence (Confidence resolution))
                (confidenceThresholdForIntent cfg intent)) eqn:Elt.
    { apply Qltb_lt in Elt.
      split; [split; [discriminate|]|discriminate].
      intros (n & _ & _ & Hle). exfalso. apply (Qlt_not_le _ _ Elt Hle). }
    apply Qltb_ge in Elt.
    destruct Hact as [-> | ->]; cbn [String.eqb Ascii.eqb Bool.eqb andb].
    + split.
      * split; [|reflexivity]. intros _. exists normalized. auto.
      * intros _. cbn. repeat split; try (destruct (NeedsConfirmation resolution); easy).
        destruct (isEmpty (TrimSpace (Reason resolution))) eqn:Er; [discriminate|].
        now apply GoStringsFacts.isEmpty_false.
    + destruct (AllowSuggestExecution (AI cfg)); cbn.
      * split.
        -- split; [|reflexivity]. intros _. exists normalized. auto.
        -- intros _. repeat split; try (destruct (NeedsConfirmation resolution); easy).
           destruct (isEmpty (TrimSpace (Reason resolution))) eqn:Er; [discriminate|].
           now apply GoStringsFacts.isEmpty_false.
      * split; [split; [discriminate|]|discriminate].
        intros (n & _ & [H|[_ H]] & _); discriminate.
Qed.

End WithFormat.


Lemma evaluateAIResolution_allowed_witness :
  let decision := evaluateAIResolution (fun _ => EmptyString) Router.IntentFind lowFindConfig
                    halfSureExample in
  Runtime.NormalizeCommand (Command halfSureExample) = Ok (DecisionCommand decision)
  /\ Message decision = EmptyString
  /\ DecisionReason decision <> EmptyString
  /\ RiskHint decision = normalizeRiskHint (Risk halfSureExample)
  /\ (ModeOverride decision = "confirm" <-> NeedsConfirmation halfSureExample = true).
Proof.
  apply (proj2 (evaluateAIResolution_allowed (fun _ => EmptyString) Router.IntentFind
                  lowFindConfig halfSureExample)).
  vm_compute. reflexivity.
Defined.

End PolicyMoreProps.

Module ExecProps.
Import GoStrings Config Exec ExecSpec PolicySpec StringFacts.

Lemma ShouldExecute_true (t : terminal) (mode : string) (yes : bool) :
  ShouldExecute t mode yes = Ok true ->
  ToLower (TrimSpace mode) = "yolo"
  \/ (isConfirmMode mode = true
      /\ (yes = true
          \/ (stdinIsInteractive t = true
              /\ exists line, readLine t = Ok line
                   /\ (ToLower (TrimSpace line) = "y" \/ ToLower (TrimSpace line) = "yes")))).
Proof.
  unfold ShouldExecute, isConfirmMode.
  destruct (String.eqb_spec (ToLower (TrimSpace mode)) "suggest") as [_|_]; [discriminate|].
  destruct (String.eqb_spec (ToLower (TrimSpace mode)) "yolo") as [E|_]; [now left|].
  rewrite (orb_comm (isEmpty _)).
  destruct (_ || _); [|discriminate].
  intros H. right. split; [reflexivity|].
  destruct yes; [now left|]. right.
  destruct (stdinIsInteractive t); [|discriminate]. split; [reflexivity|].
  destruct (readLine t) as [line|]; [|discriminate].
  exists line. split; [reflexivity|].
  injection H as H. apply orb_true_iff in H.
  destruct H as [H|H]; apply String.eqb_eq in H; auto.
Qed.

Lemma runAndReport_outcome (w : world) (intent reason command risk : string) :
  (runAndReport w intent reason command risk).2
  = {| Command := command; Executed := true;
       Success := match RunCommand w command with None => true | Some _ => false end |}.
Proof. unfold runAndReport. now destruct (RunCommand w command). Qed.

(** The mode that the risk policy returns is lower-cased and trimmed. *)
Lemma policy_mode_normal (cfg : Config) (mode command riskHint : string) :
  let out := Policy.applyExecutionRiskPolicy cfg mode command riskHint in
  ToLower (TrimSpace out.1) = out.1 /\ out.1 <> EmptyString.
Proof.
  cbv zeta. unfold Policy.applyExecutionRiskPolicy. cbv zeta. cbn [fst].
  assert (Hstart : ToLower (TrimSpace (startMode mode)) = startMode mode
                   /\ startMode mode <> EmptyString).
  { unfold startMode. destruct (isEmpty (ToLower (TrimSpace mode))) eqn:E.
    - split; [reflexivity|discriminate].
    - split; [apply lower_trim_idem|]. now apply GoStringsFacts.isEmpty_false. }
  fold (startMode mode).
  match goal with |- context [if ?b then "confirm" else _] => destruct b end;
    [split; [reflexivity|discriminate]|exact Hstart].
Qed.

(** X6. When executeSuggested runs a command, the command is the normalized
    one, the run is not a dry run, and the mode left by the risk policy is
    yolo, or the yes flag is set, or, outside JSON output, the user approved
    the command in the dialog or answered y or yes at the terminal. *)
Theorem executeSuggested_consent (w : world) (command reason riskHint : string)
    (cfg : Config) (cfgMode : string) (opts : options) (intent : Router.Intent) :
  let out := (executeSuggested w command reason riskHint cfg cfgMode opts intent).2 in
  Executed out = true ->
  exists normalized,
    Runtime.NormalizeCommand command = Ok normalized
    /\ Command out = normalized
    /\ Success out = (match RunCommand w normalized with None => true | Some _ => false end)
    /\ DryRun opts = false
    /\ let policy := Policy.applyExecutionRiskPolicy cfg (requestedMode cfgMode opts)
                       normalized riskHint in
       policy.1 = "yolo" \/ Yes opts = true
       \/ (JSON opts = false
           /\ (approvedInDialog w normalized policy.2 \/ answeredYes w)).
Proof.
  cbv zeta. unfold executeSuggested.
  destruct (Runtime.NormalizeCommand command) as [normalized|err]; [|discriminate].
  fold (requestedMode cfgMode opts).
  pose proof (policy_mode_normal cfg (requestedMode cfgMode opts) normalized riskHint)
    as [Hmode _].
  destruct (Policy.applyExecutionRiskPolicy cfg (requestedMode cfgMode opts) normalized riskHint)
    as [mode risk] eqn:Epol.
  cbn [fst snd] in *.
  intros Hex. exists normalized. rewrite Epol. cbn [fst snd].
  split; [reflexivity|].
  destruct (DryRun opts); [discriminate|].
  destruct (JSON opts && isConfirmMode mode && negb (Yes opts)) eqn:Ejson; [discriminate|].
  assert (Hshould :
             ShouldExecute (tty w) mode (Yes opts) = Ok true ->
             mode = "yolo" \/ Yes opts = true \/
             JSON opts = false /\ (approvedInDialog w normalized risk \/ answeredYes w)).
  { intros Hs. apply ShouldExecute_true in Hs. rewrite Hmode in Hs.
    destruct Hs as [Hs|[Hc [Hy|Hy]]]; [now left|now right; left|].
    right. destruct (Yes opts) eqn:Ey; [now left|right].
    rewrite Hc in Ejson. destruct (JSON opts); [discriminate|].
    split; [reflexivity|]. right. exact Hy. }
  revert Hex.
  destruct (isConfirmMode mode && negb (Yes opts) && negb (JSON opts) && canUseInteractiveUI w)
    eqn:Eui.
  - destruct (ConfirmExecution w normalized risk) as [[approved used] failed] eqn:Ec.
    destruct (negb failed && used) eqn:Eu.
    + destruct approved; [|discriminate].
      rewrite runAndReport_outcome. cbn [Command Success]. intros _.
      repeat split. right. right.
      apply andb_true_iff in Eui as [Eui Hcan]. apply andb_true_iff in Eui as [_ Hj].
      apply andb_true_iff in Eu as [Hf Hu].
      destruct failed, used, (JSON opts); try discriminate.
      split; [reflexivity|]. left. split; [exact Hcan|exact Ec].
    + destruct (ShouldExecute (tty w) mode (Yes opts)) as [[|]|] eqn:Es;
        [|destruct (isConfirmMode mode && _ && _); cbn; discriminate|cbn; discriminate].
      rewrite runAndReport_outcome. cbn [Command Success]. intros _.
      repeat split. now apply Hshould.
  - destruct (ShouldExecute (tty w) mode (Yes opts)) as [[|]|] eqn:Es;
      [|destruct (isConfirmMode mode && _ && _); cbn; discriminate|cbn; discriminate].
    rewrite runAndReport_outcome. cbn [Command Success]. intros _.
    repeat split. now apply Hshould.
Qed.

(** X7. With high-risk blocking on and the yolo override off, a high-risk or
    destructive command is never run on its mode alone: when it runs, the yes
    flag is set or the user approved it, and the response reports the risk as
    high. *)
Theorem executeSuggested_risky (w : world) (command reason riskHint : string)
    (cfg : Config) (cfgMode : string) (opts : options) (intent : Router.Intent)
    (normalized : string) :
  Runtime.NormalizeCommand command = Ok normalized ->
  riskyCommand normalized = true ->
  BlockHighRisk (Safety cfg) = true ->
  AllowYoloHighRisk (Safety cfg) = false ->
  let out := executeSuggested w command reason riskHint cfg cfgMode opts intent in
  Executed out.2 = true ->
  (exists r, out.1 = Some r /\ Risk r = "high" /\ ResponseCommand r = normalized)
  /\ (Yes opts = true
      \/ (JSON opts = false /\ (approvedInDialog w normalized "high" \/ answeredYes w))).
Proof.
  intros Hn Hrisky Hblock Hyolo. cbv zeta. unfold executeSuggested. rewrite Hn.
  fold (requestedMode cfgMode opts).
  pose proof (policy_mode_normal cfg (requestedMode cfgMode opts) normalized riskHint)
    as [Hmode _].
  assert (Hpol : (Policy.applyExecutionRiskPolicy cfg (requestedMode cfgMode opts)
                    normalized riskHint).2 = "high"
                 /\ (Policy.applyExecutionRiskPolicy cfg (requestedMode cfgMode opts)
                    normalized riskHint).1 <> "yolo").
  { unfold Policy.applyExecutionRiskPolicy. cbv zeta. cbn [fst snd].
    unfold riskyCommand in Hrisky. rewrite Hrisky, Hblock, Hyolo. cbn.
    split; [reflexivity|].
    match goal with |- context [String.eqb ?m "yolo"] =>
      destruct (String.eqb_spec m "yolo") as [E|E] end; cbn; [discriminate|exact E]. }
  destruct (Policy.applyExecutionRiskPolicy cfg (requestedMode cfgMode opts) normalized riskHint)
    as [mode risk] eqn:Epol.
  cbn [fst snd] in *. destruct Hpol as [-> Hny].
  destruct (DryRun opts); [discriminate|].
  destruct (JSON opts && isConfirmMode mode && negb (Yes opts)) eqn:Ejson; [discriminate|].
  assert (Hrun : forall reason', exists r,
             (runAndReport w intent reason' normalized "high").1 = Some r
             /\ Risk r = "high" /\ ResponseCommand r = normalized).
  { intros reason'. unfold runAndReport.
    destruct (RunCommand w normalized); eexists; cbn; eauto. }
  assert (Hshould :
             ShouldExecute (tty w) mode (Yes opts) = Ok true ->
             Yes opts = true \/
             JSON opts = false /\ (approvedInDialog w normalized "high" \/ answeredYes w)).
  { intros Hs. apply ShouldExecute_true in Hs. rewrite Hmode in Hs.
    destruct Hs as [Hs|[Hc [Hy|Hy]]]; [contradiction|now left|].
    destruct (Yes opts) eqn:Ey; [now left|right].
    rewrite Hc in Ejson. destruct (JSON opts); [discriminate|].
    split; [reflexivity|]. right. exact Hy. }
  destruct (isConfirmMode mode && negb (Yes opts) && negb (JSON opts) && canUseInteractiveUI w)
    eqn:Eui.
  - destruct (ConfirmExecution w normalized "high") as [[approved used] failed] eqn:Ec.
    destruct (negb failed && used) eqn:Eu.
    + destruct approved; [|discriminate]. intros _. split; [apply Hrun|].
      right.
      apply andb_true_iff in Eui as [Eui Hcan]. apply andb_true_iff in Eui as [_ Hj].
      apply andb_true_iff in Eu as [Hf Hu].
      destruct failed, used, (JSON opts); try discriminate.
      split; [reflexivity|]. left. split; [exact Hcan|exact Ec].
    + destruct (ShouldExecute (tty w) mode (Yes opts)) as [[|]|] eqn:Es;
        [|destruct (isConfirmMode mode && _ && _); cbn; discriminate|cbn; discriminate].
      intros _. split; [apply Hrun|]. now apply Hshould.
  - destruct (ShouldExecute (tty w) mode (Yes opts)) as [[|]|] eqn:Es;
      [|destruct (isConfirmMode mode && _ && _); cbn; discriminate|cbn; discriminate].
    intros _. split; [apply Hrun|]. now apply Hshould.
Qed.


Lemma executeSuggested_consent_witness :
  let out := (executeSuggested silentWorld "ls -la" "list" "low" Config.Default "confirm"
                yoloOptions Router.IntentRun).2 in
  exists normalized,
    Runtime.NormalizeCommand "ls -la" = Ok normalized
    /\ Command out = normalized
    /\ Success out = (match RunCommand silentWorld normalized with
                      | None => true | Some _ => false end)
    /\ DryRun yoloOptions = false
    /\ let policy := Policy.applyExecutionRiskPolicy Config.Default
                       (requestedMode "confirm" yoloOptions) normalized "low" in
       policy.1 = "yolo" \/ Yes yoloOptions = true
       \/ (JSON yoloOptions = false
           /\ (approvedInDialog silentWorld normalized policy.2 \/ answeredYes silentWorld)).
Proof.
  apply (executeSuggested_consent silentWorld "ls -la" "list" "low" Config.Default "confirm"
           yoloOptions Router.IntentRun).
  vm_compute. reflexivity.
Defined.

Lemma executeSuggested_risky_witness :
  let out := executeSuggested silentWorld "rm -rf build" "clean" "low" Config.Default "yolo"
               yesOptions Router.IntentRun in
  (exists r, out.1 = Some r /\ Risk r = "high" /\ ResponseCommand r = "rm -rf build")
  /\ (Yes yesOptions = true
      \/ (JSON yesOptions = false
          /\ (approvedInDialog silentWorld "rm -rf build" "high" \/ answeredYes silentWorld))).
Proof.
  apply (executeSuggested_risky silentWorld "rm -rf build" "clean" "low" Config.Default "yolo"
           yesOptions Router.IntentRun "rm -rf build"); vm_compute; reflexivity.
Defined.

End ExecProps.

(** ** The de-duplicating token loops *)

Module TokenFacts.
Import GoStrings GoStringsFacts StringFacts MemoryCompatSpec MemoryCompatProps TokenSpec.

Lemma pushNew_collected (clean : string -> string) (reject : string -> bool)
    (acc : list string * gset string) (part : string) :
  collected acc -> collected (pushNew clean reject acc part).
Proof.
  intros H. unfold pushNew. destruct (reject (clean part)); [exact H|].
  case_bool_decide; [exact H|]. now apply collected_push.
Qed.

Lemma pushNew_members (clean : string -> string) (reject : string -> bool)
    (parts : list string) (acc : list string * gset string) (t : string) :
  collected acc ->
  In t (fold_left (pushNew clean reject) parts acc).1 <->
  In t acc.1 \/ exists part, In part parts /\ t = clean part /\ reject t = false.
Proof.
  revert acc. induction parts as [|p parts IH]; intros acc Hc; simpl.
  - split; [now left|]. intros [H|(part & [] & _)]. exact H.
  - rewrite (IH _ (pushNew_collected clean reject acc p Hc)). unfold pushNew.
    destruct (reject (clean p)) eqn:Er.
    + split; intros [H|(part & Hin & Ht & Hl)]; try (now left).
      * right. exists part. repeat split; try assumption. now right.
      * destruct Hin as [<-|Hin]; [subst t; congruence|].
        right. exists part. now repeat split.
    + case_bool_decide as Hseen.
      * split; intros [H|(part & Hin & Ht & Hl)]; try (now left).
        -- right. exists part. repeat split; try assumption. now right.
        -- destruct Hin as [<-|Hin].
           ++ left. destruct Hc as [_ Hs]. rewrite Hs in Hseen.
              apply elem_of_list_to_set, list_elem_of_In in Hseen. now subst t.
           ++ right. exists part. now repeat split.
      * simpl. split.
        -- intros [H|(part & Hin & Ht & Hl)].
           ++ apply in_app_or in H. destruct H as [H|[<-|[]]]; [now left|].
              right. exists p. repeat split; [now left|exact Er].
           ++ right. exists part. repeat split; try assumption. now right.
        -- intros [H|(part & Hin & Ht & Hl)].
           ++ left. apply in_or_app. now left.
           ++ destruct Hin as [<-|Hin].
              ** left. apply in_or_app. right. left. now symmetry.
              ** right. exists part. now repeat split.
Qed.

(** What a de-duplicating token loop returns. *)
Lemma pushNew_loop (clean : string -> string) (reject : string -> bool) (parts : list string) :
  let tokens := (fold_left (pushNew clean reject) parts ([], ∅)).1 in
  NoDup tokens
  /\ length tokens <= length parts
  /\ forall t, In t tokens <->
       exists part, In part parts /\ t = clean part /\ reject t = false.
Proof.
  cbv zeta. split; [|split].
  - apply (fold_collected _ (pushNew_collected clean reject)), collected_empty.
  - assert (H : forall acc, length (fold_left (pushNew clean reject) parts acc).1
                            <= length acc.1 + length parts).
    { induction parts as [|p parts IH]; intros acc; simpl; [lia|].
      etransitivity; [apply IH|]. unfold pushNew.
      destruct (reject _); [lia|]. case_bool_decide; simpl; [lia|].
      rewrite length_app. simpl. lia. }
    apply (H ([], ∅)).
  - intros t. rewrite (pushNew_members _ _ _ _ t collected_empty). simpl.
    split; [intros [[]|H]; exact H|intros H; now right].
Qed.

End TokenFacts.

(** ** [cmd/ew]: what find keeps, prefers and remembers *)

Module FindProps.
Import GoStrings GoStringsFacts StringFacts RegexpFacts QFacts Classifier Find FindSpec.
Import TokenSpec TokenFacts.

Lemma commandAllowedForQuery_trim (q c : string) :
  commandAllowedForQuery (TrimSpace q) (TrimSpace c) = commandAllowedForQuery q c.
Proof.
  unfold commandAllowedForQuery, queryPrefersReadOnly, queryAllowsDestructive,
    queryAllowsHighRisk.
  now rewrite !TrimSpace_idem.
Qed.

Lemma commandAllowedForQuery_nonblank (q c : string) :
  commandAllowedForQuery q c = true -> TrimSpace c <> EmptyString.
Proof.
  unfold commandAllowedForQuery. destruct (isEmpty (TrimSpace c)) eqn:E; [discriminate|].
  intros _. now apply isEmpty_false.
Qed.

(** The test of the loop of filterFindMatches is the filtering rule. *)
Lemma keep_allowed (q c : string) :
  (if isEmpty (TrimSpace c) then false
   else if queryPrefersReadOnly q && isMutatingCommand (TrimSpace c) then false
   else if Runtime.HighRisk (TrimSpace c) && negb (queryAllowsHighRisk q) then false
   else if isDestructiveCommand (TrimSpace c) && negb (queryAllowsDestructive q) then false
   else true) = commandAllowedForQuery q c.
Proof. reflexivity. Qed.

Lemma minimumHistoryMatchScore_range (query : string) :
  (6 <= minimumHistoryMatchScore query)%Q /\ (minimumHistoryMatchScore query <= 8)%Q.
Proof.
  unfold minimumHistoryMatchScore.
  destruct (4 <=? _); [split; discriminate|]. destruct (2 <=? _); split; discriminate.
Qed.

(** X8. filterFindMatches keeps the matches in their order and keeps exactly
    those whose (finite) score reaches the minimum score of the query, which
    lies between 6 and 8, and whose command the safety filter allows for the
    query. *)
Theorem filterFindMatches_spec (query : string) (matches : list HistorySearch.Match) :
  sublist (filterFindMatches query matches) matches
  /\ (6 <= minimumHistoryMatchScore query)%Q /\ (minimumHistoryMatchScore query <= 8)%Q
  /\ forall m, In m (filterFindMatches query matches) <->
       In m matches
       /\ (minimumHistoryMatchScore query <= HistorySearch.Score m)%Q
       /\ commandAllowedForQuery query (HistorySearch.Command m) = true.
Proof.
  pose proof (minimumHistoryMatchScore_range query) as [Hlo Hhi].
  unfold filterFindMatches.
  destruct matches as [|m0 ms];
    [split; [reflexivity|]; split; [exact Hlo|]; split; [exact Hhi|]; intros m; cbn; tauto|].
  cbn [length Nat.eqb]. cbv zeta.
  set (keep := fun m : HistorySearch.Match => _).
  split; [|split; [exact Hlo|split; [exact Hhi|]]].
  - generalize (m0 :: ms). intros l. induction l as [|x l IH]; cbn; [constructor|].
    destruct (keep x); [now constructor|now constructor].
  - intros m. rewrite filter_In. apply and_iff_compat_l.
    subst keep. cbv beta zeta.
    destruct (Qltb (HistorySearch.Score m) (minimumHistoryMatchScore query)) eqn:Elt.
    + apply Qltb_lt in Elt.
      destruct (isEmpty _); (split; [discriminate|]); intros [Hle _];
        exfalso; apply (Qlt_not_le _ _ Elt Hle).
    + apply Qltb_ge in Elt. rewrite <- keep_allowed.
      destruct (isEmpty _); [split; [discriminate|intros [_ H]; discriminate]|].
      split; [intros H; split; [exact Elt|exact H]|intros [_ H]; exact H].
Qed.

Lemma strong_dec (m : Memory.Match) :
  Memory.Exact m || Qleb 26 (Memory.MatchScore m)
  || ((2 <=? Memory.MatchUses m)%Z && Qleb 18 (Memory.MatchScore m)) = true <-> strong m.
Proof.
  unfold strong. rewrite !orb_true_iff, andb_true_iff, !Qleb_le, Z.leb_le. tauto.
Qed.

Lemma trusted_dec (query : string) (m : Memory.Match) :
  trusted query m \/ ~ trusted query m.
Proof.
  unfold trusted.
  destruct (commandAllowedForQuery query (Memory.MatchCommand m));
    [|right; intros [H _]; discriminate].
  destruct (MemoryCompat.memoryQueryCompatible query (Memory.MatchQuery m));
    [|right; intros (_ & H & _); discriminate].
  destruct (Memory.Exact m || Qleb 26 (Memory.MatchScore m)
            || ((2 <=? Memory.MatchUses m)%Z && Qleb 18 (Memory.MatchScore m))) eqn:E.
  - left. repeat split. now apply strong_dec.
  - right. intros (_ & _ & H). apply strong_dec in H. congruence.
Qed.

Lemma preferredMemoryMatch_step (query : string) (candidate : Memory.Match)
    (rest : list Memory.Match) :
  (trusted query candidate /\ preferredMemoryMatch query (candidate :: rest) = Some candidate)
  \/ (~ trusted query candidate
      /\ preferredMemoryMatch query (candidate :: rest) = preferredMemoryMatch query rest).
Proof.
  cbn [preferredMemoryMatch]. unfold trusted.
  destruct (commandAllowedForQuery query (Memory.MatchCommand candidate)) eqn:Ea.
  - pose proof (commandAllowedForQuery_nonblank _ _ Ea) as Hne.
    apply isEmpty_false in Hne. rewrite Hne. cbn [negb].
    destruct (MemoryCompat.memoryQueryCompatible query (Memory.MatchQuery candidate));
      cbn [negb]; [|right; split; [intros (_ & H & _); discriminate|reflexivity]].
    destruct (Memory.Exact candidate || Qleb 26 (Memory.MatchScore candidate)
              || ((2 <=? Memory.MatchUses candidate)%Z
                  && Qleb 18 (Memory.MatchScore candidate))) eqn:E.
    + left. repeat split. now apply strong_dec.
    + right. split; [|reflexivity]. intros (_ & _ & H). apply strong_dec in H. congruence.
  - right. split; [intros [H _]; discriminate|].
    cbn [negb]. now destruct (isEmpty _).
Qed.

(** X9. preferredMemoryMatch returns the first remembered match that the
    safety filter allows for the query, whose query is compatible with the
    query, and that is exact, or scores at least 26, or was used at least
    twice and scores at least 18; it returns nothing exactly when no match is
    such. *)
Theorem preferredMemoryMatch_spec (query : string) (matches : list Memory.Match) :
  match preferredMemoryMatch query matches with
  | Some m =>
      exists before after,
        matches = before ++ m :: after
        /\ trusted query m
        /\ Forall (fun candidate => ~ trusted query candidate) before
  | None => Forall (fun candidate => ~ trusted query candidate) matches
  end.
Proof.
  induction matches as [|candidate rest IH]; [constructor|].
  destruct (preferredMemoryMatch_step query candidate rest) as [[Ht ->]|[Hn ->]].
  - exists [], rest. split; [reflexivity|]. split; [exact Ht|constructor].
  - destruct (preferredMemoryMatch query rest) as [m|].
    + destruct IH as (before & after & -> & Ht & Hb).
      exists (candidate :: before), after.
      split; [reflexivity|]. split; [exact Ht|now constructor].
    + now constructor.
Qed.

(** X10. A find suggestion is written to memory exactly when the query is not
    blank, the suggestion did not come from memory, its risk is not high and
    the safety filter allows its command for the query. *)
Theorem shouldPersistFindSuggestion_spec (query command source risk : string) :
  shouldPersistFindSuggestion query command source risk = true <->
  TrimSpace query <> EmptyString
  /\ ToLower (TrimSpace source) <> "memory"
  /\ Policy.normalizeRiskHint risk <> "high"
  /\ commandAllowedForQuery query command = true.
Proof.
  unfold shouldPersistFindSuggestion, EqualFold. rewrite commandAllowedForQuery_trim.
  change (ToLower "memory") with "memory".
  destruct (isEmpty (TrimSpace query)) eqn:Eq.
  { apply isEmpty_true in Eq. cbn. split; [discriminate|]. intros [H _]. contradiction. }
  apply isEmpty_false in Eq.
  destruct (commandAllowedForQuery query command) eqn:Ea;
    [|cbn [negb]; split;
      [destruct (isEmpty _); cbn; [discriminate|];
       destruct (String.eqb _ "memory"); [discriminate|];
       destruct (String.eqb _ "high"); discriminate
      |intros (_ & _ & _ & H); discriminate]].
  pose proof (commandAllowedForQuery_nonblank _ _ Ea) as Hne.
  apply isEmpty_false in Hne. rewrite Hne. cbn [orb negb].
  destruct (String.eqb_spec (ToLower (TrimSpace source)) "memory") as [Em|Em];
    [split; [discriminate|intros (_ & H & _); contradiction]|].
  destruct (String.eqb_spec (Policy.normalizeRiskHint risk) "high") as [Eh|Eh];
    [split; [discriminate|intros (_ & _ & H & _); contradiction]|].
  split; [intros _; auto|reflexivity].
Qed.

Lemma relevanceStep_pushNew (acc : list string * gset string) (part : string) :
  relevanceStep acc part
  = pushNew (fun part => Trim (TrimSpace part) MemoryCompat.punctuation)
      (fun token => (String.length token <? 3) || inList token stopwords) acc part.
Proof.
  unfold relevanceStep, pushNew. cbv zeta.
  destruct (String.length _ <? 3); [reflexivity|]. cbn [orb].
  now destruct (inList _ stopwords).
Qed.

Lemma fold_left_ext {A B : Type} (f g : A -> B -> A) (l : list B) (a : A) :
  (forall a b, f a b = g a b) -> fold_left f l a = fold_left g l a.
Proof.
  intros H. revert a. induction l as [|b l IH]; intros a; simpl; [reflexivity|].
  now rewrite H, IH.
Qed.

(** X13. The relevance tokens of a query are distinct, at least three bytes
    long and never stopwords, and there are at most as many as the query has
    fields. *)
Theorem queryRelevanceTokens_spec (query : string) :
  let tokens := queryRelevanceTokens query in
  NoDup tokens
  /\ Forall (fun token => 3 <= String.length token /\ inList token stopwords = false) tokens
  /\ length tokens
     <= length (FieldsFunc (ToLower (TrimSpace query)) MemoryCompat.isSeparator).
Proof.
  cbv zeta. unfold queryRelevanceTokens.
  rewrite (fold_left_ext _ _ _ _ relevanceStep_pushNew).
  destruct (pushNew_loop (fun part => Trim (TrimSpace part) MemoryCompat.punctuation)
              (fun token => (String.length token <? 3) || inList token stopwords)
              (FieldsFunc (ToLower (TrimSpace query)) MemoryCompat.isSeparator))
    as (Hnd & Hlen & Hin).
  split; [exact Hnd|]. split; [|exact Hlen].
  apply List.Forall_forall. intros t Ht. apply Hin in Ht as (part & _ & _ & Hr).
  apply orb_false_iff in Hr as [Hl Hs]. apply Nat.ltb_ge in Hl. now split.
Qed.

(** Without the character [>] there is no redirection. *)
Lemma scanRedirection_none (command : string) (inSingle inDouble escaped : bool) :
  ContainsRune command ">" = false ->
  scanRedirection command inSingle inDouble escaped = false.
Proof.
  revert inSingle inDouble escaped.
  induction command as [|ch rest IH]; intros inSingle inDouble escaped H; [reflexivity|].
  cbn [ContainsRune] in H. apply orb_false_iff in H as [Hch Hrest].
  cbn [scanRedirection]. rewrite Hch. cbn [negb].
  repeat match goal with |- context [if ?b then _ else _] => destruct b end;
    now apply IH.
Qed.

(** X11. A command that isCleanInferredCommand accepts is not blank, holds
    none of the characters of a pipe, a command separator, a command
    substitution or a redirection, spans one line, and has no write
    redirection. *)
Theorem isCleanInferredCommand_spec (command : string) :
  isCleanInferredCommand command = true ->
  TrimSpace command <> EmptyString
  /\ Forall (fun ch => ContainsRune command ch = false) [ "|"; ";"; "`"; "<"; ">" ]%char
  /\ ContainsRune (TrimSpace command) LF = false
  /\ ContainsRune (TrimSpace command) CR = false
  /\ Contains (TrimSpace command) "&&" = false
  /\ Contains (TrimSpace command) "$(" = false
  /\ hasWriteRedirection command = false.
Proof.
  unfold isCleanInferredCommand.
  destruct (isEmpty (TrimSpace command)) eqn:Eempty; [discriminate|].
  destruct (containsAnyOf (TrimSpace command) blockedTokens) eqn:Eblocked; [discriminate|].
  destruct (ContainsAny (TrimSpace command) "<>") eqn:Eany; [discriminate|].
  intros _. unfold containsAnyOf, blockedTokens in Eblocked. cbn [existsb] in Eblocked.
  repeat (apply orb_false_iff in Eblocked as [? Eblocked]).
  rewrite !Contains_single in *.
  assert (Hlt : ContainsRune (TrimSpace command) "<" = false)
    by (apply (ContainsAny_false _ "<>"); [exact Eany|reflexivity]).
  assert (Hgt : ContainsRune (TrimSpace command) ">" = false)
    by (apply (ContainsAny_false _ "<>"); [exact Eany|reflexivity]).
  rewrite ContainsRune_trim in * by reflexivity.
  split; [now apply isEmpty_false|].
  split; [repeat constructor; assumption|].
  repeat (split; [assumption|]).
  now apply scanRedirection_none.
Qed.

Lemma firstSentence_length (trimmed : string) (max : nat) (separators : list string)
    (sentence : string) :
  firstSentence trimmed max separators = Some sentence ->
  String.length sentence <= max
  /\ exists idx, sentence = TrimSpace (String.substring 0 (S idx) trimmed).
Proof.
  induction separators as [|sep rest IH]; [discriminate|].
  cbn [firstSentence]. destruct (HistorySearch.Index trimmed sep) as [idx|]; [|exact IH].
  destruct ((0 <? idx) && (idx <? max)) eqn:E; [|exact IH].
  intros H. injection H as <-. apply andb_true_iff in E as [_ E]. apply Nat.ltb_lt in E.
  split.
  - pose proof (TrimSpace_length (String.substring 0 (idx + 1) trimmed)).
    pose proof (substring_length (idx + 1) trimmed). lia.
  - exists idx. now rewrite Nat.add_1_r.
Qed.

(** X12. compactReason returns the empty text exactly for a blank reason,
    returns the trimmed reason when the limit is not positive or the reason
    fits, and never returns more than the limit and three bytes. *)
Theorem compactReason_spec (reason : string) (max : Z) :
  (compactReason reason max = EmptyString <-> TrimSpace reason = EmptyString)
  /\ ((max <= 0)%Z \/ (Z.of_nat (String.length (TrimSpace reason)) <= max)%Z ->
      compactReason reason max = TrimSpace reason)
  /\ ((0 < max)%Z ->
      (Z.of_nat (String.length (compactReason reason max)) <= max + 3)%Z).
Proof.
  unfold compactReason.
  destruct (TrimSpace reason) as [|c t] eqn:Et; cbn [isEmpty].
  { split; [tauto|]. split; [reflexivity|]. cbn. lia. }
  pose proof (TrimSpace_head _ _ _ Et) as Hc.
  destruct ((max <=? 0)%Z || (Z.of_nat (String.length (String c t)) <=? max)%Z) eqn:Eshort.
  { split; [split; discriminate|]. split; [reflexivity|].
    intros Hpos. apply orb_true_iff in Eshort as [H|H]; [apply Z.leb_le in H; lia|].
    apply Z.leb_le in H. lia. }
  apply orb_false_iff in Eshort as [Hmax Hlen].
  apply Z.leb_gt in Hmax, Hlen.
  destruct (firstSentence (String c t) (Z.to_nat max) _) as [sentence|] eqn:Ef.
  - apply firstSentence_length in Ef as [Hl [idx ->]].
    split; [|split].
    + split; [|discriminate]. intros H. exfalso. revert H.
      cbn [String.substring]. now apply TrimSpace_cons.
    + intros [H|H]; lia.
    + intros _. lia.
  - split; [|split].
    + split; [|discriminate]. intros H. exfalso. revert H.
      apply append_nonempty. discriminate.
    + intros [H|H]; lia.
    + intros _. rewrite length_append.
      pose proof (TrimSpace_length (String.substring 0 (Z.to_nat max) (String c t))).
      pose proof (substring_length (Z.to_nat max) (String c t)).
      change (String.length "...") with 3. lia.
Qed.

Lemma isCleanInferredCommand_spec_witness :
  TrimSpace " git status " <> EmptyString
  /\ Forall (fun ch => ContainsRune " git status " ch = false) [ "|"; ";"; "`"; "<"; ">" ]%char
  /\ ContainsRune (TrimSpace " git status ") LF = false
  /\ ContainsRune (TrimSpace " git status ") CR = false
  /\ Contains (TrimSpace " git status ") "&&" = false
  /\ Contains (TrimSpace " git status ") "$(" = false
  /\ hasWriteRedirection " git status " = false.
Proof. apply (isCleanInferredCommand_spec " git status "). vm_compute. reflexivity. Defined.

Lemma compactReason_spec_witness :
  compactReason "short" 0 = TrimSpace "short"
  /\ (Z.of_nat (String.length (compactReason "use the status command of git" 10)) <= 10 + 3)%Z.
Proof.
  split.
  - apply (proj1 (proj2 (compactReason_spec "short" 0))). left. lia.
  - apply (proj2 (proj2 (compactReason_spec "use the status command of git" 10))). lia.
Defined.

End FindProps.

(** ** [cmd/ew]: the comparable form of a command *)

Module NormalFormProps.
Import GoStrings GoStringsFacts StringFacts RegexpFacts.

Lemma substring_ToLower (n : nat) (s : string) :
  ToLower (String.substring 0 n s) = String.substring 0 n (ToLower s).
Proof.
  revert s. induction n as [|n IH]; intros [|c s]; cbn; try reflexivity. now rewrite IH.
Qed.

Lemma TrimSuffix_lower (s suffix : string) :
  ToLower s = s -> ToLower (TrimSuffix s suffix) = TrimSuffix s suffix.
Proof.
  intros H. unfold TrimSuffix. destruct (HasSuffix s suffix); [|exact H].
  now rewrite substring_ToLower, H.
Qed.

Lemma TrimSuffix_shrinks (s suffix : string) :
  HasSuffix s suffix = true -> 0 < String.length suffix ->
  String.length (TrimSpace (TrimSuffix s suffix)) < String.length s.
Proof.
  intros H Hpos. unfold TrimSuffix. rewrite H.
  pose proof (HasSuffix_length s suffix H).
  pose proof (TrimSpace_length
                (String.substring 0 (String.length s - String.length suffix) s)).
  pose proof (substring_length (String.length s - String.length suffix) s). lia.
Qed.

(** The loop that strips trailing backslashes ends within its fuel, and it
    keeps a text trimmed and lower-cased. *)
Lemma stripContinuations_done (fuel : nat) (s : string) :
  String.length s <= fuel -> TrimSpace s = s -> ToLower s = s ->
  let r := MemoryCompat.stripContinuations fuel s in
  HasSuffix r (String BACKSLASH EmptyString) = false /\ TrimSpace r = r /\ ToLower r = r.
Proof.
  cbv zeta. revert s. induction fuel as [|fuel IH]; intros s Hlen Ht Hl; simpl.
  - destruct s; [now repeat split|simpl in Hlen; lia].
  - destruct (HasSuffix s (String BACKSLASH EmptyString)) eqn:E; [|now repeat split].
    apply IH.
    + pose proof (TrimSuffix_shrinks s _ E). simpl in H. lia.
    + apply TrimSpace_idem.
    + rewrite <- TrimSpace_ToLower. now rewrite TrimSuffix_lower.
Qed.

Lemma stripContinuations_fixed (fuel : nat) (s : string) :
  HasSuffix s (String BACKSLASH EmptyString) = false ->
  MemoryCompat.stripContinuations fuel s = s.
Proof. intros H. destruct fuel; simpl; [reflexivity|]. now rewrite H. Qed.

(** X14. The comparable form of a command is lower-cased, has no white
    space around it and no trailing backslash, and is its own comparable
    form. *)
Theorem normalizeComparableCommand_idem (command : string) :
  let n := MemoryCompat.normalizeComparableCommand command in
  MemoryCompat.normalizeComparableCommand n = n
  /\ HasSuffix n (String BACKSLASH EmptyString) = false
  /\ TrimSpace n = n
  /\ ToLower n = n.
Proof.
  cbv zeta.
  assert (H : let n := MemoryCompat.normalizeComparableCommand command in
              HasSuffix n (String BACKSLASH EmptyString) = false
              /\ TrimSpace n = n /\ ToLower n = n).
  { unfold MemoryCompat.normalizeComparableCommand. cbv zeta.
    apply stripContinuations_done; [lia|apply TrimSpace_idem|].
    now rewrite <- TrimSpace_ToLower, ToLower_idem. }
  cbv zeta in H. destruct H as (Hs & Ht & Hl). split; [|now repeat split].
  unfold MemoryCompat.normalizeComparableCommand at 1. cbv zeta.
  rewrite Hl, Ht. now apply stripContinuations_fixed.
Qed.

End NormalFormProps.

(** ** [internal/memory]: the best entries, forgetting and remembering *)

Module MemoryMoreProps.
Import GoStrings GoStringsFacts StringFacts RegexpFacts QFacts.
Import Memory MemorySpec MemoryTop MemoryMoreSpec MemoryProps ListFacts.

Lemma topLoop_firstn (entries : list Entry) (limit : Z) (out : list Match) :
  (Z.of_nat (length out) < limit)%Z ->
  topLoop entries limit out
  = out ++ map toMatch (firstn (Z.to_nat limit - length out) entries).
Proof.
  revert out. induction entries as [|entry rest IH]; intros out Hlt; cbn [topLoop].
  - now rewrite firstn_nil, app_nil_r.
  - destruct (Z.leb_spec limit (Z.of_nat (length (out ++ [toMatch entry])))) as [Hge|Hlt'].
    + rewrite length_app in Hge. cbn [length] in Hge.
      replace (Z.to_nat limit - length out) with 1 by lia.
      reflexivity.
    + rewrite IH by exact Hlt'. rewrite length_app in *. cbn [length] in *.
      replace (Z.to_nat limit - length out) with (S (Z.to_nat limit - (length out + 1))) by lia.
      cbn [firstn map]. now rewrite <- app_assoc.
Qed.

Lemma StronglySorted_split {A : Type} (R : A -> A -> Prop) (n : nat) (l : list A) :
  StronglySorted R l ->
  forall a b, In a (firstn n l) -> In b (skipn n l) -> R a b.
Proof.
  intros Hs. revert n. induction Hs as [|x l Hs IH Hx]; intros n a b Ha Hb.
  - now rewrite firstn_nil in Ha.
  - destruct n as [|n]; [contradiction|]. cbn [firstn skipn] in *.
    destruct Ha as [<-|Ha].
    + rewrite List.Forall_forall in Hx. apply Hx.
      rewrite <- (firstn_skipn n l). apply in_or_app. now right.
    + now apply (IH n).
Qed.

(** X15. Top returns the first entries of the store, as many as asked for
    (8 when the limit is not positive) or as there are, as matches that are
    not exact; in a store that Store.normalize left, no entry that is left
    out scores higher than one that is returned. *)
Theorem Top_spec (s : Store) (limit : Z) :
  Top s limit = map toMatch (firstn (askedFor limit) (Entries s))
  /\ length (Top s limit) = Nat.min (askedFor limit) (length (Entries s))
  /\ (wellKept s ->
      forall a b, In a (firstn (askedFor limit) (Entries s)) ->
                  In b (skipn (askedFor limit) (Entries s)) ->
                  (Score b <= Score a)%Q).
Proof.
  assert (Htop : Top s limit = map toMatch (firstn (askedFor limit) (Entries s))).
  { unfold Top, askedFor. cbv zeta.
    set (l := if (limit <=? 0)%Z then 8%Z else limit).
    assert (Hpos : (0 < l)%Z) by (subst l; destruct (Z.leb_spec limit 0); lia).
    rewrite topLoop_firstn by (cbn; lia). cbn [app length]. now rewrite Nat.sub_0_r. }
  split; [exact Htop|]. split.
  - rewrite Htop, length_map, length_firstn. reflexivity.
  - intros (_ & Hsorted & _) a b Ha Hb.
    pose proof (StronglySorted_split _ _ _ Hsorted a b Ha Hb) as [Hr|[Hr _]].
    + now apply Qlt_le_weak.
    + rewrite Hr. apply Qle_refl.
Qed.

Lemma filter_length_split {A : Type} (p : A -> bool) (l : list A) :
  length l = length (List.filter p l) + length (List.filter (fun x => negb (p x)) l).
Proof.
  induction l as [|x l IH]; [reflexivity|]. cbn. destruct (p x); cbn; lia.
Qed.

Lemma normalize_cleaned (e : Entry) : normalize (Query (cleaned e)) = normalize (Query e).
Proof.
  pose proof (pairKey_cleaned e) as H. unfold pairKey in H. now injection H.
Qed.

(** X16. ForgetQuery does nothing for a query that normalizes to the empty
    text; otherwise it returns the number of entries stored for the query and
    leaves no entry for it, and every entry it leaves is a cleaned entry of
    the store that was stored for another query. *)
Theorem ForgetQuery_spec (s : Store) (query : string) :
  (normalize query = EmptyString -> ForgetQuery s query = (s, 0))
  /\ (normalize query <> EmptyString ->
      (ForgetQuery s query).2 = length (List.filter (storedFor query) (Entries s))
      /\ (forall e, In e (Entries (ForgetQuery s query).1) ->
            storedFor query e = false
            /\ exists e0, In e0 (Entries s) /\ storedFor query e0 = false /\ e = cleaned e0)).
Proof.
  unfold ForgetQuery. cbv zeta. split.
  - intros ->. reflexivity.
  - intros Hne. apply isEmpty_false in Hne. rewrite Hne. cbn [fst snd].
    split.
    + rewrite (filter_length_split (storedFor query) (Entries s)) at 1.
      unfold storedFor. cbv beta. lia.
    + intros e He. apply normalizeStore_from in He as (e0 & He0 & ->).
      cbn [Entries] in He0. apply filter_In in He0 as [Hin Hq].
      apply negb_true_iff in Hq.
      unfold storedFor. rewrite normalize_cleaned.
      split; [exact Hq|]. exists e0. now repeat split.
Qed.

End MemoryMoreProps.

Module RememberProps.
Import GoStrings GoStringsFacts StringFacts RegexpFacts QFacts.
Import Memory MemorySpec MemoryMoreSpec MemoryProps ListFacts.

Lemma toLowerByte_bar (c : ascii) : ascii_eqb (toLowerByte c) "|" = ascii_eqb c "|".
Proof. destruct c as [[] [] [] [] [] [] [] []]; reflexivity. Qed.

Lemma ContainsRune_ToLower_bar (s : string) :
  ContainsRune (ToLower s) "|" = ContainsRune s "|".
Proof.
  induction s as [|c s IH]; [reflexivity|]. cbn [ToLower ContainsRune].
  now rewrite toLowerByte_bar, IH.
Qed.

Lemma replaceAllFrom_ContainsRune (s old new : string) (skip : nat) (r : ascii) :
  ContainsRune s r = false -> ContainsRune new r = false ->
  ContainsRune (replaceAllFrom s old new skip) r = false.
Proof.
  intros Hs Hnew. revert skip. induction s as [|c s IH]; intros skip; [reflexivity|].
  cbn [ContainsRune] in Hs. apply orb_false_iff in Hs as [Hc Hs].
  cbn [replaceAllFrom]. destruct skip as [|skip]; [|now apply IH].
  destruct (HasPrefix (String c s) old).
  - rewrite ContainsRune_append, Hnew. now apply IH.
  - cbn [ContainsRune]. rewrite Hc. now apply IH.
Qed.

Lemma collapseSpaces_ContainsRune (fuel : nat) (s : string) (r : ascii) :
  ContainsRune s r = false -> ascii_eqb " " r = false ->
  ContainsRune (collapseSpaces fuel s) r = false.
Proof.
  intros Hs Hr. revert s Hs. induction fuel as [|fuel IH]; intros s Hs; [exact Hs|].
  cbn [collapseSpaces]. destruct (Contains s "  "); [|exact Hs].
  apply IH. apply replaceAllFrom_ContainsRune; [exact Hs|].
  cbn [ContainsRune]. now rewrite Hr.
Qed.

(** Normalizing introduces no bar. *)
Lemma normalize_barFree (x : string) :
  ContainsRune x "|" = false -> ContainsRune (normalize x) "|" = false.
Proof.
  intros H. unfold normalize. apply collapseSpaces_ContainsRune; [|reflexivity].
  rewrite ContainsRune_ToLower_bar. now apply ContainsRune_TrimSpace.
Qed.

Lemma replaceAll_nonempty (s old new : string) :
  s <> EmptyString -> new <> EmptyString -> ReplaceAll s old new <> EmptyString.
Proof.
  intros Hs Hnew. destruct s as [|c s]; [contradiction|].
  unfold ReplaceAll. cbn [replaceAllFrom].
  destruct (HasPrefix (String c s) old); [|discriminate].
  destruct new; [contradiction|]. rewrite append_cons. discriminate.
Qed.

Lemma collapseSpaces_nonempty (fuel : nat) (s : string) :
  s <> EmptyString -> collapseSpaces fuel s <> EmptyString.
Proof.
  revert s. induction fuel as [|fuel IH]; intros s Hs; [exact Hs|].
  cbn [collapseSpaces]. destruct (Contains s "  "); [|exact Hs].
  apply IH. apply replaceAll_nonempty; [exact Hs|discriminate].
Qed.

Lemma normalize_nonempty (x : string) :
  normalize x <> EmptyString <-> TrimSpace x <> EmptyString.
Proof.
  unfold normalize. split.
  - intros H E. apply H. now rewrite E.
  - intros H. apply collapseSpaces_nonempty.
    destruct (TrimSpace x); [contradiction|discriminate].
Qed.

(** Two keys whose first halves hold no bar are equal only for equal pairs. *)
Lemma key_unique (a b a' b' : string) :
  ContainsRune a "|" = false -> ContainsRune a' "|" = false ->
  a +:+ "|" +:+ b = a' +:+ "|" +:+ b' -> a = a' /\ b = b'.
Proof.
  revert a'. induction a as [|x a IH]; intros a' Ha Ha' E.
  - rewrite append_nil_l in E. destruct a' as [|d t].
    + rewrite append_nil_l in E. now injection E.
    + rewrite !append_cons, append_nil_l in E. injection E as <- _.
      cbn in Ha'. discriminate.
  - cbn [ContainsRune] in Ha. apply orb_false_iff in Ha as [Hx Ha].
    destruct a' as [|d t].
    + rewrite !append_cons, !append_nil_l in E. injection E as -> _. discriminate.
    + cbn [ContainsRune] in Ha'. apply orb_false_iff in Ha' as [_ Ha'].
      rewrite !append_cons in E. injection E as <- E.
      destruct (IH t Ha Ha' E) as [-> ->]. now split.
Qed.

Lemma entryKey_pair (e e' : Entry) :
  ContainsRune (Query e) "|" = false -> ContainsRune (Query e') "|" = false ->
  entryKey e' = entryKey e -> pairKey e' = pairKey e.
Proof.
  intros Hq Hq' E. unfold entryKey in E. symmetry in E.
  apply key_unique in E as [E1 E2]; [| now apply normalize_barFree..].
  unfold pairKey. now rewrite E1, E2.
Qed.

Lemma entryKey_cleaned (e : Entry) : entryKey (cleaned e) = entryKey e.
Proof.
  pose proof (pairKey_cleaned e) as H. unfold pairKey in H. injection H as Hq Hc.
  unfold entryKey. now rewrite Hq, Hc.
Qed.

Lemma normalizeStep_grows (acc : list Entry * gset string) (e x : Entry) :
  In x acc.1 -> In x (normalizeStep acc e).1.
Proof.
  intros H. unfold normalizeStep. destruct (_ || _); [exact H|].
  case_bool_decide; [exact H|]. cbn [fst]. apply in_or_app. now left.
Qed.

Lemma normalizeLoop_grows (l : list Entry) (acc : list Entry * gset string) (x : Entry) :
  In x acc.1 -> In x (fold_left normalizeStep l acc).1.
Proof.
  revert acc. induction l as [|e l IH]; intros acc H; [exact H|].
  cbn [fold_left]. apply IH. now apply normalizeStep_grows.
Qed.

(** [Store.normalize] keeps the first entry of every key. *)
Lemma normalizeStore_keeps (before after : list Entry) (e : Entry) :
  TrimSpace (Query e) <> EmptyString -> TrimSpace (Command e) <> EmptyString ->
  (forall e0, In e0 before -> entryKey e0 <> entryKey e) ->
  In (cleaned e) (Entries (normalizeStore (mkStore (before ++ e :: after)))).
Proof.
  intros Hq Hc Hfresh. unfold normalizeStore. cbn [Entries].
  apply list_elem_of_In. rewrite GoSortFacts.Slice_Permutation. apply list_elem_of_In.
  rewrite fold_left_app. cbn [fold_left]. apply normalizeLoop_grows.
  destruct (normalizeLoop_kept before before ([], ∅)) as (Hnd & Hseen & Hall);
    [auto|split; [constructor|split; [reflexivity|constructor]]|].
  set (acc := fold_left normalizeStep before ([], ∅)) in *.
  unfold normalizeStep. cbn [trimEntry Query Command].
  apply isEmpty_false in Hq, Hc. rewrite Hq, Hc. cbn [orb].
  fold (cleaned e).
  case_bool_decide as Hk.
  - exfalso. rewrite Hseen in Hk. apply elem_of_list_to_set, list_elem_of_fmap in Hk.
    destruct Hk as (x & Hx & Hin).
    rewrite Forall_forall in Hall. destruct (Hall x Hin) as (e0 & He0 & ->).
    rewrite !entryKey_cleaned in Hx. now apply (Hfresh e0 He0).
  - cbn [fst]. apply in_or_app. right. now left.
Qed.

Lemma entryIndexFrom_None (entries : list Entry) (qn cn : string) (start : nat) :
  entryIndexFrom entries qn cn start = None ->
  forall e, In e entries -> pairKey e <> (qn, cn).
Proof.
  revert start. induction entries as [|x entries IH]; intros start H e He; [contradiction|].
  cbn [entryIndexFrom] in H.
  destruct (String.eqb_spec (normalize (Query x)) qn) as [Hq|Hq];
    destruct (String.eqb_spec (normalize (Command x)) cn) as [Hc|Hc];
    cbn [andb] in H; try discriminate;
    (destruct He as [<-|He]; [unfold pairKey; congruence|now apply (IH (S start))]).
Qed.

Lemma entryIndexFrom_least (entries : list Entry) (qn cn : string) (start idx : nat) :
  entryIndexFrom entries qn cn start = Some idx ->
  forall e, In e (firstn (idx - start) entries) -> pairKey e <> (qn, cn).
Proof.
  revert start. induction entries as [|x entries IH]; intros start H e He; [discriminate|].
  cbn [entryIndexFrom] in H.
  destruct (String.eqb (normalize (Query x)) qn && String.eqb (normalize (Command x)) cn)
    eqn:E.
  - injection H as <-. rewrite Nat.sub_diag in He. contradiction.
  - pose proof (entryIndexFrom_Some _ _ _ _ _ H) as [Hle _].
    replace (idx - start) with (S (idx - S start)) in He by lia.
    cbn [firstn] in He. destruct He as [<-|He].
    + unfold pairKey. intros Hk. injection Hk as Hq Hc.
      rewrite Hq, Hc, !String.eqb_refl in E. discriminate.
    + now apply (IH (S start)).
Qed.

Section Remembering.

Variable now : string.

(** X17. Remember rejects a blank query or command.  Otherwise, in a store
    whose scores are not negative, when neither the query nor a stored query
    holds a bar, the pair is found in the store afterwards, with a score
    between 24 and 100 and with the time of the call as its update and last
    use. *)
Theorem Remember_found (s : Store) (query command : string) :
  (TrimSpace query = EmptyString \/ TrimSpace command = EmptyString ->
   Remember now s query command = Err "query and command are required")
  /\ (TrimSpace query <> EmptyString -> TrimSpace command <> EmptyString ->
      ContainsRune query "|" = false ->
      Forall (fun e => ContainsRune (Query e) "|" = false /\ (0 <= Score e)%Q) (Entries s) ->
      exists s' idx e,
        Remember now s query command = Ok s'
        /\ entryIndex s' query command = Some idx
        /\ nth_error (Entries s') idx = Some e
        /\ (24 <= Score e)%Q /\ (Score e <= 100)%Q
        /\ UpdatedAt e = now /\ LastUsedAt e = now).
Proof.
  unfold Remember, adjust. cbv zeta. split.
  { intros [-> | ->]; [reflexivity|]. now rewrite orb_true_r. }
  intros Hq Hc Hqb Hstore.
  apply isEmpty_false in Hq as Hq', Hc as Hc'. rewrite Hq', Hc'. cbn [orb].
  assert (Hfound : forall entry before after,
             pairKey entry = (normalize query, normalize command) ->
             ContainsRune (Query entry) "|" = false ->
             (forall e0, In e0 before -> ContainsRune (Query e0) "|" = false) ->
             TrimSpace (Query entry) <> EmptyString ->
             TrimSpace (Command entry) <> EmptyString ->
             (0 < Score entry)%Q ->
             (forall e0, In e0 before -> pairKey e0 <> (normalize query, normalize command)) ->
             exists idx,
               entryIndex (normalizeStore (mkStore (before ++ entry :: after))) query command
               = Some idx
               /\ nth_error (Entries (normalizeStore (mkStore (before ++ entry :: after)))) idx
                  = Some (cleaned entry)).
  { intros entry before after Hk Hbar Hbars Heq Hec Hpos Hfresh.
    assert (Hin : In (cleaned entry)
                    (Entries (normalizeStore (mkStore (before ++ entry :: after))))).
    { apply normalizeStore_keeps; [exact Heq|exact Hec|].
      intros e0 He0 Hkey. apply (Hfresh e0 He0). rewrite <- Hk.
      apply entryKey_pair; [exact Hbar|now apply Hbars|exact Hkey]. }
    destruct (normalizeStore_wellKept (mkStore (before ++ entry :: after))) as (Hnd & _ & _).
    destruct (entryIndexFrom_first _ (normalize query) (normalize command) 0 (cleaned entry)
                Hnd Hin) as (idx & Hidx & Hnth).
    - now rewrite pairKey_cleaned.
    - exists idx. rewrite Nat.sub_0_r in Hnth. split; [exact Hidx|exact Hnth]. }
  unfold entryIndex at 1. rewrite !normalize_trim.
  destruct (entryIndexFrom (Entries s) (normalize query) (normalize command) 0) as [idx|] eqn:Ei.
  - destruct (entryIndexFrom_Some _ _ _ _ _ Ei) as (_ & old & Hold & Hk).
    rewrite Nat.sub_0_r in Hold. rewrite Hold.
    assert (Hin : In old (Entries s)) by (eapply nth_error_In; eassumption).
    assert (Hnn : (0 <= Score old)%Q).
    { rewrite Forall_forall in Hstore. apply Hstore. now apply list_elem_of_In. }
    assert (Hob : ContainsRune (Query old) "|" = false).
    { rewrite Forall_forall in Hstore. apply Hstore. now apply list_elem_of_In. }
    assert (Hclamp : (24 <= clampScore (Score old + 24))%Q
                     /\ (clampScore (Score old + 24) <= 100)%Q).
    { unfold clampScore.
      destruct (Qltb (Score old + 24) 0) eqn:E1.
      - apply Qltb_lt in E1. exfalso.
        apply (Qlt_irrefl 0). eapply Qle_lt_trans; [|exact E1].
        rewrite <- (Qplus_0_r 0). apply Qplus_le_compat; [exact Hnn|discriminate].
      - unfold Qgtb. destruct (Qltb 100 (Score old + 24)) eqn:E2.
        + split; discriminate.
        + apply Qltb_ge in E2. split; [|exact E2].
          rewrite <- (Qplus_0_l 24) at 1. apply Qplus_le_compat; [exact Hnn|apply Qle_refl]. }
    cbn [Score]. destruct Hclamp as [Hlo Hhi].
    assert (Hpos : (0 < clampScore (Score old + 24))%Q)
      by (eapply Qlt_le_trans; [|exact Hlo]; reflexivity).
    assert (Hnle : Qleb (clampScore (Score old + 24)) 0 = false)
      by (now apply Qleb_gt).
    rewrite Hnle.
    assert (Hlen : idx < length (Entries s)) by (apply nth_error_Some; congruence).
    rewrite insert_take_drop by exact Hlen.
    unfold pairKey in Hk. injection Hk as Hkq Hkc.
    match goal with |- context [take idx (Entries s) ++ ?x :: _] => set (entry := x) end.
    destruct (Hfound entry (take idx (Entries s)) (drop (S idx) (Entries s)))
      as (idx' & Hidx' & Hnth').
    + unfold pairKey, entry. cbn [Query Command]. now rewrite Hkq, Hkc.
    + exact Hob.
    + intros e0 He0. rewrite Forall_forall in Hstore. apply Hstore.
      apply list_elem_of_In. rewrite <- (firstn_skipn idx (Entries s)).
      apply in_or_app. now left.
    + unfold entry. cbn [Query]. apply normalize_nonempty. rewrite Hkq.
      now apply normalize_nonempty.
    + unfold entry. cbn [Command]. apply normalize_nonempty. rewrite Hkc.
      now apply normalize_nonempty.
    + exact Hpos.
    + intros e0 He0. apply (entryIndexFrom_least _ _ _ 0 idx Ei).
      now rewrite Nat.sub_0_r.
    + eexists _, idx', (cleaned entry). split; [reflexivity|].
      split; [exact Hidx'|]. split; [exact Hnth'|].
      rewrite (Score_cleaned_pos entry Hpos).
      unfold cleaned. destruct (Qltb _ 0); cbn; now repeat split.
  - set (entry := mkEntry _ _ _ _ _ _ _ _).
    assert (Hs36 : Score entry = clampScore (12 + 24)) by reflexivity.
    assert (Hval : clampScore (12 + 24) = (12 + 24)%Q) by reflexivity.
    destruct (Hfound entry (Entries s) []) as (idx' & Hidx' & Hnth').
    + unfold pairKey, entry. cbn [Query Command]. now rewrite !normalize_trim.
    + unfold entry. cbn [Query]. now apply ContainsRune_TrimSpace.
    + intros e0 He0. rewrite Forall_forall in Hstore. apply Hstore.
      now apply list_elem_of_In.
    + unfold entry. cbn [Query]. now rewrite TrimSpace_idem.
    + unfold entry. cbn [Command]. now rewrite TrimSpace_idem.
    + rewrite Hs36, Hval. reflexivity.
    + now apply (entryIndexFrom_None _ _ _ 0).
    + eexists _, idx', (cleaned entry). split; [reflexivity|].
      split; [exact Hidx'|]. split; [exact Hnth'|].
      assert (Hpos : (0 < Score entry)%Q) by (rewrite Hs36, Hval; reflexivity).
      rewrite (Score_cleaned_pos entry Hpos), Hs36, Hval.
      unfold cleaned. destruct (Qltb _ 0); cbn; repeat split; discriminate.
Qed.

End Remembering.


Lemma Remember_found_witness :
  exists s' idx e,
    Remember "2026-02-01T00:00:00Z" smallStore "count lines" "cat notes | wc -l" = Ok s'
    /\ entryIndex s' "count lines" "cat notes | wc -l" = Some idx
    /\ nth_error (Entries s') idx = Some e
    /\ (24 <= Score e)%Q /\ (Score e <= 100)%Q
    /\ UpdatedAt e = "2026-02-01T00:00:00Z" /\ LastUsedAt e = "2026-02-01T00:00:00Z".
Proof.
  apply (proj2 (Remember_found "2026-02-01T00:00:00Z" smallStore "count lines"
                  "cat notes | wc -l"));
    [discriminate|discriminate|reflexivity|].
  repeat (constructor; [split; [reflexivity|discriminate]|]). constructor.
Defined.

(** The bar matters: Store.normalize removes duplicates by the query and the
    command joined with a bar, so a pair whose query holds a bar can be taken
    for another pair and be dropped. *)
Lemma Remember_bar_example :
  exists s',
    Remember "2026-02-01T00:00:00Z"
      (mkStore [mkEntry "a" "b|c" 50 1 1 0 "2026-01-01T00:00:00Z" EmptyString]) "a|b" "c"
    = Ok s'
    /\ entryIndex s' "a|b" "c" = None.
Proof. eexists. split; vm_compute; reflexivity. Qed.

End RememberProps.

(** ** [internal/history]: the latest entry, search tokens and the loaders *)

Module HistoryMoreProps.
Import GoStrings GoStringsFacts StringFacts RegexpFacts.
Import History HistorySpec HistoryLatest HistoryMoreSpec HistoryProps ListFacts.
Import TokenSpec TokenFacts.

Lemma dated_test (now maxAge : Z) (entry : Entry) :
  ((Timestamp entry =? zeroTime)%Z || approxTS entry = false
   /\ (0 <? maxAge)%Z
      && ((Sub now (Timestamp entry) <? 0)%Z || (maxAge <? Sub now (Timestamp entry))%Z)
      = false)
  <-> dated now maxAge entry.
Proof.
  unfold dated. rewrite orb_false_iff, Z.eqb_neq, andb_false_iff, orb_false_iff,
    Z.ltb_ge, !Z.ltb_ge. split.
  - intros [[H1 H2] H3]. repeat split; try assumption; destruct H3; lia.
  - intros (H1 & H2 & H3). split; [now split|].
    destruct (Z.lt_ge_cases 0 maxAge) as [Hpos|Hnp]; [right|left; lia].
    specialize (H3 Hpos). lia.
Qed.

Lemma firstDated_spec (now maxAge : Z) (entries : list Entry) :
  match firstDated now maxAge entries with
  | Some e =>
      exists before after,
        entries = before ++ e :: after
        /\ dated now maxAge e
        /\ Forall (fun e' => ~ dated now maxAge e') before
  | None => Forall (fun e' => ~ dated now maxAge e') entries
  end.
Proof.
  induction entries as [|latest rest IH]; [constructor|].
  cbn [firstDated].
  destruct ((Timestamp latest =? zeroTime)%Z || approxTS latest) eqn:E1.
  { assert (Hn : ~ dated now maxAge latest).
    { intros H. apply dated_test in H as [H _]. congruence. }
    destruct (firstDated now maxAge rest) as [e|].
    - destruct IH as (before & after & -> & Hd & Hb).
      exists (latest :: before), after. split; [reflexivity|]. split; [exact Hd|].
      now constructor.
    - now constructor. }
  cbv zeta.
  destruct ((0 <? maxAge)%Z && _) eqn:E2.
  { assert (Hn : ~ dated now maxAge latest).
    { intros H. apply dated_test in H as [_ H]. congruence. }
    destruct (firstDated now maxAge rest) as [e|].
    - destruct IH as (before & after & -> & Hd & Hb).
      exists (latest :: before), after. split; [reflexivity|]. split; [exact Hd|].
      now constructor.
    - now constructor. }
  exists [], rest. split; [reflexivity|]. split; [|constructor].
  apply dated_test. now split.
Qed.

Lemma LoadEntries_sorted (files : list (option (list Entry))) :
  StronglySorted (fun a b => notNewer b a) (LoadEntries files).
Proof.
  unfold LoadEntries. destruct (collect files); [constructor|].
  apply StronglySorted_firstn.
  eapply StronglySorted_weaken; [exact notAfter_notNewer|].
  apply GoSortFacts.Slice_sorted; [exact historyLess_asym|exact historyLess_negtrans].
Qed.

Lemma StronglySorted_middle {A : Type} (R : A -> A -> Prop) (before after : list A) (x : A) :
  StronglySorted R (before ++ x :: after) -> Forall (R x) after.
Proof.
  induction before as [|b before IH]; cbn; intros H; inversion H; subst; auto.
Qed.

(** X20. LatestEntry returns the most recent loaded entry that has a time
    stamp of its own and, when a maximal age is given, is neither older than
    it nor in the future; it returns nothing exactly when no loaded entry is
    such. *)
Theorem LatestEntry_spec (now maxAge : Z) (files : list (option (list Entry))) :
  match LatestEntry now maxAge files with
  | Some e =>
      In e (LoadEntries files)
      /\ dated now maxAge e
      /\ forall e', In e' (LoadEntries files) -> dated now maxAge e' -> notNewer e' e
  | None => forall e', In e' (LoadEntries files) -> ~ dated now maxAge e'
  end.
Proof.
  unfold LatestEntry.
  pose proof (firstDated_spec now maxAge (LoadEntries files)) as H.
  pose proof (LoadEntries_sorted files) as Hs.
  destruct (firstDated now maxAge (LoadEntries files)) as [e|].
  - destruct H as (before & after & E & Hd & Hb). rewrite E in *.
    split; [apply in_or_app; right; now left|]. split; [exact Hd|].
    intros e' He' Hd'. apply in_app_or in He'. destruct He' as [He'|[<-|He']].
    + rewrite List.Forall_forall in Hb. now destruct (Hb e' He').
    + apply notNewer_refl.
    + apply StronglySorted_middle in Hs. rewrite List.Forall_forall in Hs.
      now apply Hs.
  - intros e' He'. rewrite List.Forall_forall in H. now apply H.
Qed.

Lemma tokenStep_pushNew (acc : list string * gset string) (p : string) :
  HistorySearch.tokenStep acc p
  = pushNew (fun p => ToLower (Trim (TrimSpace p) MemoryCompat.punctuation))
      (fun token => (String.length token <? 3) || inList token HistorySearch.stopwords) acc p.
Proof.
  unfold HistorySearch.tokenStep, pushNew. cbv zeta.
  destruct (String.length _ <? 3); [reflexivity|]. cbn [orb].
  now destruct (inList _ HistorySearch.stopwords).
Qed.

(** X18. The tokens of a history search are distinct, lower-cased, at least
    three bytes long and never stopwords, there are at most as many as the
    query has fields, and the number of tokens a command must match never
    exceeds their number nor three. *)
Theorem history_splitTokens_spec (query : string) :
  let tokens := HistorySearch.splitTokens query in
  NoDup tokens
  /\ Forall (fun token => 3 <= String.length token
                          /\ inList token HistorySearch.stopwords = false
                          /\ ToLower token = token) tokens
  /\ length tokens <= length (FieldsFunc query MemoryCompat.isSeparator)
  /\ HistorySearch.minimumTokenMatches tokens <= Nat.min 3 (length tokens).
Proof.
  cbv zeta.
  assert (Hmin : forall tokens,
             HistorySearch.minimumTokenMatches tokens <= Nat.min 3 (length tokens)).
  { intros tokens. unfold HistorySearch.minimumTokenMatches. cbv zeta.
    set (count := length _).
    assert (Hle : count <= length tokens) by apply List.filter_length_le.
    destruct (Nat.eqb_spec count 0); [lia|].
    destruct (Nat.leb_spec 6 count); [lia|].
    destruct (Nat.leb_spec 2 count); lia. }
  split; [|split; [|split; [|apply Hmin]]]; clear Hmin; unfold HistorySearch.splitTokens;
    rewrite (FindProps.fold_left_ext _ _ _ _ tokenStep_pushNew);
    destruct (pushNew_loop (fun p => ToLower (Trim (TrimSpace p) MemoryCompat.punctuation))
                (fun token => (String.length token <? 3)
                              || inList token HistorySearch.stopwords)
                (FieldsFunc query MemoryCompat.isSeparator))
      as (Hnd & Hlen & Hin); [exact Hnd| |exact Hlen].
  apply List.Forall_forall. intros t Ht. apply Hin in Ht as (part & _ & -> & Hr).
  apply orb_false_iff in Hr as [Hl Hs]. apply Nat.ltb_ge in Hl.
  split; [exact Hl|]. split; [exact Hs|apply ToLower_idem].
Qed.

End HistoryMoreProps.

Module TokenIndexProps.
Import GoStrings GoStringsFacts StringFacts RegexpFacts HistorySearch FindSpec.

Lemma sliceFrom_nil (n : nat) : sliceFrom EmptyString n = EmptyString.
Proof. now destruct n. Qed.

Lemma sliceFrom_0 (s : string) : sliceFrom s 0 = s.
Proof. now destruct s. Qed.

Lemma sliceFrom_add (s : string) (a b : nat) :
  sliceFrom (sliceFrom s a) b = sliceFrom s (b + a).
Proof.
  revert s. induction a as [|a IH]; intros s.
  - now rewrite Nat.add_0_r, sliceFrom_0.
  - rewrite Nat.add_succ_r. destruct s as [|c s].
    + now rewrite !sliceFrom_nil.
    + cbn [sliceFrom]. apply IH.
Qed.

Lemma HasPrefix_nil (s : string) : HasPrefix s EmptyString = true.
Proof. now destruct s. Qed.

Lemma HasPrefix_substring (s t : string) :
  HasPrefix s t = true <->
  String.substring 0 (String.length t) s = t /\ String.length t <= String.length s.
Proof.
  revert s. induction t as [|d t IH]; intros s.
  - rewrite HasPrefix_nil. cbn. split; [intros _|reflexivity].
    split; [now destruct s|lia].
  - destruct s as [|c s]; cbn [HasPrefix String.length String.substring].
    + split; [discriminate|]. intros [_ H]. lia.
    + rewrite andb_true_iff, IH. unfold ascii_eqb. rewrite Ascii.eqb_eq. split.
      * intros [-> [-> Hl]]. split; [reflexivity|lia].
      * intros [E Hl]. injection E as -> E. repeat split; [exact E|lia].
Qed.

Lemma substring_sliceFrom (s : string) (i n : nat) :
  String.substring i n s = String.substring 0 n (sliceFrom s i).
Proof.
  revert s. induction i as [|i IH]; intros s; [now rewrite sliceFrom_0|].
  destruct s as [|c s]; cbn [sliceFrom String.substring]; [now destruct n|apply IH].
Qed.

Lemma length_sliceFrom (s : string) (i : nat) :
  String.length (sliceFrom s i) = String.length s - i.
Proof.
  revert s. induction i as [|i IH]; intros s; [rewrite sliceFrom_0; lia|].
  destruct s as [|c s]; [reflexivity|]. cbn [sliceFrom String.length]. rewrite IH. lia.
Qed.

(** The token occurs in the command at position [i]. *)
Lemma occurs_at (command token : string) (i : nat) :
  token <> EmptyString ->
  HasPrefix (sliceFrom command i) token = true <->
  String.substring i (String.length token) command = token
  /\ i + String.length token <= String.length command.
Proof.
  intros Hne. rewrite HasPrefix_substring, <- substring_sliceFrom, length_sliceFrom.
  assert (0 < String.length token) by (destruct token; [contradiction|cbn; lia]).
  split; intros [E Hl]; (split; [exact E|lia]).
Qed.

Lemma Index_spec (s t : string) :
  match Index s t with
  | Some k => HasPrefix (sliceFrom s k) t = true
              /\ forall j, j < k -> HasPrefix (sliceFrom s j) t = false
  | None => forall j, HasPrefix (sliceFrom s j) t = false
  end.
Proof.
  induction s as [|c s IH]; cbn [Index].
  - destruct (HasPrefix EmptyString t) eqn:E.
    + split; [exact E|]. intros j Hj. lia.
    + intros j. now rewrite sliceFrom_nil.
  - destruct (HasPrefix (String c s) t) eqn:E.
    + split; [exact E|]. intros j Hj. lia.
    + destruct (Index s t) as [k|]; cbn [option_map].
      * destruct IH as [Hk Hlt]. split; [exact Hk|].
        intros [|j] Hj; [exact E|]. cbn [sliceFrom]. apply Hlt. lia.
      * intros [|j]; [exact E|]. cbn [sliceFrom]. apply IH.
Qed.

Lemma get_Some (s : string) (i : nat) :
  i < String.length s -> exists b, String.get i s = Some b.
Proof.
  revert i. induction s as [|c s IH]; intros i Hi; [cbn in Hi; lia|].
  destruct i as [|i]; cbn [String.get]; [now exists c|].
  apply IH. cbn in Hi. lia.
Qed.

(** The two tests of the loop say that the token stands at the position. *)
Lemma boundary_test (command token : string) (idx : nat) :
  token <> EmptyString ->
  HasPrefix (sliceFrom command idx) token = true ->
  ((idx =? 0)
   || match String.get (idx - 1) command with
      | Some b => negb (isTokenChar b)
      | None => true
      end)
  && ((String.length command <=? idx + String.length token)
      || match String.get (idx + String.length token) command with
         | Some b => negb (isTokenChar b)
         | None => true
         end) = true
  <-> standsAt command token idx.
Proof.
  intros Hne Hocc. apply occurs_at in Hocc as [Hsub Hlen]; [|exact Hne].
  unfold standsAt. rewrite andb_true_iff, !orb_true_iff, Nat.eqb_eq, Nat.leb_le.
  split.
  - intros [Hb Ha]. split; [exact Hsub|]. split; [exact Hlen|]. split.
    + destruct Hb as [Hb|Hb]; [now left|].
      destruct idx as [|idx]; [now left|right].
      destruct (get_Some command (S idx - 1)) as [b Eb]; [lia|].
      rewrite Eb in Hb. exists b. split; [exact Eb|]. now apply negb_true_iff.
    + destruct Ha as [Ha|Ha]; [left; lia|].
      destruct (Nat.eq_dec (idx + String.length token) (String.length command)) as [E|E];
        [now left|right].
      destruct (get_Some command (idx + String.length token)) as [b Eb]; [lia|].
      rewrite Eb in Ha. exists b. split; [exact Eb|]. now apply negb_true_iff.
  - intros (_ & _ & Hb & Ha). split.
    + destruct Hb as [Hb|(b & Eb & Hb)]; [now left|right]. now rewrite Eb, Hb.
    + destruct Ha as [Ha|(b & Eb & Ha)]; [left; lia|right]. now rewrite Eb, Ha.
Qed.

Lemma standsAt_occurs (command token : string) (i : nat) :
  token <> EmptyString -> standsAt command token i ->
  HasPrefix (sliceFrom command i) token = true.
Proof. intros Hne (Hsub & Hlen & _). now apply occurs_at. Qed.

Lemma tokenIndexLoop_spec (fuel : nat) (command token : string) (start : nat) :
  token <> EmptyString ->
  String.length command < fuel + start ->
  (forall j, j < start -> ~ standsAt command token j) ->
  match tokenIndexLoop fuel command token start with
  | Some i => standsAt command token i /\ forall j, j < i -> ~ standsAt command token j
  | None => forall j, ~ standsAt command token j
  end.
Proof.
  intros Hne. revert start. induction fuel as [|fuel IH]; intros start Hfuel Hinv.
  - cbn [tokenIndexLoop]. intros j Hj.
    destruct (Nat.lt_ge_cases j start) as [Hlt|Hge]; [now apply (Hinv j)|].
    destruct Hj as (_ & Hlen & _). cbn in Hfuel.
    assert (0 < String.length token) by (destruct token; [contradiction|cbn; lia]). lia.
  - cbn [tokenIndexLoop].
    destruct (Z.leb_spec (Z.of_nat start)
                (Z.of_nat (String.length command) - Z.of_nat (String.length token)))
      as [Hroom|Hnoroom].
    + pose proof (Index_spec (sliceFrom command start) token) as HI.
      destruct (Index (sliceFrom command start) token) as [idx|].
      * destruct HI as [Hocc Hfirst]. rewrite sliceFrom_add in Hocc.
        assert (Hbetween : forall j, j < idx + start -> ~ standsAt command token j).
        { intros j Hj Hst.
          destruct (Nat.lt_ge_cases j start) as [Hlt|Hge]; [now apply (Hinv j)|].
          apply standsAt_occurs in Hst; [|exact Hne].
          specialize (Hfirst (j - start)). rewrite sliceFrom_add in Hfirst.
          replace (j - start + start) with j in Hfirst by lia.
          rewrite Hfirst in Hst by lia. discriminate. }
        pose proof (boundary_test command token (idx + start) Hne Hocc) as Hb.
        cbv zeta.
        destruct (_ && _) eqn:Etest.
        -- split; [now apply Hb|exact Hbetween].
        -- apply IH; [|].
           ++ apply occurs_at in Hocc as [_ Hl]; [|exact Hne]. lia.
           ++ intros j Hj Hst.
              destruct (Nat.eq_dec j (idx + start)) as [->|Hneq].
              ** apply Hb in Hst. congruence.
              ** apply (Hbetween j); [lia|exact Hst].
      * intros j Hst.
        destruct (Nat.lt_ge_cases j start) as [Hlt|Hge]; [now apply (Hinv j)|].
        apply standsAt_occurs in Hst; [|exact Hne].
        specialize (HI (j - start)). rewrite sliceFrom_add in HI.
        replace (j - start + start) with j in HI by lia. congruence.
    + intros j Hst.
      destruct (Nat.lt_ge_cases j start) as [Hlt|Hge]; [now apply (Hinv j)|].
      destruct Hst as (_ & Hlen & _). lia.
Qed.

(** X19. tokenIndex returns the first position at which the token stands
    in the command with no letter or digit next to it on either side, and it
    returns nothing exactly when the token is empty or stands nowhere so. *)
Theorem tokenIndex_spec (command token : string) :
  match tokenIndex command token with
  | Some i => standsAt command token i /\ forall j, j < i -> ~ standsAt command token j
  | None => token = EmptyString \/ forall j, ~ standsAt command token j
  end.
Proof.
  unfold tokenIndex. destruct (isEmpty token) eqn:E.
  - left. now apply isEmpty_true.
  - apply isEmpty_false in E.
    pose proof (tokenIndexLoop_spec (S (String.length command)) command token 0 E) as H.
    destruct (tokenIndexLoop _ command token 0) as [i|].
    + apply H; [lia|]. intros j Hj. lia.
    + right. apply H; [lia|]. intros j Hj. lia.
Qed.

End TokenIndexProps.

Module LoaderProps.
Import GoStrings GoStringsFacts StringFacts.
Import History HistoryLatest HistoryLoaders LoaderSpec.

Lemma untimedFrom_app (base : nat) (l : list Entry) (e : Entry) :
  untimedFrom base (l ++ [e])
  = untimedFrom base l ++ (if untimed e then [base + length l] else []).
Proof.
  revert base. induction l as [|x l IH]; intros base; cbn [untimedFrom app length].
  - rewrite Nat.add_0_r. now destruct (untimed e).
  - rewrite IH. replace (S base + length l) with (base + S (length l)) by lia.
    now destruct (untimed x).
Qed.

Lemma untimedFrom_length (base : nat) (l : list Entry) :
  length (untimedFrom base l) = length (List.filter untimed l).
Proof.
  revert base. induction l as [|x l IH]; intros base; cbn; [reflexivity|].
  destruct (untimed x); cbn; now rewrite IH.
Qed.

Lemma alter_middle (f : Entry -> Entry) (before after : list Entry) (e : Entry) :
  alter f (length before) (before ++ e :: after) = before ++ f e :: after.
Proof.
  induction before as [|b before IH]; [reflexivity|]. cbn. now rewrite IH.
Qed.

Lemma assignUntimed_stamped (start : Z) (parsed : list Entry) :
  forall (k : nat) (before : list Entry),
    assignUntimed start k (untimedFrom (length before) parsed) (before ++ parsed)
    = before ++ stamped start k parsed.
Proof.
  induction parsed as [|e rest IH]; intros k before; cbn [untimedFrom stamped].
  - reflexivity.
  - destruct (untimed e) eqn:E.
    + cbn [assignUntimed]. rewrite alter_middle.
      specialize (IH (S k) (before ++ [withTime e (start + Z.of_nat k * second) true])).
      rewrite length_app, Nat.add_1_r, <- !app_assoc in IH. exact IH.
    + specialize (IH k (before ++ [e])).
      rewrite length_app, Nat.add_1_r, <- !app_assoc in IH. exact IH.
Qed.

Section WithOracles.

Variable parseUnix : string -> option Z.
Variable now : Z.

Lemma zshStep_blank (acc : list Entry * list nat) (text : string) :
  isEmpty (TrimSpace text) = true -> zshStep parseUnix acc text = acc.
Proof. intros H. unfold zshStep. now rewrite H. Qed.

Lemma zshStep_entry (acc : list Entry * list nat) (text : string) :
  isEmpty (TrimSpace text) = false ->
  (zshStep parseUnix acc text).1 = acc.1 ++ [zshEntry parseUnix (TrimSpace text)]
  /\ (acc.2 = untimedFrom 0 acc.1 ->
      (zshStep parseUnix acc text).2 = untimedFrom 0 (zshStep parseUnix acc text).1).
Proof.
  intros H. unfold zshStep. rewrite H. cbv zeta.
  set (entry := zshEntry parseUnix (TrimSpace text)).
  destruct (Timestamp entry =? zeroTime)%Z eqn:E; cbn [fst snd].
  - split; [reflexivity|]. intros Hacc. rewrite untimedFrom_app. unfold untimed. rewrite E.
    rewrite Hacc, length_app. cbn [length]. do 2 f_equal. lia.
  - split; [reflexivity|]. intros Hacc. rewrite untimedFrom_app. unfold untimed. rewrite E.
    now rewrite app_nil_r.
Qed.

Lemma zshLoop (lines : list string) (acc : list Entry * list nat) :
  acc.2 = untimedFrom 0 acc.1 ->
  let out := fold_left (zshStep parseUnix) lines acc in
  out.1 = acc.1 ++ map (zshEntry parseUnix) (contentLines lines)
  /\ out.2 = untimedFrom 0 out.1.
Proof.
  cbv zeta. revert acc. induction lines as [|text lines IH]; intros acc Hacc.
  - cbn. now rewrite app_nil_r.
  - cbn [fold_left]. unfold contentLines. cbn [map List.filter].
    fold (contentLines lines).
    destruct (isEmpty (TrimSpace text)) eqn:Eb; cbn [negb].
    + rewrite (zshStep_blank acc text Eb). now apply IH.
    + destruct (zshStep_entry acc text Eb) as [H1 H2].
      destruct (IH _ (H2 Hacc)) as [H3 H4]. split; [|exact H4].
      rewrite H3, H1. cbn [map]. now rewrite <- app_assoc.
Qed.

Lemma stamped_Command (start : Z) (k : nat) (parsed : list Entry) :
  map Command (stamped start k parsed) = map Command parsed.
Proof.
  revert k. induction parsed as [|e rest IH]; intros k; cbn; [reflexivity|].
  destruct (untimed e); cbn; now rewrite IH.
Qed.

Lemma stamped_none (start : Z) (k : nat) (parsed : list Entry) :
  List.filter untimed parsed = [] -> stamped start k parsed = parsed.
Proof.
  revert k. induction parsed as [|e rest IH]; intros k; cbn; [reflexivity|].
  destruct (untimed e); [discriminate|]. intros H. now rewrite IH.
Qed.

(** Where the entries of [stamped] come from. *)
Lemma stamped_lookup (start : Z) (parsed : list Entry) (i : nat) (p : Entry) :
  forall k,
    parsed !! i = Some p ->
    stamped start k parsed !! i
    = Some (if untimed p
            then withTime p
                   (start + Z.of_nat (k + length (List.filter untimed (take i parsed)))
                            * second)%Z true
            else p).
Proof.
  revert i. induction parsed as [|e rest IH]; intros i k Hp; [discriminate|].
  destruct i as [|i]; cbn in Hp.
  - injection Hp as ->. cbn. rewrite Nat.add_0_r. now destruct (untimed p).
  - cbn [stamped take List.filter].
    destruct (untimed e); rewrite lookup_cons; cbn [length].
    + rewrite (IH i (S k) Hp). now rewrite Nat.add_succ_r.
    + apply (IH i k Hp).
Qed.

(** X22. loadZshHistory returns one entry for every line that is not
    blank, in file order, with the command, the time stamp and the source that
    the line gives; an entry with a time stamp of its own is left as read,
    and the k-th entry without one is marked approximate and given the time
    n - k seconds before now, where n is the number of such entries. *)
Theorem loadZshHistory_spec (lines : list string) :
  let parsed := map (zshEntry parseUnix) (contentLines lines) in
  let n := length (List.filter untimed parsed) in
  let out := loadZshHistory parseUnix now lines in
  out = stamped (now - Z.of_nat n * second) 0 parsed
  /\ map Command out = map Command parsed
  /\ length out = length (contentLines lines)
  /\ forall i p, parsed !! i = Some p ->
       exists e, out !! i = Some e
         /\ Source e = "zsh"
         /\ (untimed p = false -> e = p)
         /\ (untimed p = true ->
             approxTS e = true
             /\ exists k, k < n
                  /\ k = length (List.filter untimed (take i parsed))
                  /\ Timestamp e = (now - Z.of_nat (n - k) * second)%Z).
Proof.
  cbv zeta.
  set (parsed := map (zshEntry parseUnix) (contentLines lines)).
  set (n := length (List.filter untimed parsed)).
  assert (Hout : loadZshHistory parseUnix now lines
                 = stamped (now - Z.of_nat n * second) 0 parsed).
  { unfold loadZshHistory.
    destruct (zshLoop lines ([], []) eq_refl) as [H1 H2]. cbn [fst app] in H1.
    destruct (fold_left (zshStep parseUnix) lines ([], [])) as [entries untimedIndexes].
    cbn [fst snd] in H1, H2. fold parsed in H1. subst entries.
    assert (Hn : length untimedIndexes = n)
      by (rewrite H2; apply untimedFrom_length).
    destruct untimedIndexes as [|idx rest] eqn:Eu.
    - symmetry. apply stamped_none. cbn in Hn.
      destruct (List.filter untimed parsed); [reflexivity|discriminate].
    - rewrite Hn, H2. apply (assignUntimed_stamped _ parsed 0 []). }
  rewrite Hout. split; [reflexivity|]. split; [apply stamped_Command|]. split.
  - rewrite <- (length_map Command), stamped_Command, length_map.
    unfold parsed. apply length_map.
  - intros i p Hp. rewrite (stamped_lookup _ parsed i p 0 Hp). eexists. split; [reflexivity|].
    assert (Hsrc : Source p = "zsh").
    { apply list_lookup_fmap_Some in Hp as (line & -> & _).
      unfold zshEntry. destruct (HasPrefix line ": "); [|reflexivity].
      destruct (SplitN2 line ";") as [[head command]|]; [|reflexivity].
      destruct (SplitByte _ ":") as [|first rest]; [reflexivity|].
      now destruct (parseUnix first). }
    split; [now destruct (untimed p)|].
    split; [now intros ->|]. intros Hu. rewrite Hu. cbn [approxTS Timestamp withTime].
    split; [reflexivity|].
    exists (length (List.filter untimed (take i parsed))).
    assert (Hlt : length (List.filter untimed (take i parsed)) < n).
    { unfold n. rewrite <- (take_drop i parsed) at 2.
      rewrite List.filter_app, length_app.
      rewrite (drop_S parsed p i Hp). cbn [List.filter]. rewrite Hu. cbn [length]. lia. }
    split; [exact Hlt|]. split; [reflexivity|]. cbn [Nat.add]. unfold second. lia.
Qed.

End WithOracles.

End LoaderProps.

(** ** [cmd/ew]: compatibility is symmetric *)

Module CompatMoreProps.
Import GoStrings GoStringsFacts StringFacts MemoryCompat MemoryCompatSpec MemoryCompatProps.
Import TokenSpec TokenFacts.

Lemma signalStep_pushNew (acc : list string * gset string) (part : string) :
  signalStep acc part
  = pushNew (fun part => Trim (TrimSpace part) punctuation)
      (fun token => (String.length token <? 2) || inList token stopwords) acc part.
Proof.
  unfold signalStep, pushNew. cbv zeta.
  destruct (String.length _ <? 2); [reflexivity|]. cbn [orb].
  now destruct (inList _ stopwords).
Qed.

Lemma memorySignalTokens_NoDup (input : string) : NoDup (memorySignalTokens input).
Proof.
  unfold memorySignalTokens.
  rewrite (FindProps.fold_left_ext _ _ _ _ signalStep_pushNew).
  apply pushNew_loop.
Qed.

Lemma filter_NoDup {A : Type} (p : A -> bool) (l : list A) :
  NoDup l -> NoDup (List.filter p l).
Proof.
  induction 1 as [|x l Hx Hl IH]; cbn; [constructor|].
  destruct (p x); [|exact IH]. constructor; [|exact IH].
  intros Hin. apply Hx. apply list_elem_of_In in Hin. apply filter_In in Hin as [Hin _].
  now apply list_elem_of_In.
Qed.

(** The number of shared tokens does not depend on the side counted. *)
Lemma countShared_sym (a b : list string) :
  NoDup a -> NoDup b -> countShared a b = countShared b a.
Proof.
  intros Ha Hb. unfold countShared. apply Permutation_length.
  apply NoDup_Permutation; [now apply filter_NoDup..|].
  intros x. rewrite !list_elem_of_In, !filter_In, !bool_decide_eq_true,
    !elem_of_list_to_set, !list_elem_of_In. tauto.
Qed.

(** X21. memoryQueryCompatible does not depend on which of the two queries
    is the stored one. *)
Theorem memoryQueryCompatible_sym (query storedQuery : string) :
  memoryQueryCompatible query storedQuery = memoryQueryCompatible storedQuery query.
Proof.
  unfold memoryQueryCompatible. cbv zeta.
  rewrite (orb_comm (isEmpty (normalizeComparableCommand query))).
  destruct (isEmpty (normalizeComparableCommand storedQuery)
            || isEmpty (normalizeComparableCommand query)); [reflexivity|].
  rewrite (String.eqb_sym (normalizeComparableCommand query)).
  destruct (String.eqb (normalizeComparableCommand storedQuery)
              (normalizeComparableCommand query)); [reflexivity|].
  rewrite !numericGuard.
  assert (Hnum : bool_decide (numericSet query = numericSet storedQuery)
                 = bool_decide (numericSet storedQuery = numericSet query)).
  { apply bool_decide_ext. split; intros H; now symmetry. }
  rewrite Hnum.
  destruct (negb (bool_decide (numericSet storedQuery = numericSet query))); [reflexivity|].
  rewrite (orb_comm (length (memorySignalTokens query) =? 0)).
  destruct ((length (memorySignalTokens storedQuery) =? 0)
            || (length (memorySignalTokens query) =? 0)); [reflexivity|].
  rewrite (countShared_sym _ _ (memorySignalTokens_NoDup query)
             (memorySignalTokens_NoDup storedQuery)).
  destruct (countShared (memorySignalTokens storedQuery) (memorySignalTokens query) =? 0);
    [reflexivity|].
  destruct (2 <=? countShared (memorySignalTokens storedQuery) (memorySignalTokens query));
    [reflexivity|].
  rewrite (andb_comm (length (memorySignalTokens query) =? 1)).
  destruct (_ && _ && _); [reflexivity|]. apply orb_comm.
Qed.

End CompatMoreProps.

(** ** [internal/config]: comma-separated lists and the thresholds *)

Module ConfigProps.
Import GoStrings GoStringsFacts StringFacts RegexpFacts QFacts Config ConfigText ConfigSpec.

Lemma splitAux_parts (sep : ascii) (s cur : string) :
  ContainsRune cur sep = false ->
  Forall (fun part => ContainsRune part sep = false) (splitAux sep s cur).
Proof.
  revert cur. induction s as [|c s IH]; intros cur Hcur; cbn [splitAux].
  - now repeat constructor.
  - destruct (ascii_eqb c sep) eqn:E.
    + constructor; [exact Hcur|]. now apply IH.
    + apply IH. rewrite ContainsRune_append. cbn [ContainsRune]. now rewrite Hcur, E.
Qed.

Lemma SplitByte_Join (items : list string) (sep : ascii) :
  items <> [] ->
  Forall (fun item => ContainsRune item sep = false) items ->
  SplitByte (Join items (String sep EmptyString)) sep = items.
Proof.
  intros Hne Hall. induction Hall as [|x items Hx Hall IH]; [contradiction|].
  destruct items as [|y items].
  - cbn [Join]. now apply SplitByte_line.
  - change (Join (x :: y :: items) (String sep EmptyString))
      with (x +:+ String sep EmptyString +:+ Join (y :: items) (String sep EmptyString)).
    rewrite append_cons, append_nil_l, SplitByte_append, (SplitByte_line x) by exact Hx.
    rewrite IH by discriminate. reflexivity.
Qed.

Lemma splitCommaList_items (value : string) : Forall listItem (splitCommaList value).
Proof.
  unfold splitCommaList. destruct (isEmpty (TrimSpace value)); [constructor|].
  apply List.Forall_forall. intros item Hin. apply filter_In in Hin as [Hin Hne].
  apply in_map_iff in Hin as (part & <- & Hpart).
  split; [|split].
  - apply isEmpty_false. now apply negb_true_iff.
  - apply TrimSpace_idem.
  - apply ContainsRune_TrimSpace.
    pose proof (splitAux_parts "," value EmptyString eq_refl) as Hall.
    rewrite List.Forall_forall in Hall. now apply Hall.
Qed.

Lemma listItems_kept (items : list string) :
  Forall listItem items ->
  List.filter (fun item => negb (isEmpty item)) (map TrimSpace items) = items.
Proof.
  induction 1 as [|y items (Hne & Htrim & _) Hall IH]; [reflexivity|].
  cbn [map List.filter]. rewrite Htrim.
  apply isEmpty_false in Hne. rewrite Hne. cbn [negb]. now rewrite IH.
Qed.

Lemma splitCommaList_Join (items : list string) :
  Forall listItem items -> splitCommaList (Join items ",") = items.
Proof.
  intros Hall. destruct items as [|x rest]; [reflexivity|].
  unfold splitCommaList.
  assert (Hhead : isEmpty (TrimSpace (Join (x :: rest) ",")) = false).
  { inversion Hall as [|? ? (Hne & Htrim & _) _]; subst.
    destruct x as [|c t]; [contradiction|].
    pose proof (TrimSpace_head _ _ _ Htrim) as Hc.
    apply isEmpty_false.
    destruct rest as [|y rest]; [cbn [Join]; rewrite Htrim; discriminate|].
    change (Join (String c t :: y :: rest) ",")
      with (String c t +:+ "," +:+ Join (y :: rest) ",").
    rewrite append_cons. now apply TrimSpace_cons. }
  rewrite Hhead, SplitByte_Join.
  - now apply listItems_kept.
  - discriminate.
  - eapply List.Forall_impl; [|exact Hall]. now intros item (_ & _ & H).
Qed.

(** X23. The items that splitCommaList returns are not empty, have no white
    space around them and hold no comma; a list of such items joined with
    commas is split into the same list again; a blank text gives no item. *)
Theorem splitCommaList_spec (value : string) :
  Forall listItem (splitCommaList value)
  /\ (forall items, Forall listItem items -> splitCommaList (Join items ",") = items)
  /\ (TrimSpace value = EmptyString -> splitCommaList value = []).
Proof.
  split; [apply splitCommaList_items|]. split.
  - apply splitCommaList_Join.
  - intros H. unfold splitCommaList. now rewrite H.
Qed.

End ConfigProps.

Module ThresholdProps.
Import GoStrings QFacts Config ConfigText Policy.

Lemma normalized_valid (v d : Q) :
  validThreshold d = true ->
  validThreshold (if Qleb v 0 || Qgtb v 1 then d else v) = true.
Proof.
  intros Hd. destruct (Qleb v 0 || Qgtb v 1) eqn:E; [exact Hd|].
  apply orb_false_iff in E as [E0 E1]. unfold validThreshold, Qgtb, Qltb, Qleb in *.
  rewrite E0. cbn [negb andb]. now apply negb_false_iff in E1.
Qed.

Lemma valid_kept (v d : Q) :
  validThreshold v = true -> (if Qleb v 0 || Qgtb v 1 then d else v) = v.
Proof.
  unfold validThreshold, Qgtb, Qltb, Qleb. intros H. apply andb_true_iff in H as [H0 H1].
  apply negb_true_iff in H0. rewrite H0, H1. reflexivity.
Qed.

(** X26. After Config.normalize three thresholds that were finite numbers
    lie in (0,1], so the
    threshold of an intent is the value of its own section -- fix for Fix,
    find for Find and Run, ai for the others -- with no fallback; normalizing
    again changes nothing, and the safety settings are untouched. *)
Theorem normalize_thresholds (c : Config) (intent : Router.Intent) :
  let n := ConfigText.normalize c in
  validThreshold (MinConfidence (Fix n)) = true
  /\ validThreshold (MinConfidence (Find n)) = true
  /\ validThreshold (AIMinConfidence (AI n)) = true
  /\ confidenceThresholdForIntent n intent
     = (if String.eqb intent Router.IntentFix then MinConfidence (Fix n)
        else if String.eqb intent Router.IntentFind || String.eqb intent Router.IntentRun
             then MinConfidence (Find n)
        else AIMinConfidence (AI n))
  /\ ConfigText.normalize n = n
  /\ Safety n = Safety c
  /\ AllowSuggestExecution (AI n) = AllowSuggestExecution (AI c).
Proof.
  cbv zeta.
  assert (Hfix : validThreshold (MinConfidence (Fix (ConfigText.normalize c))) = true)
    by (apply normalized_valid; reflexivity).
  assert (Hfind : validThreshold (MinConfidence (Find (ConfigText.normalize c))) = true)
    by (apply normalized_valid; reflexivity).
  assert (Hai : validThreshold (AIMinConfidence (AI (ConfigText.normalize c))) = true)
    by (apply normalized_valid; reflexivity).
  split; [exact Hfix|]. split; [exact Hfind|]. split; [exact Hai|]. split.
  - unfold confidenceThresholdForIntent. rewrite Hfix, Hfind, Hai.
    rewrite !andb_true_r. reflexivity.
  - split; [|split; reflexivity].
    unfold ConfigText.normalize at 1. cbv zeta.
    rewrite !valid_kept by assumption. reflexivity.
Qed.

End ThresholdProps.

(** ** [internal/safety]: text that redaction leaves alone *)

Module RedactMoreProps.
Import GoStrings GoStringsFacts StringFacts RegexpFacts Regexp Safety RedactSpec RedactMoreSpec.
Import SafetyProps.

Lemma rules_need_break :
  Forall (fun rule => needs breakByte (pattern rule) = true) secretRedactionRules.
Proof. repeat constructor; vm_compute; reflexivity. Qed.

(** X24. RedactText returns a text without an assignment sign, a colon and
    white space as it is. *)
Theorem RedactText_unbroken (input : string) :
  clean breakByte input = true -> RedactText input = input.
Proof.
  intros Hclean. unfold RedactText.
  pose proof rules_need_break as Hrules.
  induction Hrules as [|rule rules Hrule Hrules IH]; [reflexivity|].
  cbn [fold_left]. unfold applyRule at 2.
  rewrite (ReplaceAllString_clean breakByte _ _ _ Hrule Hclean). exact IH.
Qed.

(** X25. What RedactText makes of an assignment to a sensitive key is left
    unchanged when it is redacted again. *)
Theorem RedactText_stable (key : string) :
  sensitiveKey key = true ->
  RedactText (key +:+ "=<redacted>") = key +:+ "=<redacted>".
Proof.
  unfold sensitiveKey. rewrite andb_true_iff. intros [Hk Hw].
  assert (Hv : tailReads "<redacted>").
  { apply valueShape_tailReads. left. reflexivity. }
  unfold RedactText, secretRedactionRules. cbn [fold_left].
  change (key +:+ "=<redacted>") with (assignmentInput key "<redacted>") at 1.
  rewrite (assignmentRule_replace key "<redacted>" Hk Hw Hv).
  rewrite !later_rule_keeps; try exact Hk; try reflexivity.
Qed.


Lemma RedactText_unbroken_witness :
  RedactText "my-secret-token-value" = "my-secret-token-value".
Proof. apply (RedactText_unbroken "my-secret-token-value"). vm_compute. reflexivity. Defined.

Lemma RedactText_stable_witness :
  RedactText "DB_PASSWORD=<redacted>" = "DB_PASSWORD=<redacted>".
Proof. apply (RedactText_stable "DB_PASSWORD"). vm_compute. reflexivity. Defined.

End RedactMoreProps.

(** ** [internal/runtime] and [cmd/ew]: a risky command inside a longer one *)

Module WrapProps.
Import GoStrings GoStringsFacts StringFacts RegexpFacts Classifier.










End WrapProps.

(** ** Locales *)

Module LocaleProps.
Import GoStrings GoStringsFacts StringFacts RegexpFacts RedactSpec I18n LocaleSpec.

Lemma localeByte_plain (c : ascii) :
  localeByte c = true ->
  isSpace c = false /\ ascii_eqb c "." = false /\ ascii_eqb c "@" = false
  /\ ascii_eqb c "_" = false /\ ascii_eqb c "-" = false.
Proof. destruct c as [[] [] [] [] [] [] [] []]; intros H; try discriminate H; now repeat split. Qed.

Lemma allBytes_ContainsRune (p : ascii -> bool) (s : string) (r : ascii) :
  allBytes p s = true -> p r = false -> ContainsRune s r = false.
Proof.
  intros Hs Hr. induction s as [|c s IH]; [reflexivity|].
  cbn [allBytes] in Hs. apply andb_true_iff in Hs as [Hc Hs].
  cbn [ContainsRune]. rewrite (IH Hs), orb_false_r.
  unfold ascii_eqb. destruct (Ascii.eqb_spec c r) as [->|]; [congruence|reflexivity].
Qed.

Lemma TrimRightFunc_none (s : string) (f : ascii -> bool) :
  allBytes (fun c => negb (f c)) s = true -> TrimRightFunc s f = s.
Proof.
  induction s as [|c s IH]; [reflexivity|]. cbn [allBytes]. intros H.
  apply andb_true_iff in H as [Hc Hs]. cbn [TrimRightFunc]. rewrite (IH Hs).
  apply negb_true_iff in Hc. rewrite Hc. now destruct s.
Qed.

Lemma TrimSpace_none (s : string) :
  allBytes (fun c => negb (isSpace c)) s = true -> TrimSpace s = s.
Proof.
  intros H. unfold TrimSpace, TrimFunc.
  assert (Hl : TrimLeftFunc s isSpace = s).
  { destruct s as [|c s]; [reflexivity|]. cbn [allBytes] in H.
    apply andb_true_iff in H as [Hc _]. apply negb_true_iff in Hc.
    cbn [TrimLeftFunc]. now rewrite Hc. }
  rewrite Hl. now apply TrimRightFunc_none.
Qed.

Lemma ReplaceAll_absent (s : string) (old : ascii) (new : string) :
  ContainsRune s old = false ->
  Memory.ReplaceAll s (String old EmptyString) new = s.
Proof.
  unfold Memory.ReplaceAll. induction s as [|c s IH]; [reflexivity|].
  cbn [ContainsRune]. intros H. apply orb_false_iff in H as [Hc Hs].
  cbn [Memory.replaceAllFrom]. rewrite HasPrefix_single, Hc. now rewrite (IH Hs).
Qed.

Lemma firstPart_absent (s : string) (sep : ascii) :
  ContainsRune s sep = false -> firstPart s sep = s.
Proof. intros H. unfold firstPart. now rewrite SplitByte_line. Qed.

Lemma validRunes_lower (token : string) :
  validRunes token true = true -> allBytes isLower token = true.
Proof.
  induction token as [|r rest IH]; [reflexivity|]. cbn [validRunes allBytes negb andb].
  destruct (isLower r); [exact IH|discriminate].
Qed.

Lemma lowerByte_fixed (c : ascii) : isLower c = true -> toLowerByte c = c.
Proof. destruct c as [[] [] [] [] [] [] [] []]; intros H; try discriminate H; reflexivity. Qed.

Lemma ToLower_lower (s : string) : allBytes isLower s = true -> ToLower s = s.
Proof.
  induction s as [|c s IH]; [reflexivity|]. cbn [allBytes]. intros H.
  apply andb_true_iff in H as [Hc Hs]. cbn [ToLower].
  now rewrite (lowerByte_fixed c Hc), (IH Hs).
Qed.

Lemma toUpperByte_idem (c : ascii) : toUpperByte (toUpperByte c) = toUpperByte c.
Proof. destruct c as [[] [] [] [] [] [] [] []]; reflexivity. Qed.

Lemma ToUpper_idem (s : string) : ToUpper (ToUpper s) = ToUpper s.
Proof. induction s as [|c s IH]; [reflexivity|]. cbn. now rewrite toUpperByte_idem, IH. Qed.

Lemma validByte_locale (c : ascii) (lettersOnly : bool) :
  (isLower (toLowerByte c) || (negb lettersOnly && isDigit (toLowerByte c))) = true ->
  localeByte c = true.
Proof.
  destruct c as [[] [] [] [] [] [] [] []], lettersOnly; intros H; try discriminate H;
    reflexivity.
Qed.

Lemma validRunes_locale (s : string) (lettersOnly : bool) :
  validRunes (ToLower s) lettersOnly = true -> allBytes localeByte s = true.
Proof.
  induction s as [|c s IH]; [reflexivity|]. cbn [ToLower validRunes allBytes]. intros H.
  assert (Hc : (isLower (toLowerByte c) || (negb lettersOnly && isDigit (toLowerByte c)))
               = true).
  { destruct (isLower (toLowerByte c)); [reflexivity|].
    destruct (negb lettersOnly && isDigit (toLowerByte c)); [reflexivity|discriminate]. }
  rewrite (validByte_locale c lettersOnly Hc). apply IH.
  destruct (isLower (toLowerByte c)); [exact H|].
  destruct (negb lettersOnly && isDigit (toLowerByte c)); [exact H|discriminate].
Qed.

Lemma valid_runes (token : string) (lettersOnly : bool) :
  isValidLocaleToken token lettersOnly = true ->
  validRunes token lettersOnly = true /\ token <> EmptyString.
Proof.
  unfold isValidLocaleToken.
  destruct (String.length token <? 2) eqn:E; [discriminate|].
  destruct (8 <? String.length token); [discriminate|]. cbn [orb].
  intros H. split; [exact H|]. intros ->. discriminate.
Qed.

Lemma allBytes_weaken (p q : ascii -> bool) (s : string) :
  (forall c, p c = true -> q c = true) -> allBytes p s = true -> allBytes q s = true.
Proof. intros H. now apply allBytes_impl. Qed.

Lemma localeBytes_plain (s : string) :
  allBytes localeByte s = true ->
  allBytes (fun c => negb (isSpace c)) s = true
  /\ ContainsRune s "." = false /\ ContainsRune s "@" = false
  /\ ContainsRune s "_" = false /\ ContainsRune s "-" = false.
Proof.
  intros H. split; [|repeat split; now apply (allBytes_ContainsRune localeByte)].
  eapply allBytes_impl; [|exact H]. intros c Hc.
  apply localeByte_plain in Hc as [Hs _]. now rewrite Hs.
Qed.

(** A language is its own normal form. *)
Lemma NormalizeLocale_language (lang : string) :
  language lang -> NormalizeLocale lang = lang.
Proof.
  unfold language. intros Hv. pose proof (valid_runes _ _ Hv) as [Hr Hne].
  pose proof (validRunes_lower _ Hr) as Hlow.
  assert (Hloc : allBytes localeByte lang = true).
  { eapply allBytes_impl; [|exact Hlow]. intros c Hc. unfold localeByte. now rewrite Hc. }
  destruct (localeBytes_plain _ Hloc) as (Hsp & Hdot & Hat & Hus & Hdash).
  unfold NormalizeLocale. rewrite (TrimSpace_none _ Hsp).
  apply isEmpty_false in Hne. rewrite Hne.
  rewrite (firstPart_absent _ _ Hdot), (firstPart_absent _ _ Hat),
    (ReplaceAll_absent _ _ _ Hus), (SplitByte_line _ _ Hdash).
  rewrite (ToLower_lower _ Hlow), Hv. reflexivity.
Qed.

(** A language and a region joined with a dash are their own normal form. *)
Lemma NormalizeLocale_region (lang reg : string) :
  language lang -> region reg -> NormalizeLocale (lang +:+ "-" +:+ reg) = lang +:+ "-" +:+ reg.
Proof.
  unfold language, region. intros Hv [Hreg Hup].
  pose proof (valid_runes _ _ Hv) as [Hr Hne].
  pose proof (validRunes_lower _ Hr) as Hlow.
  assert (Hloc : allBytes localeByte lang = true).
  { eapply allBytes_impl; [|exact Hlow]. intros c Hc. unfold localeByte. now rewrite Hc. }
  destruct (localeBytes_plain _ Hloc) as (Hsp & Hdot & Hat & Hus & Hdash).
  pose proof (valid_runes _ _ Hreg) as [Hrr Hrne].
  pose proof (validRunes_locale _ _ Hrr) as Hrloc.
  destruct (localeBytes_plain _ Hrloc) as (Hrsp & Hrdot & Hrat & Hrus & Hrdash).
  assert (Hregne : reg <> EmptyString) by (intros ->; now apply Hrne).
  set (whole := lang +:+ "-" +:+ reg).
  assert (Hwsp : allBytes (fun c => negb (isSpace c)) whole = true).
  { unfold whole. rewrite !allBytes_append, Hsp, Hrsp. reflexivity. }
  assert (Hw : forall r, ContainsRune lang r = false -> ContainsRune reg r = false ->
                         ascii_eqb "-" r = false -> ContainsRune whole r = false).
  { intros r H1 H2 H3. unfold whole. rewrite !ContainsRune_append, H1, H2.
    cbn [ContainsRune]. now rewrite H3. }
  unfold NormalizeLocale. rewrite (TrimSpace_none _ Hwsp).
  assert (Hwne : isEmpty whole = false).
  { apply isEmpty_false. unfold whole. destruct lang; [contradiction|].
    rewrite append_cons. discriminate. }
  rewrite Hwne.
  rewrite (firstPart_absent _ _ (Hw _ Hdot Hrdot eq_refl)),
    (firstPart_absent _ _ (Hw _ Hat Hrat eq_refl)),
    (ReplaceAll_absent _ _ _ (Hw _ Hus Hrus eq_refl)).
  unfold whole. rewrite append_cons, append_nil_l, SplitByte_append.
  rewrite (SplitByte_line _ _ Hdash), (SplitByte_line _ _ Hrdash). cbn [app].
  rewrite (ToLower_lower _ Hlow), Hv, Hup, Hreg. cbn [negb].
  apply isEmpty_false in Hregne. rewrite Hregne. reflexivity.
Qed.

(** X28. [NormalizeLocale] returns the empty string or a locale in normal
    form: a language of two to eight lower-case letters, alone or followed by
    a dash and a region of two to eight upper-case letters or digits.  It
    leaves its own results unchanged, and a blank input gives the empty
    string. *)
Theorem NormalizeLocale_spec (raw : string) :
  (NormalizeLocale raw = EmptyString \/ normalLocale (NormalizeLocale raw))
  /\ NormalizeLocale (NormalizeLocale raw) = NormalizeLocale raw
  /\ (TrimSpace raw = EmptyString -> NormalizeLocale raw = EmptyString).
Proof.
  assert (Hshape : NormalizeLocale raw = EmptyString \/ normalLocale (NormalizeLocale raw)).
  { unfold NormalizeLocale. destruct (isEmpty (TrimSpace raw)); [now left|]. cbv zeta.
    destruct (SplitByte _ "-") as [|first [|second rest]]; [now left| |].
    - destruct (isValidLocaleToken (ToLower first) true) eqn:Ev; cbn [negb]; [|now left].
      right. exists (ToLower first). split; [exact Ev|now left].
    - destruct (isValidLocaleToken (ToLower first) true) eqn:Ev; cbn [negb]; [|now left].
      destruct (isEmpty (ToUpper second)) eqn:Ee.
      + right. exists (ToLower first). split; [exact Ev|now left].
      + destruct (isValidLocaleToken (ToLower (ToUpper second)) false) eqn:Er;
          cbn [negb]; [|now left].
        right. exists (ToLower first). split; [exact Ev|]. right.
        exists (ToUpper second). split; [|reflexivity].
        split; [exact Er|apply ToUpper_idem]. }
  split; [exact Hshape|]. split.
  - destruct Hshape as [->|(lang & Hlang & [->|(reg & Hreg & ->)])].
    + reflexivity.
    + now apply NormalizeLocale_language.
    + now apply NormalizeLocale_region.
  - intros H. unfold NormalizeLocale. now rewrite H.
Qed.

End LocaleProps.

(** ** The loader of bash history *)

Module BashLoaderProps.
Import GoStrings GoStringsFacts StringFacts.
Import History HistoryLatest HistoryLoaders LoaderSpec LoaderProps.

Lemma assignTimes_stamped (start : Z) (parsed : list Entry) :
  Forall (fun e => untimed e = true -> approxTS e = true) parsed ->
  forall (k : nat) (before : list Entry),
    assignTimes start k (untimedFrom (length before) parsed) (before ++ parsed)
    = before ++ stamped start k parsed.
Proof.
  induction 1 as [|e rest He Hrest IH]; intros k before; cbn [untimedFrom stamped].
  - reflexivity.
  - destruct (untimed e) eqn:E.
    + cbn [assignTimes]. rewrite alter_middle, (He eq_refl).
      specialize (IH (S k) (before ++ [withTime e (start + Z.of_nat k * second) true])).
      rewrite length_app, Nat.add_1_r, <- !app_assoc in IH. exact IH.
    + specialize (IH k (before ++ [e])).
      rewrite length_app, Nat.add_1_r, <- !app_assoc in IH. exact IH.
Qed.

(** Where the entries of [stamped] come from, and when. *)
Lemma stamped_entries (now : Z) (parsed : list Entry) (i : nat) (p : Entry) :
  let n := length (List.filter untimed parsed) in
  parsed !! i = Some p ->
  exists e, stamped (now - Z.of_nat n * second) 0 parsed !! i = Some e
    /\ Command e = Command p /\ Source e = Source p
    /\ (untimed p = false -> e = p)
    /\ (untimed p = true ->
        approxTS e = true
        /\ exists k, k < n
             /\ k = length (List.filter untimed (take i parsed))
             /\ Timestamp e = (now - Z.of_nat (n - k) * second)%Z).
Proof.
  cbv zeta. intros Hp. rewrite (stamped_lookup _ parsed i p 0 Hp). eexists.
  split; [reflexivity|].
  split; [now destruct (untimed p)|]. split; [now destruct (untimed p)|].
  split; [now intros ->|]. intros Hu. rewrite Hu. cbn [approxTS Timestamp withTime].
  split; [reflexivity|].
  exists (length (List.filter untimed (take i parsed))).
  assert (Hlt : length (List.filter untimed (take i parsed))
                < length (List.filter untimed parsed)).
  { rewrite <- (take_drop i parsed) at 2.
    rewrite List.filter_app, length_app.
    rewrite (drop_S parsed p i Hp). cbn [List.filter]. rewrite Hu. cbn [length]. lia. }
  split; [exact Hlt|]. split; [reflexivity|]. cbn [Nat.add]. unfold second. lia.
Qed.

Section WithOracles.

Variable parseUnix : string -> option Z.
Variable now : Z.

Lemma bashParsed_approx (pending : Z) (lines : list string) :
  Forall (fun e => untimed e = true -> approxTS e = true)
         (bashParsed parseUnix pending lines).
Proof.
  revert pending. induction lines as [|text rest IH]; intros pending; cbn [bashParsed].
  - constructor.
  - cbv zeta. destruct (isEmpty (TrimSpace text)); [apply IH|].
    destruct (HasPrefix (TrimSpace text) "#"); [apply IH|].
    constructor; [|apply IH]. unfold untimed. cbn [Timestamp approxTS]. auto.
Qed.

Lemma bashLoop (lines : list string) (entries : list Entry) (untimedIndexes : list nat)
    (pending : Z) :
  untimedIndexes = untimedFrom 0 entries ->
  exists pending',
    fold_left (bashStep parseUnix) lines (entries, untimedIndexes, pending)
    = (entries ++ bashParsed parseUnix pending lines,
       untimedFrom 0 (entries ++ bashParsed parseUnix pending lines), pending').
Proof.
  revert entries untimedIndexes pending.
  induction lines as [|text rest IH]; intros entries untimedIndexes pending Hu.
  - exists pending. cbn. now rewrite app_nil_r, Hu.
  - cbn [fold_left bashParsed]. unfold bashStep at 2. cbv zeta.
    destruct (isEmpty (TrimSpace text)); [now apply IH|].
    destruct (HasPrefix (TrimSpace text) "#").
    + destruct (parseUnix _); now apply IH.
    + set (entry := mkEntry (TrimSpace text) pending "bash" 0 false).
      replace (length (entries ++ [entry]) - 1) with (length entries)
        by (rewrite length_app; cbn; lia).
      rewrite alter_middle.
      destruct (pending =? zeroTime)%Z eqn:E.
      * destruct (IH (entries ++ [withTime entry (Timestamp entry) true])
                    (untimedIndexes ++ [length entries]) zeroTime) as [pending' Hfold].
        { rewrite untimedFrom_app, Hu. unfold untimed. cbn [Timestamp withTime entry].
          rewrite E. reflexivity. }
        exists pending'. rewrite Hfold. now rewrite <- !app_assoc.
      * destruct (IH (entries ++ [entry]) untimedIndexes zeroTime) as [pending' Hfold].
        { rewrite untimedFrom_app, Hu. unfold untimed. cbn [Timestamp entry].
          rewrite E. now rewrite app_nil_r. }
        exists pending'. rewrite Hfold. now rewrite <- !app_assoc.
Qed.

(** X29. [loadBashHistory] keeps one entry per command line, in the order
    of the file; blank lines and comment lines give none.  An entry that got
    a time from a preceding time stamp line is kept as parsed.  The [n]
    entries without a time are marked approximate and spread one second
    apart up to one second before [now]: the one with [k] untimed entries
    before it is placed [n - k] seconds before [now]. *)
Theorem loadBashHistory_spec (lines : list string) :
  let parsed := bashParsed parseUnix zeroTime lines in
  let n := length (List.filter untimed parsed) in
  let out := loadBashHistory parseUnix now lines in
  out = stamped (now - Z.of_nat n * second) 0 parsed
  /\ map Command out = map Command parsed
  /\ forall i p, parsed !! i = Some p ->
       exists e, out !! i = Some e
         /\ Command e = Command p /\ Source e = Source p
         /\ (untimed p = false -> e = p)
         /\ (untimed p = true ->
             approxTS e = true
             /\ exists k, k < n
                  /\ k = length (List.filter untimed (take i parsed))
                  /\ Timestamp e = (now - Z.of_nat (n - k) * second)%Z).
Proof.
  cbv zeta.
  set (parsed := bashParsed parseUnix zeroTime lines).
  set (n := length (List.filter untimed parsed)).
  assert (Hout : loadBashHistory parseUnix now lines
                 = stamped (now - Z.of_nat n * second) 0 parsed).
  { unfold loadBashHistory.
    destruct (bashLoop lines [] [] zeroTime eq_refl) as [pending' Hfold].
    rewrite Hfold. cbn [app]. fold parsed.
    assert (Hn : length (untimedFrom 0 parsed) = n) by apply untimedFrom_length.
    destruct (untimedFrom 0 parsed) as [|idx rest] eqn:Eu.
    - symmetry. apply stamped_none. cbn in Hn.
      destruct (List.filter untimed parsed); [reflexivity|discriminate].
    - rewrite Hn, <- Eu.
      apply (assignTimes_stamped _ parsed (bashParsed_approx zeroTime lines) 0 []). }
  rewrite Hout. split; [reflexivity|]. split; [apply stamped_Command|].
  intros i p Hp. now apply stamped_entries.
Qed.

End WithOracles.

End BashLoaderProps.

(** ** What [LoadEntries] returns is determined *)

Module DeterminedProps.
Import GoStrings GoStringsFacts.
Import History HistorySpec HistoryProps ListFacts.

Lemma sorted_unique {A : Type} (R : A -> A -> Prop) (l1 l2 : list A) :
  (forall x y, In x l1 -> In y l1 -> R x y -> R y x -> x = y) ->
  StronglySorted R l1 -> StronglySorted R l2 -> Permutation l1 l2 -> l1 = l2.
Proof.
  revert l2. induction l1 as [|x l1 IH]; intros l2 Hanti H1 H2 Hp.
  - apply Permutation_nil in Hp. now subst.
  - destruct l2 as [|y l2]; [symmetry in Hp; now apply Permutation_nil_cons in Hp|].
    inversion H1 as [|? ? H1' Hx]; subst. inversion H2 as [|? ? H2' Hy]; subst.
    rewrite List.Forall_forall in Hx, Hy.
    assert (Hxy : x = y).
    { assert (Hyin : In y (x :: l1)).
      { apply list_elem_of_In. rewrite Hp. now left. }
      assert (Hxin : In x (y :: l2)).
      { apply list_elem_of_In. rewrite <- Hp. now left. }
      destruct Hyin as [E|Hyin]; [exact E|].
      destruct Hxin as [E|Hxin]; [now symmetry|].
      apply Hanti; [now left|now right|now apply Hx|now apply Hy]. }
    subst y. f_equal. apply IH.
    + intros a b Ha Hb. apply Hanti; now right.
    + exact H1'.
    + exact H2'.
    + now apply Permutation_cons_inv in Hp.
Qed.

Lemma seq_orders_NoDup (n : nat) : NoDup (map Z.of_nat (seq 0 n)).
Proof.
  apply NoDup_fmap_2; [intros a b H; lia|]. apply NoDup_ListNoDup, List.seq_NoDup.
Qed.

Lemma order_loaded (loaded : list Entry) (a b : Entry) :
  NoDup (map order loaded) -> In a loaded -> In b loaded -> order a = order b -> a = b.
Proof.
  intros Hnd Ha Hb Hab.
  apply In_nth_error in Ha as [i Hi]. apply In_nth_error in Hb as [j Hj].
  assert (Hij : i = j).
  { apply (NoDup_map_position order loaded i j a b Hnd Hi Hj Hab). }
  subst j. congruence.
Qed.

Lemma dedupeEntries_orders (loaded : list Entry) (a b : Entry) :
  NoDup (map order loaded) ->
  In a (dedupeEntries loaded) -> In b (dedupeEntries loaded) -> order a = order b -> a = b.
Proof.
  intros Hnd Ha Hb Hab.
  destruct (latestOf_all loaded) as [Hval _].
  unfold dedupeEntries in Ha, Hb.
  apply list_elem_of_In, list_elem_of_fmap in Ha as ([ka a'] & -> & Ha).
  apply list_elem_of_In, list_elem_of_fmap in Hb as ([kb b'] & -> & Hb).
  apply elem_of_map_to_list in Ha, Hb. cbn [snd] in *.
  destruct (Hval _ _ Ha) as (_ & _ & ea & Hea & ->).
  destruct (Hval _ _ Hb) as (_ & _ & eb & Heb & ->).
  cbn [order withCommand] in Hab.
  now rewrite (order_loaded loaded ea eb Hnd Hea Heb Hab).
Qed.

(** X30. The result of [LoadEntries] does not depend on the order in which
    the deduplication map is walked, nor on how the sort places its
    elements: every ordering of the deduplicated entries that is sorted
    newest first gives, cut to [maxEntries], the same list. *)
Theorem LoadEntries_determined (files : list (option (list Entry))) (l : list Entry) :
  Permutation l (dedupeEntries (collect files)) ->
  StronglySorted (GoSortFacts.notAfter entryLess) l ->
  firstn maxEntries l = LoadEntries files.
Proof.
  intros Hp Hs.
  assert (Hnd : NoDup (map order (collect files))).
  { rewrite collect_orders. apply seq_orders_NoDup. }
  assert (Hl : l = GoSort.Slice entryLess (dedupeEntries (collect files))).
  { apply (sorted_unique (GoSortFacts.notAfter entryLess)).
    - intros x y Hx Hy Hxy Hyx.
      apply (dedupeEntries_orders (collect files)); [exact Hnd| | |].
      + apply list_elem_of_In. rewrite <- Hp. now apply list_elem_of_In.
      + apply list_elem_of_In. rewrite <- Hp. now apply list_elem_of_In.
      + unfold GoSortFacts.notAfter, entryLess in Hxy, Hyx.
        destruct (Z.eqb_spec (Timestamp y) (Timestamp x)) as [E|E];
          destruct (Z.eqb_spec (Timestamp x) (Timestamp y)) as [E'|E'];
          try congruence; rewrite Z.ltb_ge in Hxy, Hyx; lia.
    - exact Hs.
    - apply GoSortFacts.Slice_sorted; [exact historyLess_asym|exact historyLess_negtrans].
    - rewrite Hp. symmetry. apply GoSortFacts.Slice_Permutation. }
  unfold LoadEntries. destruct (collect files) eqn:E; [|now rewrite Hl].
  rewrite Hl. reflexivity.
Qed.

Lemma LoadEntries_determined_witness :
  firstn maxEntries HistoryMoreSpec.newestFirst = LoadEntries HistoryMoreSpec.oneFile.
Proof.
  apply LoadEntries_determined.
  - vm_compute. apply perm_swap.
  - repeat constructor; vm_compute; reflexivity.
Defined.

End DeterminedProps.
